(** * knowledge.py: the symbol knowledge base and its emitters

    A shallow embedding of [src/knowledge.py]: the [Symbol] classes, the
    register-annotation filter, thunk synthesis, the header and
    module-definition emitters and the snapshot codec of [KnowledgeBase],
    followed by the properties proved about them.

    Conventions of the embedding.
    - Python [str] values are [string]s (ASCII text); [\w] is [[A-Za-z0-9_]].
    - Python [int] is unbounded, hence [Z].
    - A raised exception is the [Raise] case of [result].
    - Symbol objects are hashed and compared by identity in the source (no
      [__eq__]/[__hash__] is defined); [ident] stands for that identity and
      the identity-keyed dict [symbol_to_object] is keyed by it.
    - libclang is an external collaborator: [clang] is [None] when the
      import failed, and otherwise maps the text of the unsaved file to the
      last top-level cursor of the translation unit, if there is one.
    - A file is the text written to it once it is closed; [json.dump]
      followed by [json.load] gives back the value, so a snapshot is the
      list under its ['objects'] key.
    - The calls of [log.info] are kept for [deserialize], whose diagnostics
      a property is about; elsewhere they are left out.
    - Assertions are enabled. *)

From Stdlib Require Import ZArith NArith String Ascii List Bool Lia.
From Stdlib Require Import Sorting.Sorted Sorting.Permutation.
From stdpp Require Import base option list strings gmap fin_maps sorting.

Local Open Scope string_scope.
Local Open Scope list_scope.

(** ** Exceptions and the error monad *)

Inductive exn : Type :=
| AssertionError (msg : string)
| TypeError
| ValueError
| AttributeError
| IndexError
| KeyError.

Inductive result (A : Type) : Type :=
| Ok (a : A)
| Raise (e : exn).
Arguments Ok {A} a.
Arguments Raise {A} e.

Definition rbind {A B} (m : result A) (k : A -> result B) : result B :=
  match m with
  | Ok a => k a
  | Raise e => Raise e
  end.

Notation "x <-- m ;; k" := (rbind m (fun x => k))
  (at level 100, m at next level, right associativity).

Fixpoint rmapM {A B} (f : A -> result B) (l : list A) : result (list B) :=
  match l with
  | [] => Ok []
  | x :: l' => y <-- f x ;; ys <-- rmapM f l' ;; Ok (y :: ys)
  end.

Definition is_Ok {A} (m : result A) : Prop := exists a, m = Ok a.
Definition aborts {A} (m : result A) : Prop := exists e, m = Raise e.

(** ** Characters and text helpers *)

Definition nl : string := String "010"%char EmptyString.
Definition tab : string := String "009"%char EmptyString.
Definition dquote : string := String "034"%char EmptyString.

Definition in_range (lo hi : N) (c : ascii) : bool :=
  let n := N_of_ascii c in ((lo <=? n) && (n <=? hi))%N.

(** [\w] on ASCII text. *)
Definition is_word (c : ascii) : bool :=
  in_range 48 57 c || in_range 65 90 c || in_range 97 122 c
  || Ascii.eqb c "_"%char.

(** [str.find(ch)]: offset of the first occurrence, or -1. *)
Fixpoint find (s : string) (ch : ascii) : Z :=
  match s with
  | EmptyString => (-1)%Z
  | String c s' =>
      if Ascii.eqb c ch then 0%Z
      else let i := find s' ch in if (i <? 0)%Z then (-1)%Z else (i + 1)%Z
  end.

(** [s[0:n]]. *)
Fixpoint take_str (n : nat) (s : string) : string :=
  match n, s with
  | S k, String c s' => String c (take_str k s')
  | _, _ => EmptyString
  end.

(** [s[:-1]]. *)
Fixpoint drop_last (s : string) : string :=
  match s with
  | EmptyString => EmptyString
  | String c EmptyString => EmptyString
  | String c s' => String c (drop_last s')
  end.

(** [sep.join(l)]. *)
Fixpoint join (sep : string) (l : list string) : string :=
  match l with
  | [] => EmptyString
  | [x] => x
  | x :: l' => x +:+ sep +:+ join sep l'
  end.

Definition concat_str (l : list string) : string :=
  fold_right String.append EmptyString l.

(** ** The register-annotation pattern [reg_filter_re = @<(\w+)>] *)

(** The longest run of word characters at the head of [s], and the rest. *)
Fixpoint word_run (s : string) : string * string :=
  match s with
  | String c s' =>
      if is_word c then let '(w, r) := word_run s' in (String c w, r)
      else (EmptyString, s)
  | EmptyString => (EmptyString, EmptyString)
  end.

(** The pattern anchored at the head of [s]: group 1 and the text after the
    match.  [\w+] is greedy and ['>'] is not a word character, so the only
    candidate is the maximal run. *)
Definition reg_match_here (s : string) : option (string * string) :=
  match s with
  | String "@" (String "<" s1) =>
      match word_run s1 with
      | (String c w, String ">" rest) => Some (String c w, rest)
      | _ => None
      end
  | _ => None
  end.

(** [reg_filter_re.search(s)]: [match.span()[0]] and [match.group(1)] of the
    leftmost match. *)
Fixpoint reg_search (s : string) : option (nat * string) :=
  match reg_match_here s with
  | Some (reg, _) => Some (O, reg)
  | None =>
      match s with
      | EmptyString => None
      | String _ s' =>
          match reg_search s' with
          | Some (i, reg) => Some (S i, reg)
          | None => None
          end
      end
  end.

(** [reg_filter_re.sub('', s)], scanning left to right; [skip] counts the
    characters of the current match that are still to be dropped. *)
Fixpoint reg_sub (skip : nat) (s : string) : string :=
  match s with
  | EmptyString => EmptyString
  | String c s' =>
      match skip with
      | S k => reg_sub k s'
      | O =>
          match reg_match_here s with
          | Some (reg, _) => reg_sub (String.length reg + 2) s'
          | None => String c (reg_sub 0 s')
          end
      end
  end.

Definition filter_reg_assignments (s : string) : string := reg_sub 0 s.

(** ** [hex] and [int(_, 16)] *)

Definition hex_digit (d : N) : ascii :=
  match d with
  | 0 => "0" | 1 => "1" | 2 => "2" | 3 => "3" | 4 => "4" | 5 => "5"
  | 6 => "6" | 7 => "7" | 8 => "8" | 9 => "9" | 10 => "a" | 11 => "b"
  | 12 => "c" | 13 => "d" | 14 => "e" | _ => "f"
  end%N%char.

(** Digits of [n], most significant first, in front of [acc]. *)
Fixpoint hex_digits (fuel : nat) (n : N) (acc : string) : string :=
  let acc' := String (hex_digit (n mod 16)) acc in
  match fuel with
  | O => acc'
  | S f => if (n / 16 =? 0)%N then acc' else hex_digits f (n / 16) acc'
  end.

Definition hex_N (n : N) : string := hex_digits (N.size_nat n) n EmptyString.

(** [hex(z)], which is also [format(z, '#x')]. *)
Definition hex (z : Z) : string :=
  if (z <? 0)%Z then "-0x" +:+ hex_N (Z.abs_N z) else "0x" +:+ hex_N (Z.abs_N z).

Definition hex_val (c : ascii) : option Z :=
  let n := Z.of_N (N_of_ascii c) in
  if in_range 48 57 c then Some (n - 48)%Z
  else if in_range 97 102 c then Some (n - 87)%Z
  else if in_range 65 70 c then Some (n - 55)%Z
  else None.

(** Characters [int] skips around a literal in ASCII text: tab, line feed,
    vertical tab, form feed, carriage return and space. *)
Definition is_space (c : ascii) : bool :=
  in_range 9 13 c || in_range 32 32 c.

Fixpoint lstrip (s : string) : string :=
  match s with
  | String c s' => if is_space c then lstrip s' else s
  | EmptyString => EmptyString
  end.

Fixpoint rstrip (s : string) : string :=
  match s with
  | EmptyString => EmptyString
  | String c s' =>
      match rstrip s' with
      | EmptyString => if is_space c then EmptyString else String c EmptyString
      | r => String c r
      end
  end.

(** Hexadecimal digits with single underscores allowed between digits;
    [after_digit] tells whether the previous character was a digit. *)
Fixpoint int16_digits (acc : Z) (after_digit : bool) (s : string) : option Z :=
  match s with
  | EmptyString => if after_digit then Some acc else None
  | String c s' =>
      if Ascii.eqb c "_"%char then
        if after_digit then int16_digits acc false s' else None
      else
        match hex_val c with
        | Some d => int16_digits (16 * acc + d)%Z true s'
        | None => None
        end
  end.

(** After the sign: an optional [0x]/[0X] prefix, which may be followed by
    one underscore, then the digits. *)
Definition int16_unsigned (s : string) : option Z :=
  match s with
  | String "0" (String x s') =>
      if Ascii.eqb x "x"%char || Ascii.eqb x "X"%char then
        match s' with
        | String "_" s'' => int16_digits 0%Z false s''
        | _ => int16_digits 0%Z false s'
        end
      else int16_digits 0%Z false s
  | _ => int16_digits 0%Z false s
  end.

(** [int(s, 16)]; [ValueError] on anything that is not a literal. *)
Definition int16 (s : string) : result Z :=
  let body := rstrip (lstrip s) in
  let r :=
    match body with
    | String "-" t => option_map Z.opp (int16_unsigned t)
    | String "+" t => int16_unsigned t
    | _ => int16_unsigned body
    end in
  match r with
  | Some z => Ok z
  | None => Raise ValueError
  end.

(** ** The symbol model *)

(** The class of an instance: [Symbol] itself, or one of its subclasses. *)
Inductive class : Type := Symbol_base | Data | Function.

Global Instance class_eq_dec : EqDecision class.
Proof. solve_decision. Defined.

Record Symbol : Type := mkSymbol {
  ident : nat;            (* object identity *)
  cls : class;
  decl : string;
  addr : option Z
}.

Global Instance Symbol_eq_dec : EqDecision Symbol.
Proof. solve_decision. Defined.

Definition isFunction (s : Symbol) : bool := bool_decide (cls s = Function).
Definition isData (s : Symbol) : bool := bool_decide (cls s = Data).

(** The [addr] value of a symbol record of a snapshot: missing, a string or
    a number. *)
Inductive jaddr : Type := JNone | JStr (t : string) | JInt (z : Z).

(** [{'decl': ..., 'addr': ...}]. *)
Record sym_record : Type := mkRecord {
  r_decl : string;
  r_addr : jaddr
}.

(** [Symbol.__init__], run for an instance of class [k] with identity [id]. *)
Definition Symbol_init (k : class) (id : nat) (o : sym_record) : result Symbol :=
  a <-- match r_addr o with
        | JStr t => z <-- int16 t ;; Ok (Some z)
        | JInt z => Ok (Some z)
        | JNone => Ok None
        end ;;
  Ok {| ident := id; cls := k; decl := r_decl o; addr := a |}.


(** [Symbol.serialize]; [hex(None)] is a [TypeError]. *)
Definition Symbol_serialize (s : Symbol) : result sym_record :=
  match addr s with
  | Some a => Ok {| r_decl := decl s; r_addr := JStr (hex a) |}
  | None => Raise TypeError
  end.

(** [requires_reg_thunk]: [False] in [Symbol], overridden in [Function]. *)
Definition requires_reg_thunk (s : Symbol) : bool :=
  match cls s with
  | Function => bool_decide (is_Some (reg_search (decl s)))
  | _ => false
  end.

(** What the source reads from a libclang cursor: [spelling],
    [result_type.spelling], the [(type.spelling, spelling)] of each argument
    and [mangled_name]. *)
Record Cursor : Type := mkCursor {
  spelling : string;
  result_type : string;
  arguments : list (string * string);
  mangled_name : string
}.

(** ** Stable sorting, as [sorted(_, key=_)] *)

Section Sorted.
Context {K A : Type} (lt : K -> K -> bool).

(** [x] goes in front of the first element that is not below it, so equal
    keys keep their order. *)
Fixpoint insert_by (x : K * A) (l : list (K * A)) : list (K * A) :=
  match l with
  | [] => [x]
  | y :: l' => if lt (fst y) (fst x) then y :: insert_by x l' else x :: y :: l'
  end.

Definition sort_pairs (l : list (K * A)) : list (K * A) :=
  fold_right insert_by [] l.

(** The elements [l] ordered by their keys [ks]. *)
Definition sorted_with (ks : list K) (l : list A) : list A :=
  map snd (sort_pairs (combine ks l)).
End Sorted.

(** Tuples [(isinstance(s, Function), s.name)]: [False < True], then the
    names. *)
Definition key_lt (k1 k2 : bool * string) : bool :=
  if Bool.eqb (fst k1) (fst k2) then String.ltb (snd k1) (snd k2)
  else negb (fst k1).

(** ** The knowledge base *)

Record KnowledgeBase : Type := mkKB {
  symbols : list Symbol;
  object_to_symbols : gmap (option string) (list Symbol);
  symbol_to_object : gmap nat (option string);
  object_to_source : gmap (option string) string;
  name_to_addr : gmap string Z;
  expected_md5 : string;
  addr_to_symbols : gmap (option Z) Symbol;
  addr_to_symbol : option (gmap (option Z) Symbol)
}.

(** [KnowledgeBase()]; the attribute [addr_to_symbol] does not exist yet. *)
Definition KnowledgeBase_init : KnowledgeBase :=
  {| symbols := [];
     object_to_symbols := ∅;
     symbol_to_object := ∅;
     object_to_source := ∅;
     name_to_addr := ∅;
     expected_md5 := "c7869590a1c64ad034e49a5ee0c02465";
     addr_to_symbols := ∅;
     addr_to_symbol := None |}.

Definition set_symbols (l : list Symbol) (kb : KnowledgeBase) : KnowledgeBase :=
  mkKB l (object_to_symbols kb) (symbol_to_object kb) (object_to_source kb)
       (name_to_addr kb) (expected_md5 kb) (addr_to_symbols kb) (addr_to_symbol kb).

Definition set_object_to_symbols (m : gmap (option string) (list Symbol))
  (kb : KnowledgeBase) : KnowledgeBase :=
  mkKB (symbols kb) m (symbol_to_object kb) (object_to_source kb)
       (name_to_addr kb) (expected_md5 kb) (addr_to_symbols kb) (addr_to_symbol kb).

Definition set_symbol_to_object (m : gmap nat (option string))
  (kb : KnowledgeBase) : KnowledgeBase :=
  mkKB (symbols kb) (object_to_symbols kb) m (object_to_source kb)
       (name_to_addr kb) (expected_md5 kb) (addr_to_symbols kb) (addr_to_symbol kb).

Definition set_object_to_source (m : gmap (option string) string)
  (kb : KnowledgeBase) : KnowledgeBase :=
  mkKB (symbols kb) (object_to_symbols kb) (symbol_to_object kb) m
       (name_to_addr kb) (expected_md5 kb) (addr_to_symbols kb) (addr_to_symbol kb).

Definition set_name_to_addr (m : gmap string Z)
  (kb : KnowledgeBase) : KnowledgeBase :=
  mkKB (symbols kb) (object_to_symbols kb) (symbol_to_object kb) (object_to_source kb)
       m (expected_md5 kb) (addr_to_symbols kb) (addr_to_symbol kb).

Definition set_addr_to_symbol (m : gmap (option Z) Symbol)
  (kb : KnowledgeBase) : KnowledgeBase :=
  mkKB (symbols kb) (object_to_symbols kb) (symbol_to_object kb) (object_to_source kb)
       (name_to_addr kb) (expected_md5 kb) (addr_to_symbols kb) (Some m).

(** [add_symbols]. *)
Definition add_symbols (batch : list Symbol) (kb : KnowledgeBase) : KnowledgeBase :=
  set_symbols (symbols kb ++ batch) kb.

(** Reading [object_to_symbols[o]]: the [defaultdict] answers the empty list
    for a missing key (and stores it, see [touch]). *)
Definition bucket (m : gmap (option string) (list Symbol)) (o : option string)
  : list Symbol :=
  default [] (m !! o).

Definition touch (o : option string) (m : gmap (option string) (list Symbol))
  : gmap (option string) (list Symbol) :=
  <[o := bucket m o]> m.

(** [object_to_symbols[o].append(s)]. *)
Definition bucket_append (o : option string) (s : Symbol)
  (m : gmap (option string) (list Symbol)) : gmap (option string) (list Symbol) :=
  <[o := bucket m o ++ [s]]> m.

(** [sorted(n for n in object_to_symbols if n is not None)]. *)
Definition objs_sorted (m : gmap (option string) (list Symbol)) : list string :=
  let names := omap id (map fst (map_to_list m)) in
  sorted_with String.ltb names names.

(** ** Snapshots and diagnostics *)

(** One entry of [serialized_kb['objects']]: [name] (null for the
    unattributed bucket) and the optional [source], [data] and [functions]. *)
Record obj_record : Type := mkObj {
  o_name : option string;
  o_source : option string;
  o_data : option (list sym_record);
  o_functions : option (list sym_record)
}.

(** A call [log.info(fmt, *args)]. *)
Record log_record : Type := LogInfo {
  log_fmt : string;
  log_args : list Z
}.

(** The text handed to [index.parse] by [parse_string]. *)
Definition unsaved_file (d : string) : string :=
  "#include " +:+ dquote +:+ "src/types.h" +:+ dquote +:+ nl
  +:+ filter_reg_assignments d.

Definition header_banner : string :=
  "//" +:+ nl +:+ "// AUTOMATICALLY GENERATED. DO NOT EDIT." +:+ nl +:+ "//" +:+ nl
  +:+ nl +:+ "#define HFUNC __declspec(dllexport)" +:+ nl
  +:+ "#define HDATA __declspec(dllimport)" +:+ nl +:+ nl.

Definition header_footer : string :=
  nl +:+ "#undef HFUNC" +:+ nl +:+ "#undef HDATA" +:+ nl +:+ nl
  +:+ "//" +:+ nl +:+ "// AUTOMATICALLY GENERATED. DO NOT EDIT." +:+ nl +:+ "//" +:+ nl.

Definition def_banner : string :=
  "LIBRARY halo.xbe" +:+ nl +:+ "EXPORTS" +:+ nl.

Section Clang.
(** The libclang binding, [None] when [import clang.cindex] failed. *)
Variable clang : option (string -> option Cursor).

(** [Symbol.cursor]: the last child of the parsed unit.  Without libclang
    [clang.Index] is an attribute of [None]; without children [[-1]] is
    out of range. *)
Definition cursor (s : Symbol) : result Cursor :=
  match clang with
  | None => Raise AttributeError
  | Some last_child =>
      match last_child (unsaved_file (decl s)) with
      | Some c => Ok c
      | None => Raise IndexError
      end
  end.

(** [Symbol.name]. *)
Definition name (s : Symbol) : result string :=
  match clang with
  | None => Ok (decl s)
  | Some _ => c <-- cursor s ;; Ok (spelling c)
  end.

(** *** Thunk synthesis *)

(** The declaration of the pointer [<fname>__xbe]. *)
Definition new_func_decl (rtype fname reg : string) (a0 : string * string)
  (args : list (string * string)) : string :=
  rtype +:+ " (" +:+ "*" +:+ fname +:+ "__xbe)(/* " +:+ fst a0 +:+ " " +:+ snd a0
  +:+ "@<" +:+ reg +:+ ">"
  +:+ (if (1 <? length args)%nat
       then ", */ " +:+ join ", " (map (fun a => fst a +:+ " " +:+ snd a) args)
       else " */ void")
  +:+ ")".

Definition gen_thunk (s : Symbol) : result string :=
  match reg_search (decl s) with
  | None => Raise (AssertionError EmptyString)
  | Some (c, reg) =>
      let text_before := take_str c (decl s) in
      if negb (find text_before "," <? 0)%Z then
        Raise (AssertionError "Can't handle non-first register argument thunks yet")
      else if negb (0 <? find text_before "(")%Z then
        Raise (AssertionError "Can't handle return in custom register")
      else
        cur <-- cursor s ;;
        let rtype := result_type cur in
        let fname := spelling cur in
        let args := arguments cur in
        a0 <-- match args with
               | a :: _ => Ok a
               | [] => Raise IndexError
               end ;;
        let pointer := new_func_decl rtype fname reg a0 args in
        address <-- match addr s with
                    | Some a => Ok (hex a)
                    | None => Raise TypeError
                    end ;;
        Ok (pointer +:+ " = (void*" +:+ ")" +:+ address +:+ ";" +:+ nl
            +:+ "__attribute__((weak))" +:+ nl
            +:+ "__attribute__((section(" +:+ dquote +:+ "thunks" +:+ dquote +:+ ")))" +:+ nl
            +:+ drop_last (filter_reg_assignments (decl s)) +:+ " {" +:+ nl
            +:+ "  asm mov " +:+ reg +:+ ", " +:+ snd a0 +:+ ";" +:+ nl
            +:+ "  " +:+ (if String.eqb rtype "void" then EmptyString else "return ")
            +:+ fname +:+ "__xbe(" +:+ join ", " (map snd (tail args)) +:+ ");" +:+ nl
            +:+ "}" +:+ nl)
  end.

(** *** Emitters *)

Definition symbol_key (s : Symbol) : result (bool * string) :=
  n <-- name s ;; Ok (isFunction s, n).

(** [sorted(l, key=lambda s: (isinstance(s, Function), s.name))]. *)
Definition sorted_symbols (l : list Symbol) : result (list Symbol) :=
  ks <-- rmapM symbol_key l ;; Ok (sorted_with key_lt ks l).

(** What one symbol contributes to the header and to [src/thunks.c]. *)
Definition emit_symbol (s : Symbol) : result (string * string) :=
  match cls s with
  | Data => Ok ("HDATA " +:+ decl s +:+ nl, EmptyString)
  | Function =>
      t <-- (if requires_reg_thunk s then gen_thunk s else Ok EmptyString) ;;
      Ok ("HFUNC " +:+ filter_reg_assignments (decl s) +:+ nl, t)
  | Symbol_base => Ok (EmptyString, EmptyString)
  end.

(** The comment line of an object: [object_name or "?"] and
    [object_to_source.get(object_name, "?")]. *)
Definition section_comment (kb : KnowledgeBase) (o : option string) : string :=
  "// obj:" +:+ match o with
                | Some (String c n) => String c n
                | _ => "?"
                end
  +:+ " src:" +:+ default "?" (object_to_source kb !! o) +:+ nl.

Definition emit_section (kb : KnowledgeBase) (o : option string)
  : result (string * string) :=
  ss <-- sorted_symbols (bucket (object_to_symbols kb) o) ;;
  outs <-- rmapM emit_symbol ss ;;
  Ok (section_comment kb o +:+ concat_str (map fst outs) +:+ nl,
      concat_str (map snd outs)).

(** [build_header]: the bytes of [src/decl_generated.h] and of
    [src/thunks.c] once both files are closed.  (Reading the bucket of
    [None] also stores an empty list under that key when it is missing.) *)
Definition build_header (kb : KnowledgeBase) : result (string * string) :=
  secs <-- rmapM (emit_section kb)
                 (map Some (objs_sorted (object_to_symbols kb)) ++ [None]) ;;
  Ok (header_banner +:+ concat_str (map fst secs) +:+ header_footer,
      concat_str (map snd secs)).

Definition def_line (s : Symbol) : result string :=
  c <-- cursor s ;;
  Ok (tab +:+ mangled_name c +:+ (if isData s then " DATA" else EmptyString) +:+ nl).

(** [build_def]: the bytes of [src/halo.xbe.def]. *)
Definition build_def (kb : KnowledgeBase) : result string :=
  ss <-- sorted_symbols (symbols kb) ;;
  lines <-- rmapM def_line (filter (fun s => requires_reg_thunk s = false) ss) ;;
  Ok (def_banner +:+ concat_str lines).

(** *** The snapshot codec *)

(** The loop at the head of [serialize]: a symbol that is not a key of
    [symbol_to_object] joins the bucket of [None]. *)
Definition finalize_step (kb : KnowledgeBase) (s : Symbol) : KnowledgeBase :=
  if decide (is_Some (symbol_to_object kb !! ident s)) then kb
  else
    set_symbol_to_object (<[ident s := None]> (symbol_to_object kb))
      (set_object_to_symbols (bucket_append None s (object_to_symbols kb)) kb).

Definition finalize_attribution (kb : KnowledgeBase) : KnowledgeBase :=
  fold_left finalize_step (symbols kb) kb.

Definition addr_key (s : Symbol) : result Z :=
  match addr s with
  | Some a => Ok a
  | None => Raise TypeError
  end.

(** [sorted(l, key=lambda s: s.addr)]: with two elements or more every key
    is compared, and [None] does not compare. *)
Definition sorted_by_addr (l : list Symbol) : result (list Symbol) :=
  match l with
  | [] | [_] => Ok l
  | _ => ks <-- rmapM addr_key l ;; Ok (sorted_with Z.ltb ks l)
  end.

Definition nonempty {A} (l : list A) : option (list A) :=
  match l with
  | [] => None
  | _ => Some l
  end.

(** The body of the loop over objects; [None] when the object is skipped. *)
Definition serialize_object (kb : KnowledgeBase) (obj : option string)
  : result (option obj_record) :=
  let syms := bucket (object_to_symbols kb) obj in
  match syms with
  | [] => Ok None
  | _ =>
      by_addr <-- sorted_by_addr syms ;;
      data <-- rmapM Symbol_serialize (filter (fun s => cls s = Data) by_addr) ;;
      by_addr' <-- sorted_by_addr syms ;;
      funcs <-- rmapM Symbol_serialize (filter (fun s => cls s = Function) by_addr') ;;
      Ok (Some {| o_name := obj;
                  o_source := object_to_source kb !! obj;
                  o_data := nonempty data;
                  o_functions := nonempty funcs |})
  end.

(** [serialize]: the knowledge base after the call and the value [out]
    handed to [json.dump] (its ['objects'] list). *)
Definition serialize (kb : KnowledgeBase)
  : result (KnowledgeBase * list obj_record) :=
  let kb1 := finalize_attribution kb in
  entries <-- rmapM (serialize_object kb1)
                    (map Some (objs_sorted (object_to_symbols kb1)) ++ [None]) ;;
  Ok (set_object_to_symbols (touch None (object_to_symbols kb1)) kb1,
      omap id entries).

(** One instance of class [k] per record, each built from the keys of
    its record; the new objects take the identities [n], [n+1], ... *)
Fixpoint new_symbols (k : class) (n : nat) (records : list sym_record)
  : result (list Symbol) :=
  match records with
  | [] => Ok []
  | o :: rest =>
      s <-- Symbol_init k n o ;;
      ss <-- new_symbols k (S n) rest ;;
      Ok (s :: ss)
  end.

(** The body of [for s in obj_syms]. *)
Definition attribute_symbol (o : option string) (kb : KnowledgeBase) (s : Symbol)
  : result KnowledgeBase :=
  let kb1 :=
    set_symbol_to_object (<[ident s := o]> (symbol_to_object kb))
      (set_object_to_symbols (bucket_append o s (object_to_symbols kb)) kb) in
  match addr s with
  | Some a =>
      if (a =? 0)%Z then Ok kb1
      else n <-- name s ;; Ok (set_name_to_addr (<[n := a]> (name_to_addr kb1)) kb1)
  | None => Ok kb1
  end.

Fixpoint rfoldM {A B} (f : B -> A -> result B) (l : list A) (b : B) : result B :=
  match l with
  | [] => Ok b
  | x :: l' => b' <-- f b x ;; rfoldM f l' b'
  end.

(** The body of [for o in serialized_kb['objects']]; [n] is the next free
    identity. *)
Definition load_object (st : KnowledgeBase * nat) (o : obj_record)
  : result (KnowledgeBase * nat) :=
  let '(kb, n) := st in
  let kb1 :=
    match o_source o with
    | Some src => set_object_to_source (<[o_name o := src]> (object_to_source kb)) kb
    | None => kb
    end in
  funcs <-- new_symbols Function n (default [] (o_functions o)) ;;
  datas <-- new_symbols Data (n + length funcs) (default [] (o_data o)) ;;
  let obj_syms := funcs ++ datas in
  match obj_syms with
  | [] => Ok (kb1, n)
  | _ =>
      kb2 <-- rfoldM (attribute_symbol (o_name o)) obj_syms (add_symbols obj_syms kb1) ;;
      Ok (kb2, (n + length obj_syms)%nat)
  end.

(** [{s.addr: s for s in symbols}]: a later symbol replaces an earlier one
    under the same key. *)
Definition build_addr_index (l : list Symbol) : gmap (option Z) Symbol :=
  fold_left (fun m s => <[addr s := s]> m) l ∅.

(** [kb.symbol_to_object[s]] read for its truth value. *)
Definition has_truth (kb : KnowledgeBase) (s : Symbol) : result bool :=
  match symbol_to_object kb !! ident s with
  | Some (Some (String _ _)) => Ok true
  | Some _ => Ok false
  | None => Raise KeyError
  end.

(** [deserialize], from the value read by [json.load]; [load_truth] is the
    hook of [misc/load_truth.py] when that file exists. *)
Definition deserialize (load_truth : option (KnowledgeBase -> result KnowledgeBase))
  (objects : list obj_record) : result (KnowledgeBase * list log_record) :=
  st <-- rfoldM load_object objects (KnowledgeBase_init, O) ;;
  kb1 <-- match load_truth with
          | Some hook => hook (fst st)
          | None => Ok (fst st)
          end ;;
  let kb := set_addr_to_symbol (build_addr_index (symbols kb1)) kb1 in
  truths <-- rmapM (has_truth kb) (symbols kb) ;;
  let num_symbols_with_truth := length (filter (fun b => b = true) truths) in
  let num_symbols_without_truth := (length (symbols kb) - num_symbols_with_truth)%nat in
  let num_objs_with_source :=
    length (filter (fun os => is_Some (object_to_symbols kb !! fst os))
                   (map_to_list (object_to_source kb))) in
  Ok (kb,
      [ LogInfo "Loading knowledge base..." [];
        LogInfo "%d symbols were identified with objects, %d were not"
                [Z.of_nat num_symbols_with_truth; Z.of_nat num_symbols_without_truth];
        LogInfo "%d of %d object files have known source mapping"
                [Z.of_nat num_objs_with_source;
                 Z.of_nat (size (object_to_symbols kb))] ]).
End Clang.

(** ** A small translation-unit table, for the examples *)

Definition demo_units : list (string * Cursor) :=
  [ ("int Foo(int a, int b);", mkCursor "Foo" "int" [("int", "a"); ("int", "b")] "_Foo");
    ("void Bar(int x);", mkCursor "Bar" "void" [("int", "x")] "_Bar");
    ("void Baz(void);", mkCursor "Baz" "void" [] "_Baz");
    ("int counter;", mkCursor "counter" "int" [] "_counter") ].

(** A libclang stand-in that knows the declarations of [demo_units]. *)
Definition demo_clang (text : string) : option Cursor :=
  snd <$> List.find (fun p => String.eqb (unsaved_file (fst p)) text) demo_units.

(** ** Shapes of an annotated declaration *)

Definition no_annotation (d : string) : Prop := reg_search d = None.

(** A [','] occurs in the text in front of the annotation. *)
Definition comma_before_annotation (d : string) : Prop :=
  exists c reg, reg_search d = Some (c, reg) /\ (0 <= find (take_str c d) ",")%Z.

(** No ['('] occurs in the text in front of the annotation. *)
Definition annotation_before_paren (d : string) : Prop :=
  exists c reg, reg_search d = Some (c, reg) /\ (find (take_str c d) "(" < 0)%Z.

(** The text in front of the annotation begins with ['(']: its first ['(']
    is at offset 0, which [find('(') > 0] refuses as well. *)
Definition paren_at_start (d : string) : Prop :=
  exists c reg, reg_search d = Some (c, reg) /\ find (take_str c d) "(" = 0%Z.

(** The reading of thunk synthesis under which the shapes [no_annotation],
    [comma_before_annotation] and [annotation_before_paren] abort and every
    other [Function] symbol is synthesised. *)
Definition thunk_gate_is_total (clang : option (string -> option Cursor))
  (s : Symbol) : Prop :=
  cls s = Function ->
  (no_annotation (decl s) \/ comma_before_annotation (decl s)
   \/ annotation_before_paren (decl s) -> aborts (gen_thunk clang s))
  /\ (~ (no_annotation (decl s) \/ comma_before_annotation (decl s)
         \/ annotation_before_paren (decl s)) -> is_Ok (gen_thunk clang s)).

Definition thunk_attributes : string :=
  "__attribute__((weak))" +:+ nl
  +:+ "__attribute__((section(" +:+ dquote +:+ "thunks" +:+ dquote +:+ ")))" +:+ nl.

(** ** Example symbols *)

Definition demo_foo : Symbol :=
  mkSymbol 0 Function "int Foo(int a@<eax>, int b);" (Some 4096%Z).
Definition demo_bar : Symbol :=
  mkSymbol 1 Function "void Bar(int x@<ecx>);" (Some 8192%Z).
Definition demo_baz : Symbol :=
  mkSymbol 2 Function "void Baz(void);" (Some 16%Z).
Definition demo_counter : Symbol :=
  mkSymbol 3 Data "int counter;" (Some 32%Z).

(** ** Orders used in the statements *)

(** [k1] does not come after [k2]: what [sorted] guarantees of neighbours. *)
Definition key_le (k1 k2 : bool * string) : Prop := key_lt k2 k1 = false.

(** Both names resolve and are in order. *)
Definition name_le (clang : option (string -> option Cursor)) (s1 s2 : Symbol) : Prop :=
  exists n1 n2, name clang s1 = Ok n1 /\ name clang s2 = Ok n2
                /\ String.leb n1 n2 = true.

(** ** Lines of the emitted files *)

(** [line] is what the module-definition file holds for [s]: a tab, the
    mangled name, and [ DATA] after a [Data] symbol. *)
Definition is_def_line (clang : option (string -> option Cursor))
  (s : Symbol) (line : string) : Prop :=
  exists c, cursor clang s = Ok c
            /\ line = tab +:+ mangled_name c
                      +:+ (if decide (cls s = Data) then " DATA" else EmptyString) +:+ nl.

(** The declaration line of [s] in the header; a plain [Symbol] has none. *)
Definition header_line (s : Symbol) : string :=
  match cls s with
  | Data => "HDATA " +:+ decl s +:+ nl
  | Function => "HFUNC " +:+ filter_reg_assignments (decl s) +:+ nl
  | Symbol_base => EmptyString
  end.

(** The text of one object section of the header. *)
Definition section_text (kb : KnowledgeBase) (sec : option string * list Symbol) : string :=
  section_comment kb (fst sec) +:+ concat_str (map header_line (snd sec)) +:+ nl.

(** A [Function] whose declaration carries a register annotation. *)
Definition annotated_Function (s : Symbol) : Prop :=
  cls s = Function /\ is_Some (reg_search (decl s)).

(** Non-functions first, then the functions, each run in the order of the
    resolved names. *)
Definition data_then_functions (clang : option (string -> option Cursor))
  (ss : list Symbol) : Prop :=
  exists ds fs, ss = ds ++ fs
    /\ Forall (fun s => cls s <> Function) ds
    /\ Forall (fun s => cls s = Function) fs
    /\ StronglySorted (name_le clang) ds
    /\ StronglySorted (name_le clang) fs.

Definition demo_kb : KnowledgeBase :=
  add_symbols [demo_foo; demo_bar; demo_baz; demo_counter] KnowledgeBase_init.

(** ** Attribution *)

(** Every symbol held by some bucket, bucket after bucket. *)
Definition bucketed (m : gmap (option string) (list Symbol)) : list Symbol :=
  concat (map snd (map_to_list m)).

(** [s in symbol_to_object]. *)
Definition attributed (kb : KnowledgeBase) (s : Symbol) : Prop :=
  is_Some (symbol_to_object kb !! ident s).

(** The state the attribution loop starts from: [symbols] lists no object
    twice, and the buckets hold exactly the symbols that are keys of
    [symbol_to_object], each once. *)
Definition attribution_consistent (kb : KnowledgeBase) : Prop :=
  NoDup (map ident (symbols kb))
  /\ bucketed (object_to_symbols kb) ≡ₚ filter (attributed kb) (symbols kb).

(** The number of symbols over all buckets. *)
Definition bucket_total (m : gmap (option string) (list Symbol)) : nat :=
  sum_list (map (fun ol => length (snd ol)) (map_to_list m)).

(** A knowledge base with one attributed object and two symbols that are not
    attributed yet. *)
Definition demo_attributed : KnowledgeBase :=
  mkKB [demo_foo; demo_bar; demo_baz; demo_counter]
       {[ Some "a.obj" := [demo_baz; demo_counter] ]}
       {[ 2%nat := Some "a.obj"; 3%nat := Some "a.obj" ]}
       {[ Some "a.obj" := "a.c" ]}
       ∅ "c7869590a1c64ad034e49a5ee0c02465" ∅ None.

(** ** Address collisions *)




Definition demo_snapshot_distinct : list obj_record :=
  [ mkObj (Some "a.obj") None None
      (Some [ mkRecord "void Baz(void);" (JStr "0x10");
              mkRecord "int Foo(int a@<eax>, int b);" (JStr "0x1000") ]) ].

(** ** Round trips *)

(** What a snapshot is to keep of a symbol: its class, declaration and
    address, and the object it is attributed to ([None] for the unattributed
    bucket, which is also where a symbol without attribution goes). *)
Definition facts (kb : KnowledgeBase) (s : Symbol)
  : class * string * option Z * option string :=
  (cls s, decl s, addr s, default None (symbol_to_object kb !! ident s)).

Definition contents (kb : KnowledgeBase) : list (class * string * option Z * option string) :=
  map (facts kb) (symbols kb).

(** Saving [kb] and loading the result gives the same symbols with the same
    addresses and attributions, and the same source mapping. *)
Definition roundtrip_holds (clang : option (string -> option Cursor))
  (kb : KnowledgeBase) : Prop :=
  exists kb1 out kb2 lg,
    serialize kb = Ok (kb1, out)
    /\ deserialize clang None out = Ok (kb2, lg)
    /\ contents kb2 ≡ₚ contents kb
    /\ object_to_source kb2 = object_to_source kb.

(** Every symbol of a bucket is attributed to the object of that bucket. *)
Definition buckets_attributed (kb : KnowledgeBase) : Prop :=
  forall o l s, object_to_symbols kb !! o = Some l -> s ∈ l ->
                symbol_to_object kb !! ident s = Some o.

(** A knowledge base that knows the source of an object and none of its
    symbols, as [deserialize] builds it from an entry with a [source] and no
    symbol. *)
Definition demo_sources_only : KnowledgeBase :=
  set_object_to_source {[ Some "a.obj" := "a.c" ]} KnowledgeBase_init.

(** A function that has not been located yet. *)
Definition demo_unlocated : KnowledgeBase :=
  add_symbols [mkSymbol 0 Function "void Baz(void);" None] KnowledgeBase_init.

(** The record [Symbol.serialize] writes for a symbol with an address. *)
Definition record_of (s : Symbol) : sym_record :=
  {| r_decl := decl s; r_addr := JStr (hex (default 0%Z (addr s))) |}.

(** The objects [deserialize] builds from the records of [l]: class [k] and
    the identities from [n] on. *)
Fixpoint renumber (k : class) (n : nat) (l : list Symbol) : list Symbol :=
  match l with
  | [] => []
  | s :: l' => mkSymbol n k (decl s) (addr s) :: renumber k (S n) l'
  end.

(** The facts of a [Data] or [Function] symbol: those a snapshot records. *)
Definition kept (f : class * string * option Z * option string) : Prop :=
  fst (fst (fst f)) <> Symbol_base.

Global Instance kept_dec f : Decision (kept f).
Proof. unfold kept. apply _. Defined.

(** ** Auxiliary notions of the proofs *)

(** Every character of [s] passes [P]. *)
Fixpoint str_all (P : ascii -> bool) (s : string) : bool :=
  match s with
  | EmptyString => true
  | String c s' => P c && str_all P s'
  end.

Definition is_lower_hex (c : ascii) : bool :=
  in_range 48 57 c || in_range 97 102 c.

(** [p] does not come after [q] in the order of the keys. *)
Definition pair_le {K A : Type} (lt : K -> K -> bool) (p q : K * A) : Prop :=
  lt (fst q) (fst p) = false.

(** The state of the loading loop: the identities from [n] on are free, and
    every symbol loaded so far is attributed. *)
Definition loading (st : KnowledgeBase * nat) : Prop :=
  (forall i, (snd st <= i)%nat -> symbol_to_object (fst st) !! i = None)
  /\ Forall (attributed (fst st)) (symbols (fst st)).

(** What the loading loop maintains: the identities from [n] on are free, no
    object is listed twice, every symbol is attributed, the buckets hold the
    symbols, and each bucket holds symbols attributed to its object. *)
Definition loaded (st : KnowledgeBase * nat) : Prop :=
  (forall i, (snd st <= i)%nat -> symbol_to_object (fst st) !! i = None)
  /\ NoDup (map ident (symbols (fst st)))
  /\ Forall (attributed (fst st)) (symbols (fst st))
  /\ bucketed (object_to_symbols (fst st)) ≡ₚ symbols (fst st)
  /\ buckets_attributed (fst st).

(** Two symbols whose sort keys resolve and are in order. *)
Definition key_ordered (clang : option (string -> option Cursor)) (x y : Symbol) : Prop :=
  exists kx ky, symbol_key clang x = Ok kx /\ symbol_key clang y = Ok ky
                /\ key_lt ky kx = false.

(** [demo_kb] with its first two symbols in the other order. *)
Definition demo_kb_swapped : KnowledgeBase :=
  add_symbols [demo_bar; demo_foo; demo_baz; demo_counter] KnowledgeBase_init.

(** Both addresses are known and in order. *)
Definition addr_le (s1 s2 : Symbol) : Prop :=
  exists a1 a2, addr s1 = Some a1 /\ addr s2 = Some a2 /\ (a1 <= a2)%Z.

(** The entry [e] of a snapshot as [serialize] writes it for the bucket [l]
    of its object: the [Data] symbols and the [Function] symbols of [l], each
    list by ascending address, and neither key present with an empty list. *)
Definition entry_of_bucket (e : obj_record) (l : list Symbol) : Prop :=
  exists ds fs,
    ds ≡ₚ filter (fun s => cls s = Data) l
    /\ fs ≡ₚ filter (fun s => cls s = Function) l
    /\ StronglySorted addr_le ds /\ StronglySorted addr_le fs
    /\ o_data e = nonempty (map record_of ds)
    /\ o_functions e = nonempty (map record_of fs)
    /\ o_data e <> Some [] /\ o_functions e <> Some [].

(** The records of an entry in the order [deserialize] reads them, each with
    the class it is read as: the functions, then the data. *)
Definition tagged_records (o : obj_record) : list (class * sym_record) :=
  map (pair Function) (default [] (o_functions o))
  ++ map (pair Data) (default [] (o_data o)).

(** [s] is the object the constructor of class [fst kr] builds from the
    record [snd kr]. *)
Definition built_from (s : Symbol) (kr : class * sym_record) : Prop :=
  Symbol_init (fst kr) (ident s) (snd kr) = Ok s.

(** [main]: [deserialize], then [serialize]; the snapshot written and the
    diagnostics of the load. *)
Definition main (clang : option (string -> option Cursor))
  (load_truth : option (KnowledgeBase -> result KnowledgeBase))
  (objects : list obj_record) : result (list obj_record * list log_record) :=
  st <-- deserialize clang load_truth objects ;;
  so <-- serialize (fst st) ;;
  Ok (snd so, snd st).

(** A snapshot with a record that has no address. *)
Definition demo_snapshot_unlocated : list obj_record :=
  [ mkObj (Some "a.obj") (Some "a.c")
      (Some [ mkRecord "int counter;" JNone ])
      (Some [ mkRecord "void Baz(void);" (JStr "0x10") ]) ].

(** Every entry of [name_to_addr] is the name and the address of a symbol
    whose address is known and is not zero. *)
Definition name_index_sound (clang : option (string -> option Cursor))
  (kb : KnowledgeBase) : Prop :=
  forall n a, name_to_addr kb !! n = Some a ->
    exists s, s ∈ symbols kb /\ name clang s = Ok n /\ addr s = Some a /\ a <> 0%Z.

(** The name of [s] resolves whenever [deserialize] reads it: [s.name] is
    evaluated only under [if s.addr], that is for a known address that is not
    zero. *)
Definition name_needed (clang : option (string -> option Cursor)) (s : Symbol) : Prop :=
  forall a, addr s = Some a -> a <> 0%Z -> is_Ok (name clang s).

(** The bucket [b] that loading builds from the entry written for the bucket
    [l]: the functions of [l], then its data, each in the order of
    [sorted_by_addr] and under new identities. *)
Definition reloaded_bucket (l b : list Symbol) : Prop :=
  exists l' n n',
    sorted_by_addr l = Ok l'
    /\ b = renumber Function n (filter (fun s => cls s = Function) l')
           ++ renumber Data n' (filter (fun s => cls s = Data) l').

(** Reassociate string concatenations to the right, by the lemma [assoc]. *)
Ltac reassoc_with assoc :=
  repeat match goal with
         | |- context [(?a +:+ ?b) +:+ ?c] => rewrite (assoc a b c)
         end.

(** * Properties *)

(** ** The model on examples *)

Example reg_search_first :
  reg_search "int Foo(int a@<eax>, int b);" = Some (13%nat, "eax").
Proof. reflexivity. Qed.

Example reg_search_needs_name : reg_search "int Foo(int a@<>, int b);" = None.
Proof. reflexivity. Qed.

Example filter_reg_assignments_all :
  filter_reg_assignments "void f(int a@<eax>, int b@<ebx>);" = "void f(int a, int b);".
Proof. reflexivity. Qed.

Example hex_4096 : hex 4096%Z = "0x1000".
Proof. reflexivity. Qed.

Example hex_zero : hex 0%Z = "0x0".
Proof. reflexivity. Qed.

Example hex_negative : hex (-255)%Z = "-0xff".
Proof. reflexivity. Qed.

Example int16_examples :
  int16 "0x1000" = Ok 4096%Z /\ int16 " -0XfF " = Ok (-255)%Z /\ int16 "1_0" = Ok 16%Z
  /\ int16 "0x" = Raise ValueError /\ int16 "0x_1" = Ok 1%Z /\ int16 "_1" = Raise ValueError
  /\ int16 "1__0" = Raise ValueError /\ int16 "g" = Raise ValueError.
Proof. repeat split; reflexivity. Qed.


(** ** Hexadecimal rendering and parsing *)

Lemma hex_digit_cases (P : N -> Prop) :
  P 0%N -> P 1%N -> P 2%N -> P 3%N -> P 4%N -> P 5%N -> P 6%N -> P 7%N ->
  P 8%N -> P 9%N -> P 10%N -> P 11%N -> P 12%N -> P 13%N -> P 14%N -> P 15%N ->
  forall d, (d < 16)%N -> P d.
Proof.
  intros; destruct d as [|p]; [assumption|].
  do 4 (destruct p as [p|p|]; try assumption); lia.
Qed.

Lemma hex_val_digit d : (d < 16)%N -> hex_val (hex_digit d) = Some (Z.of_N d).
Proof. revert d; apply hex_digit_cases; reflexivity. Qed.

Lemma hex_digit_lower d : (d < 16)%N -> is_lower_hex (hex_digit d) = true.
Proof. revert d; apply hex_digit_cases; reflexivity. Qed.

Lemma lower_hex_not_underscore c :
  is_lower_hex c = true -> Ascii.eqb c "_"%char = false.
Proof.
  unfold is_lower_hex, in_range; intros H.
  destruct (Ascii.eqb_spec c "_"%char) as [->|]; [discriminate H | reflexivity].
Qed.

Lemma lower_hex_not_space c : is_lower_hex c = true -> is_space c = false.
Proof.
  unfold is_lower_hex, is_space, in_range.
  generalize (N_of_ascii c); intros n H.
  rewrite orb_true_iff, !andb_true_iff, !N.leb_le in H.
  rewrite orb_false_iff, !andb_false_iff, !N.leb_gt; lia.
Qed.

Lemma mod16_lt (n : N) : (n mod 16 < 16)%N.
Proof. apply N.mod_lt; discriminate. Qed.

Lemma hex_digits_all (P : ascii -> bool) fuel : forall n acc,
  (forall d, (d < 16)%N -> P (hex_digit d) = true) ->
  str_all P acc = true -> str_all P (hex_digits fuel n acc) = true.
Proof.
  induction fuel as [|f IH]; intros n acc HP Hacc; simpl.
  - rewrite HP by apply mod16_lt; assumption.
  - destruct (n / 16 =? 0)%N.
    + simpl; rewrite HP by apply mod16_lt; assumption.
    + apply IH; [assumption|]; simpl; rewrite HP by apply mod16_lt; assumption.
Qed.

Lemma hex_digits_head fuel : forall n acc,
  exists d r, (d < 16)%N /\ hex_digits fuel n acc = String (hex_digit d) r.
Proof.
  induction fuel as [|f IH]; intros n acc; simpl.
  - exists (n mod 16)%N, acc; split; [apply mod16_lt | reflexivity].
  - destruct (n / 16 =? 0)%N.
    + exists (n mod 16)%N, acc; split; [apply mod16_lt | reflexivity].
    + apply IH.
Qed.

Lemma int16_digits_step a b d rest : (d < 16)%N ->
  int16_digits a b (String (hex_digit d) rest)
  = int16_digits (16 * a + Z.of_N d)%Z true rest.
Proof.
  intros Hd; simpl.
  rewrite (lower_hex_not_underscore _ (hex_digit_lower d Hd)).
  rewrite (hex_val_digit d Hd); reflexivity.
Qed.

(** Reading back the digits written by [hex_digits]. *)
Lemma int16_digits_hex_digits fuel : forall n rest,
  (n < 16 ^ N.of_nat (S fuel))%N ->
  exists k : Z, (0 <= k)%Z /\ forall a b,
    int16_digits a b (hex_digits fuel n rest)
    = int16_digits (a * 16 ^ k + Z.of_N n)%Z true rest.
Proof.
  assert (Hone : forall n rest, (n < 16)%N ->
    exists k : Z, (0 <= k)%Z /\ forall a b,
      int16_digits a b (String (hex_digit (n mod 16)) rest)
      = int16_digits (a * 16 ^ k + Z.of_N n)%Z true rest).
  { intros n rest Hn; exists 1%Z; split; [lia|]; intros a b.
    rewrite N.mod_small by assumption.
    rewrite int16_digits_step by assumption.
    f_equal; lia. }
  induction fuel as [|f IH]; intros n rest Hn.
  - apply Hone; simpl in Hn; lia.
  - cbn [hex_digits].
    destruct (N.eqb_spec (n / 16) 0) as [Hq|Hq].
    + apply Hone.
      destruct (N.lt_ge_cases n 16) as [|Hge]; [assumption|].
      assert (1 <= n / 16)%N by (apply N.div_le_lower_bound; lia). lia.
    + destruct (IH (n / 16)%N (String (hex_digit (n mod 16)) rest)) as (k & Hk & Heq).
      { apply N.Div0.div_lt_upper_bound.
        rewrite Nat2N.inj_succ, N.pow_succ_r in Hn by lia. exact Hn. }
      exists (k + 1)%Z; split; [lia|]; intros a b.
      rewrite Heq, int16_digits_step by apply mod16_lt.
      f_equal.
      rewrite Z.pow_add_r, Z.pow_1_r by lia.
      pose proof (N.div_mod n 16 ltac:(discriminate)) as Hdm.
      assert (Z.of_N n = 16 * Z.of_N (n / 16) + Z.of_N (n mod 16))%Z by lia.
      lia.
Qed.

Lemma size_nat_bound (n : N) : (n < 16 ^ N.of_nat (S (N.size_nat n)))%N.
Proof.
  destruct n as [|p]; [reflexivity|].
  assert (H : (N.pos p < 2 ^ N.of_nat (N.size_nat (N.pos p)))%N).
  { simpl. induction p as [p IH|p IH|]; cbn [Pos.size_nat].
    - rewrite Nat2N.inj_succ, N.pow_succ_r by lia. lia.
    - rewrite Nat2N.inj_succ, N.pow_succ_r by lia. lia.
    - reflexivity. }
  eapply N.lt_le_trans; [exact H|].
  transitivity (16 ^ N.of_nat (N.size_nat (N.pos p)))%N.
  - apply N.pow_le_mono_l; lia.
  - apply N.pow_le_mono_r; lia.
Qed.

Lemma rstrip_no_space s : str_all (fun c => negb (is_space c)) s = true -> rstrip s = s.
Proof.
  induction s as [|c s IH]; [reflexivity|]; simpl.
  intros H; apply andb_true_iff in H as [Hc Hs].
  rewrite (IH Hs). destruct s; [|reflexivity].
  apply negb_true_iff in Hc; rewrite Hc; reflexivity.
Qed.

Lemma int16_unsigned_0x s c r :
  s = String c r -> Ascii.eqb c "_"%char = false ->
  int16_unsigned (String "0" (String "x" s)) = int16_digits 0 false s.
Proof.
  intros -> H. unfold int16_unsigned.
  destruct c as [[] [] [] [] [] [] [] []]; try reflexivity; discriminate H.
Qed.

(** [int(hex(z), 16) == z]. *)
Lemma int16_hex (z : Z) : int16 (hex z) = Ok z.
Proof.
  pose proof (hex_digits_head (N.size_nat (Z.abs_N z)) (Z.abs_N z) EmptyString)
    as (d & r & Hd & Hhead).
  destruct (int16_digits_hex_digits (N.size_nat (Z.abs_N z)) (Z.abs_N z) EmptyString
              (size_nat_bound _)) as (k & Hk & Hread).
  assert (Hns : str_all (fun c => negb (is_space c)) (hex_N (Z.abs_N z)) = true).
  { apply hex_digits_all; [|reflexivity].
    intros d' Hd'; apply negb_true_iff, lower_hex_not_space, hex_digit_lower, Hd'. }
  assert (Hu : int16_unsigned ("0x" +:+ hex_N (Z.abs_N z)) = Some (Z.of_N (Z.abs_N z))).
  { change ("0x" +:+ hex_N (Z.abs_N z))
      with (String "0" (String "x" (hex_N (Z.abs_N z)))).
    unfold hex_N in *.
    rewrite (int16_unsigned_0x _ _ _ Hhead)
      by apply lower_hex_not_underscore, hex_digit_lower, Hd.
    rewrite Hread. simpl. reflexivity. }
  unfold int16, hex.
  destruct (Z.ltb_spec z 0) as [Hneg|Hpos].
  - cbn [String.append lstrip is_space].
    change (lstrip _) with (String "-" ("0x" +:+ hex_N (Z.abs_N z))).
    rewrite rstrip_no_space by (simpl; exact Hns).
    rewrite Hu; simpl. f_equal; lia.
  - change (lstrip _) with ("0x" +:+ hex_N (Z.abs_N z)).
    rewrite rstrip_no_space by (simpl; exact Hns).
    change (match "0x" +:+ hex_N (Z.abs_N z) with
            | String "-"%char t => option_map Z.opp (int16_unsigned t)
            | String "+"%char t => int16_unsigned t
            | _ => int16_unsigned ("0x" +:+ hex_N (Z.abs_N z))
            end) with (int16_unsigned ("0x" +:+ hex_N (Z.abs_N z))).
    rewrite Hu. f_equal; lia.
Qed.

(** ** The symbol model *)

(** C8.  [Symbol.serialize] is defined exactly on symbols with an address: with
    address [a] it returns the record holding the declaration and [hex a], a
    hexadecimal literal that reads back as [a]; without an address it raises
    ([hex(None)] is a [TypeError]) and produces no record. *)
Theorem Symbol_serialize_address (s : Symbol) :
  match addr s with
  | Some a =>
      Symbol_serialize s = Ok {| r_decl := decl s; r_addr := JStr (hex a) |}
      /\ int16 (hex a) = Ok a
  | None =>
      Symbol_serialize s = Raise TypeError /\ ~ is_Ok (Symbol_serialize s)
  end.
Proof.
  unfold Symbol_serialize. destruct (addr s) as [a|].
  - split; [reflexivity | apply int16_hex].
  - split; [reflexivity | intros [r Hr]; discriminate Hr].
Qed.

(** C9.  A symbol that is not a [Function] (a [Data] symbol or a plain
    [Symbol]) never requires a register thunk, whatever its declaration says:
    the header emitter sends nothing of it to the thunk file and the
    module-definition filter keeps it. *)
Theorem requires_reg_thunk_only_Function clang (s : Symbol) :
  cls s <> Function ->
  requires_reg_thunk s = false
  /\ (exists line, emit_symbol clang s = Ok (line, EmptyString))
  /\ (forall l : list Symbol,
        s ∈ l -> s ∈ filter (fun s => requires_reg_thunk s = false) l).
Proof.
  intros Hne.
  assert (Hreq : requires_reg_thunk s = false).
  { unfold requires_reg_thunk. destruct (cls s); congruence. }
  split; [exact Hreq|]. split.
  - unfold emit_symbol. destruct (cls s); [eauto | eauto | congruence].
  - intros l Hin. apply list_elem_of_filter; split; assumption.
Qed.

Lemma requires_reg_thunk_only_Function_witness :
  reg_search "int counter@<eax>;" = Some (11%nat, "eax")
  /\ requires_reg_thunk (mkSymbol 0 Data "int counter@<eax>;" None) = false.
Proof.
  split; [reflexivity|].
  apply (requires_reg_thunk_only_Function None
           (mkSymbol 0 Data "int counter@<eax>;" None)).
  discriminate.
Defined.



(** ** Thunk synthesis *)

Lemma append_assoc (a b c : string) : (a +:+ b) +:+ c = a +:+ b +:+ c.
Proof.
  induction a as [|x a IH]; [reflexivity|].
  change (String x ((a +:+ b) +:+ c) = String x (a +:+ b +:+ c)).
  f_equal; exact IH.
Qed.

(** The three assertions of [gen_thunk]. *)
Lemma gen_thunk_asserts clang (s : Symbol) :
  no_annotation (decl s) \/ comma_before_annotation (decl s)
  \/ annotation_before_paren (decl s) ->
  exists msg, gen_thunk clang s = Raise (AssertionError msg).
Proof.
  unfold gen_thunk.
  intros [Hno | [(c & reg & Hs & Hc) | (c & reg & Hs & Hp)]].
  - rewrite Hno. eauto.
  - rewrite Hs. destruct (Z.ltb_spec (find (take_str c (decl s)) ",") 0); [lia|].
    simpl. eauto.
  - rewrite Hs. destruct (find (take_str c (decl s)) "," <? 0)%Z; simpl; [|eauto].
    destruct (Z.ltb_spec 0 (find (take_str c (decl s)) "(")); [lia|].
    simpl. eauto.
Qed.

(** Past the assertions [gen_thunk] is its template. *)
Lemma gen_thunk_body clang (s : Symbol) c reg cur a0 a :
  reg_search (decl s) = Some (c, reg) ->
  (find (take_str c (decl s)) "," < 0)%Z ->
  (0 < find (take_str c (decl s)) "(")%Z ->
  cursor clang s = Ok cur ->
  head (arguments cur) = Some a0 ->
  addr s = Some a ->
  gen_thunk clang s =
  Ok (new_func_decl (result_type cur) (spelling cur) reg a0 (arguments cur)
      +:+ " = (void*" +:+ ")" +:+ hex a +:+ ";" +:+ nl
      +:+ "__attribute__((weak))" +:+ nl
      +:+ "__attribute__((section(" +:+ dquote +:+ "thunks" +:+ dquote +:+ ")))" +:+ nl
      +:+ drop_last (filter_reg_assignments (decl s)) +:+ " {" +:+ nl
      +:+ "  asm mov " +:+ reg +:+ ", " +:+ snd a0 +:+ ";" +:+ nl
      +:+ "  " +:+ (if String.eqb (result_type cur) "void" then EmptyString else "return ")
      +:+ spelling cur +:+ "__xbe(" +:+ join ", " (map snd (tail (arguments cur))) +:+ ");" +:+ nl
      +:+ "}" +:+ nl).
Proof.
  intros Hs Hc Hp Hcur Hargs Ha. unfold gen_thunk.
  rewrite Hs.
  destruct (Z.ltb_spec (find (take_str c (decl s)) ",") 0); [|lia].
  destruct (Z.ltb_spec 0 (find (take_str c (decl s)) "(")); [|lia].
  cbn [negb]. rewrite Hcur, Ha. cbn [rbind].
  destruct (arguments cur) as [|x args]; [discriminate Hargs|].
  injection Hargs as ->. reflexivity.
Qed.

(** C2 (as amended).  [gen_thunk] stops on an assertion when the declaration
    has no annotation, when a [','] occurs in the text in front of the
    annotation, when no ['('] occurs in that text, or when that text begins
    with ['('].  When the first ['('] of the text in front of the annotation
    is past its first character, no [','] occurs in that text, libclang
    resolves the declaration to a function with at least one parameter and
    the address is known, it returns a thunk. *)
Theorem gen_thunk_preconditions clang (s : Symbol) :
  (no_annotation (decl s) \/ comma_before_annotation (decl s)
   \/ annotation_before_paren (decl s) \/ paren_at_start (decl s) ->
   exists msg, gen_thunk clang s = Raise (AssertionError msg))
  /\ (forall c reg cur a,
        reg_search (decl s) = Some (c, reg) ->
        (find (take_str c (decl s)) "," < 0)%Z ->
        (0 < find (take_str c (decl s)) "(")%Z ->
        cursor clang s = Ok cur ->
        arguments cur <> [] ->
        addr s = Some a ->
        is_Ok (gen_thunk clang s)).
Proof.
  split.
  - intros [Hno | [Hc | [Hp | (c & reg & Hs & H0)]]].
    + apply gen_thunk_asserts. left. exact Hno.
    + apply gen_thunk_asserts. right. left. exact Hc.
    + apply gen_thunk_asserts. right. right. exact Hp.
    + unfold gen_thunk. rewrite Hs, H0.
      destruct (find (take_str c (decl s)) "," <? 0)%Z; simpl; eauto.
  - intros c reg cur a Hs Hc Hp Hcur Hargs Ha.
    destruct (arguments cur) as [|a0 rest] eqn:Hr; [congruence|].
    eexists. eapply gen_thunk_body; eauto. rewrite Hr; reflexivity.
Qed.

Lemma gen_thunk_preconditions_witness :
  is_Ok (gen_thunk (Some demo_clang)
           (mkSymbol 0 Function "int Foo(int a@<eax>, int b);" (Some 4096%Z)))
  /\ (exists msg,
        gen_thunk (Some demo_clang)
          (mkSymbol 1 Function "void Bar(int x, int y@<ecx>);" (Some 8192%Z))
        = Raise (AssertionError msg))
  /\ (exists msg,
        gen_thunk (Some demo_clang)
          (mkSymbol 2 Function "(f)(int a@<eax>);" (Some 16%Z))
        = Raise (AssertionError msg)).
Proof.
  split; [|split].
  - apply (proj2 (gen_thunk_preconditions (Some demo_clang)
                    (mkSymbol 0 Function "int Foo(int a@<eax>, int b);" (Some 4096%Z)))
             13%nat "eax"
             (mkCursor "Foo" "int" [("int", "a"); ("int", "b")] "_Foo") 4096%Z);
      [reflexivity | reflexivity | reflexivity | reflexivity | discriminate | reflexivity].
  - apply (proj1 (gen_thunk_preconditions (Some demo_clang)
                    (mkSymbol 1 Function "void Bar(int x, int y@<ecx>);" (Some 8192%Z)))).
    right; left. exists 21%nat, "ecx". split; [reflexivity | simpl; lia].
  - apply (proj1 (gen_thunk_preconditions (Some demo_clang)
                    (mkSymbol 2 Function "(f)(int a@<eax>);" (Some 16%Z)))).
    right; right; right. exists 9%nat, "eax". split; reflexivity.
Defined.

(** A first-parameter annotation on a [Function] without an address: none of
    the three shapes, and yet no thunk ([format(None, '#x')] is a
    [TypeError]). *)
Lemma thunk_gate_not_total :
  ~ thunk_gate_is_total (Some demo_clang)
      (mkSymbol 0 Function "int Foo(int a@<eax>, int b);" None).
Proof.
  intros H. destruct (H eq_refl) as [_ Hok].
  destruct Hok as [t Ht]; [|discriminate Ht].
  intros [Hno | [(c & reg & Hs & Hc) | (c & reg & Hs & Hp)]].
  - discriminate Hno.
  - vm_compute in Hs. injection Hs as <- <-. vm_compute in Hc. exact (Hc eq_refl).
  - vm_compute in Hs. injection Hs as <- <-. vm_compute in Hp. discriminate Hp.
Qed.

(** C3.  For an annotation on the first parameter and a known address [a], the
    thunk is: the pointer [<fname>__xbe] initialised to [hex a] cast to a pointer;
    the two attributes; the annotation-free signature; [asm mov] of the first
    parameter into the bound register; and the call of [<fname>__xbe] on the
    remaining parameters in order, after [return] unless the result type is
    [void]. *)
Theorem gen_thunk_shape clang (s : Symbol) c reg cur t0 p0 rest a :
  reg_search (decl s) = Some (c, reg) ->
  (find (take_str c (decl s)) "," < 0)%Z ->
  (0 < find (take_str c (decl s)) "(")%Z ->
  cursor clang s = Ok cur ->
  arguments cur = (t0, p0) :: rest ->
  addr s = Some a ->
  exists params,
    gen_thunk clang s =
    Ok ((result_type cur +:+ " (" +:+ "*" +:+ spelling cur +:+ "__xbe)(" +:+ params +:+ ")"
         +:+ " = (void*" +:+ ")" +:+ hex a +:+ ";" +:+ nl)
        +:+ thunk_attributes
        +:+ (drop_last (filter_reg_assignments (decl s)) +:+ " {" +:+ nl)
        +:+ ("  asm mov " +:+ reg +:+ ", " +:+ p0 +:+ ";" +:+ nl)
        +:+ ("  " +:+ (if decide (result_type cur = "void") then EmptyString else "return ")
             +:+ spelling cur +:+ "__xbe(" +:+ join ", " (map snd rest) +:+ ");" +:+ nl)
        +:+ "}" +:+ nl)
    /\ int16 (hex a) = Ok a.
Proof.
  intros Hs Hc Hp Hcur Hargs Ha.
  exists ("/* " +:+ t0 +:+ " " +:+ p0 +:+ "@<" +:+ reg +:+ ">"
          +:+ (if (1 <? length (arguments cur))%nat
               then ", */ " +:+ join ", " (map (fun a => fst a +:+ " " +:+ snd a)
                                              (arguments cur))
               else " */ void")).
  split; [|apply int16_hex].
  rewrite (gen_thunk_body clang s c reg cur (t0, p0) a Hs Hc Hp Hcur)
    by first [exact Ha | rewrite Hargs; reflexivity].
  rewrite Hargs. unfold new_func_decl, thunk_attributes. cbn [tail snd fst].
  assert (Hv : (if String.eqb (result_type cur) "void" then EmptyString else "return ")
               = (if decide (result_type cur = "void") then EmptyString else "return ")).
  { destruct (String.eqb_spec (result_type cur) "void"), (decide (result_type cur = "void"));
      congruence. }
  rewrite Hv. apply f_equal.
  reassoc_with append_assoc. reflexivity.
Qed.

Lemma gen_thunk_shape_witness : is_Ok (gen_thunk (Some demo_clang) demo_foo).
Proof.
  destruct (gen_thunk_shape (Some demo_clang) demo_foo 13%nat "eax"
              (mkCursor "Foo" "int" [("int", "a"); ("int", "b")] "_Foo")
              "int" "a" [("int", "b")] 4096%Z
              eq_refl eq_refl eq_refl eq_refl eq_refl eq_refl) as (params & Hthunk & _).
  eexists; exact Hthunk.
Defined.

(** ** The error monad *)

Lemma rmapM_Ok {A B} (f : A -> result B) (l : list A) (ys : list B) :
  rmapM f l = Ok ys <-> Forall2 (fun x y => f x = Ok y) l ys.
Proof.
  revert ys; induction l as [|x l IH]; intros ys; simpl.
  - split; [intros [= <-]; constructor | intros H; inversion H; reflexivity].
  - destruct (f x) as [y|e] eqn:Hx; simpl.
    + destruct (rmapM f l) as [ys'|e] eqn:Hl; simpl.
      * split.
        -- intros [= <-]. constructor; [assumption | apply IH; reflexivity].
        -- intros H; inversion H as [|? y' ? ys'' Hy Hys]; subst.
           apply IH in Hys. congruence.
      * split; [discriminate|].
        intros H; inversion H as [|? y' ? ys'' Hy Hys]; subst.
        apply IH in Hys. discriminate Hys.
    + split; [discriminate|].
      intros H; inversion H; congruence.
Qed.

Lemma rmapM_total {A B} (f : A -> result B) (l : list A) :
  Forall (fun x => is_Ok (f x)) l -> is_Ok (rmapM f l).
Proof.
  induction 1 as [|x l [y Hy] _ [ys Hys]]; simpl.
  - eexists; reflexivity.
  - rewrite Hy, Hys. eexists; reflexivity.
Qed.

Lemma rmapM_map {A B} (f : A -> B) (l : list A) :
  rmapM (fun x => Ok (f x)) l = Ok (map f l).
Proof. induction l as [|x l IH]; simpl; [|rewrite IH]; reflexivity. Qed.

(** ** Sorting *)

Section SortedFacts.
Context {K A : Type} (lt : K -> K -> bool).
Hypothesis lt_asym : forall a b, lt a b = true -> lt b a = false.
Hypothesis le_trans : forall a b c, lt b a = false -> lt c b = false -> lt c a = false.

Lemma insert_by_perm (x : K * A) l : insert_by lt x l ≡ₚ x :: l.
Proof.
  induction l as [|y l IH]; simpl; [reflexivity|].
  destruct (lt (fst y) (fst x)); [|reflexivity].
  rewrite IH. apply perm_swap.
Qed.

Lemma sort_pairs_perm (l : list (K * A)) : sort_pairs lt l ≡ₚ l.
Proof.
  induction l as [|x l IH]; simpl; [reflexivity|].
  rewrite insert_by_perm, IH. reflexivity.
Qed.

Lemma insert_by_sorted (x : K * A) l :
  StronglySorted (pair_le lt) l -> StronglySorted (pair_le lt) (insert_by lt x l).
Proof.
  induction 1 as [|y l Hs IH Hy]; simpl.
  - repeat constructor.
  - destruct (lt (fst y) (fst x)) eqn:Hyx.
    + constructor; [exact IH|].
      rewrite Forall_forall. intros z Hz.
      rewrite insert_by_perm in Hz.
      apply elem_of_cons in Hz as [->|Hz].
      * unfold pair_le. apply lt_asym, Hyx.
      * rewrite Forall_forall in Hy. apply Hy, Hz.
    + constructor; [constructor; assumption|].
      constructor; [exact Hyx|].
      eapply Forall_impl; [exact Hy|].
      intros z Hz. unfold pair_le in *. eapply le_trans; eassumption.
Qed.

Lemma sort_pairs_sorted (l : list (K * A)) :
  StronglySorted (pair_le lt) (sort_pairs lt l).
Proof.
  induction l as [|x l IH]; simpl; [constructor | apply insert_by_sorted, IH].
Qed.

(** [sorted_with] against a key function that produced the keys. *)
Lemma sorted_with_spec (key : A -> K) (ks : list K) (l : list A) :
  Forall2 (fun x k => key x = k) l ks ->
  sorted_with lt ks l ≡ₚ l
  /\ StronglySorted (fun x y => lt (key y) (key x) = false) (sorted_with lt ks l).
Proof.
  intros Hk.
  assert (Hc : combine ks l = map (fun x => (key x, x)) l).
  { induction Hk as [|x k l ks Hx _ IH]; simpl; [reflexivity|].
    rewrite Hx, IH. reflexivity. }
  unfold sorted_with. rewrite Hc. split.
  - rewrite sort_pairs_perm, map_map. simpl. rewrite map_id. reflexivity.
  - assert (Hall : Forall (fun p : K * A => fst p = key (snd p))
                     (sort_pairs lt (map (fun x => (key x, x)) l))).
    { rewrite sort_pairs_perm. apply Forall_forall. intros p Hp.
      apply list_elem_of_In, in_map_iff in Hp as (x & <- & _). reflexivity. }
    pose proof (sort_pairs_sorted (map (fun x => (key x, x)) l)) as Hs.
    induction Hs as [|p ps Hs IH Hp]; simpl; [constructor|].
    inversion Hall as [|? ? Hp0 Hps]; subst.
    constructor; [apply IH, Hps|].
    rewrite Forall_forall in Hp, Hps. apply Forall_forall.
    intros y Hy. apply list_elem_of_In, in_map_iff in Hy as (q & <- & Hq).
    apply list_elem_of_In in Hq.
    rewrite <- Hp0, <- (Hps q Hq). apply Hp, Hq.
Qed.
End SortedFacts.

(** The orders of the sort keys. *)

Lemma string_compare_ge_trans (c b a : string) :
  String.compare c b <> Lt -> String.compare b a <> Lt -> String.compare c a <> Lt.
Proof.
  revert b a; induction c as [|x c IH]; intros [|y b] [|z a]; simpl; try congruence.
  unfold Ascii.compare.
  destruct (N.compare_spec (N_of_ascii x) (N_of_ascii y)) as [Hxy|Hxy|Hxy];
    destruct (N.compare_spec (N_of_ascii y) (N_of_ascii z)) as [Hyz|Hyz|Hyz];
    destruct (N.compare_spec (N_of_ascii x) (N_of_ascii z)) as [Hxz|Hxz|Hxz];
    try congruence; try lia.
  apply IH.
Qed.

Lemma string_ltb_false (a b : string) :
  String.ltb a b = false <-> String.compare a b <> Lt.
Proof. unfold String.ltb. destruct (String.compare a b); split; congruence. Qed.

Lemma string_ltb_leb (a b : string) : String.ltb b a = false <-> String.leb a b = true.
Proof.
  unfold String.ltb, String.leb. rewrite (String.compare_antisym a b).
  destruct (String.compare b a); simpl; split; congruence.
Qed.

Lemma string_ltb_asym (a b : string) : String.ltb a b = true -> String.ltb b a = false.
Proof.
  unfold String.ltb. rewrite (String.compare_antisym a b).
  destruct (String.compare b a); simpl; congruence.
Qed.

Lemma string_ltb_irrefl (a : string) : String.ltb a a = false.
Proof.
  destruct (String.ltb a a) eqn:H; [|reflexivity].
  pose proof (string_ltb_asym _ _ H). congruence.
Qed.

Lemma string_le_trans (a b c : string) :
  String.ltb b a = false -> String.ltb c b = false -> String.ltb c a = false.
Proof.
  rewrite !string_ltb_false. intros H1 H2. eapply string_compare_ge_trans; eassumption.
Qed.

Lemma key_lt_asym (a b : bool * string) : key_lt a b = true -> key_lt b a = false.
Proof.
  destruct a as [[] n], b as [[] m]; unfold key_lt; simpl;
    try congruence; apply string_ltb_asym.
Qed.

Lemma key_le_trans (a b c : bool * string) :
  key_lt b a = false -> key_lt c b = false -> key_lt c a = false.
Proof.
  destruct a as [[] n], b as [[] m], c as [[] k]; unfold key_lt; simpl;
    try congruence; apply string_le_trans.
Qed.

Lemma Z_ltb_asym (a b : Z) : (a <? b)%Z = true -> (b <? a)%Z = false.
Proof. lia. Qed.

Lemma Z_le_trans (a b c : Z) :
  (b <? a)%Z = false -> (c <? b)%Z = false -> (c <? a)%Z = false.
Proof. lia. Qed.

Lemma symbol_key_Ok clang (s : Symbol) k :
  symbol_key clang s = Ok k -> name clang s = Ok (snd k) /\ fst k = isFunction s.
Proof.
  unfold symbol_key. destruct (name clang s) as [n|e]; simpl; [|discriminate].
  intros [= <-]. split; reflexivity.
Qed.

Lemma isFunction_true (s : Symbol) : isFunction s = true <-> cls s = Function.
Proof. unfold isFunction. apply bool_decide_eq_true. Qed.

Lemma isFunction_false (s : Symbol) : isFunction s = false <-> cls s <> Function.
Proof. unfold isFunction. apply bool_decide_eq_false. Qed.

(** Two symbols in key order: the names are in order when the classes agree,
    and a function never precedes a symbol that is not one. *)
Lemma key_order_names clang (x y : Symbol) kx ky :
  symbol_key clang x = Ok kx -> symbol_key clang y = Ok ky ->
  key_lt ky kx = false ->
  (isFunction x = isFunction y -> name_le clang x y)
  /\ (cls x = Function -> cls y = Function).
Proof.
  intros Hx Hy Hle.
  apply symbol_key_Ok in Hx as [Hnx Hbx], Hy as [Hny Hby].
  destruct kx as [bx nx], ky as [py ny]; simpl in *; subst bx py.
  unfold key_lt in Hle; simpl in Hle. split.
  - intros Heq. rewrite Heq, Bool.eqb_reflx in Hle.
    exists nx, ny. repeat split; try assumption. apply string_ltb_leb, Hle.
  - intros Hfx. apply isFunction_true in Hfx. rewrite Hfx in Hle.
    destruct (isFunction y) eqn:Hfy; [apply isFunction_true, Hfy | discriminate Hle].
Qed.

Lemma sorted_run_split clang (key : Symbol -> bool * string) (ss : list Symbol) :
  Forall (fun s => symbol_key clang s = Ok (key s)) ss ->
  StronglySorted (fun x y => key_lt (key y) (key x) = false) ss ->
  data_then_functions clang ss.
Proof.
  unfold data_then_functions.
  intros Hk Hs. induction Hs as [|x ss Hs IH Hx].
  - exists [], []. repeat split; constructor.
  - inversion Hk as [|? ? Hkx Hkss]; subst.
    destruct (IH Hkss) as (ds & fs & -> & Hds & Hfs & Sds & Sfs).
    assert (Hrel : Forall (fun y =>
                     (isFunction x = isFunction y -> name_le clang x y)
                     /\ (cls x = Function -> cls y = Function)) (ds ++ fs)).
    { rewrite Forall_forall in Hx, Hkss. apply Forall_forall. intros y Hy.
      eapply key_order_names; [exact Hkx | apply Hkss, Hy | apply Hx, Hy]. }
    apply Forall_app in Hrel as [Hrd Hrf].
    destruct (decide (cls x = Function)) as [Hfx|Hnx].
    + assert (ds = []) as ->.
      { destruct ds as [|d ds]; [reflexivity|].
        inversion Hds; inversion Hrd; subst. tauto. }
      exists [], (x :: fs). simpl. repeat split; try constructor; try assumption.
      rewrite Forall_forall in Hrf, Hfs. apply Forall_forall. intros y Hy.
      apply (Hrf y Hy). pose proof (Hfs y Hy) as Hfy.
      apply isFunction_true in Hfx, Hfy. congruence.
    + exists (x :: ds), fs. simpl. repeat split; try constructor; try assumption.
      rewrite Forall_forall in Hrd, Hds. apply Forall_forall. intros y Hy.
      apply (Hrd y Hy). pose proof (Hds y Hy) as Hny.
      apply isFunction_false in Hnx, Hny. congruence.
Qed.

(** A list sorted on [(isinstance(s, Function), s.name)] is the run of the
    symbols that are not functions followed by the run of the functions, each
    in the order of the names. *)
Lemma sorted_symbols_spec clang (l ss : list Symbol) :
  sorted_symbols clang l = Ok ss ->
  ss ≡ₚ l /\ data_then_functions clang ss.
Proof.
  unfold sorted_symbols.
  destruct (rmapM (symbol_key clang) l) as [ks|e] eqn:Hks; simpl; [|discriminate].
  intros [= <-]. apply rmapM_Ok in Hks.
  set (key := fun s => match symbol_key clang s with
                       | Ok k => k
                       | Raise _ => (false, EmptyString)
                       end).
  assert (Hkey : Forall2 (fun s k => key s = k) l ks).
  { eapply Forall2_impl; [exact Hks|]. intros s k Hs. unfold key. rewrite Hs. reflexivity. }
  destruct (sorted_with_spec key_lt key_lt_asym key_le_trans key ks l Hkey) as [Hperm Hsorted].
  split; [exact Hperm|].
  apply (sorted_run_split clang key); [|exact Hsorted].
  rewrite Hperm. clear -Hks.
  induction Hks as [|s k l ks Hs _ IH]; constructor; [|exact IH].
  unfold key. rewrite Hs. reflexivity.
Qed.


Lemma StronglySorted_filter_list {A} (R : A -> A -> Prop) (P : A -> Prop)
  `{!forall x, Decision (P x)} (l : list A) :
  StronglySorted R l -> StronglySorted R (filter P l).
Proof.
  induction 1 as [|x l Hs IH Hx]; [constructor|].
  rewrite filter_cons. destruct (decide (P x)); [|exact IH].
  constructor; [exact IH|].
  rewrite Forall_forall in Hx. apply Forall_forall. intros y Hy.
  apply list_elem_of_filter in Hy as [_ Hy]. apply Hx, Hy.
Qed.

Lemma StronglySorted_weaken {A} (R R' : A -> A -> Prop) (l : list A) :
  (forall x y, R x y -> R' x y) -> StronglySorted R l -> StronglySorted R' l.
Proof.
  intros HR. induction 1 as [|x l Hs IH Hx]; constructor; [exact IH|].
  eapply Forall_impl; [exact Hx | apply HR].
Qed.

Lemma data_then_functions_filter clang (P : Symbol -> Prop)
  `{!forall x, Decision (P x)} (ss : list Symbol) :
  data_then_functions clang ss -> data_then_functions clang (filter P ss).
Proof.
  intros (ds & fs & -> & Hds & Hfs & Sds & Sfs).
  exists (filter P ds), (filter P fs). rewrite filter_app.
  repeat split; try (apply StronglySorted_filter_list; assumption).
  - apply Forall_forall. intros s Hs. apply list_elem_of_filter in Hs as [_ Hs].
    rewrite Forall_forall in Hds. apply Hds, Hs.
  - apply Forall_forall. intros s Hs. apply list_elem_of_filter in Hs as [_ Hs].
    rewrite Forall_forall in Hfs. apply Hfs, Hs.
Qed.

Lemma requires_reg_thunk_true (s : Symbol) :
  requires_reg_thunk s = true <-> annotated_Function s.
Proof.
  unfold requires_reg_thunk, annotated_Function.
  destruct (cls s); try (split; [discriminate | intros [? _]; discriminate]).
  rewrite bool_decide_eq_true. tauto.
Qed.

Lemma cursor_name clang (s : Symbol) : is_Ok (cursor clang s) -> is_Ok (name clang s).
Proof.
  intros [c Hc]. unfold name. destruct clang as [parse|].
  - rewrite Hc. eexists; reflexivity.
  - eexists; reflexivity.
Qed.

(** ** The module-definition emitter *)

(** C5.  The module-definition file is its banner followed by one line per
    emitted symbol.  The emitted symbols are a rearrangement of the symbols
    that do not require a register thunk, so no annotated [Function] is among
    them and every other symbol is there as often as it is in [symbols]; they
    come with the symbols that are not functions first and the functions
    after, each run in the order of the names; each line is the mangled name,
    with [ DATA] after a [Data] symbol.  The file is produced whenever
    libclang resolves every symbol. *)
Theorem build_def_output clang (kb : KnowledgeBase) :
  (forall text, build_def clang kb = Ok text ->
     exists es lines,
       text = def_banner +:+ concat_str lines
       /\ Forall2 (is_def_line clang) es lines
       /\ es ≡ₚ filter (fun s => ~ annotated_Function s) (symbols kb)
       /\ Forall (fun s => ~ annotated_Function s) es
       /\ data_then_functions clang es)
  /\ ((forall s, s ∈ symbols kb -> is_Ok (cursor clang s)) ->
      is_Ok (build_def clang kb)).
Proof.
  assert (Hfilter : forall l : list Symbol,
            filter (fun s => requires_reg_thunk s = false) l
            = filter (fun s => ~ annotated_Function s) l).
  { intros l. apply list_filter_iff. intros s.
    rewrite <- requires_reg_thunk_true. destruct (requires_reg_thunk s); split; congruence. }
  unfold build_def. split.
  - intros text.
    destruct (sorted_symbols clang (symbols kb)) as [ss|e] eqn:Hss; simpl; [|discriminate].
    destruct (rmapM (def_line clang) _) as [lines|e] eqn:Hlines; simpl; [|discriminate].
    intros [= <-]. apply sorted_symbols_spec in Hss as [Hperm Hsorted].
    exists (filter (fun s => ~ annotated_Function s) ss), lines.
    rewrite Hfilter in Hlines. apply rmapM_Ok in Hlines.
    split; [reflexivity|]. split; [|split; [|split]].
    + eapply Forall2_impl; [exact Hlines|]. intros s line. unfold def_line, is_def_line.
      destruct (cursor clang s) as [c|e]; simpl; [|discriminate].
      intros [= <-]. exists c. split; [reflexivity|].
      unfold isData. destruct (decide (cls s = Data)) as [Hd|Hd].
      * rewrite bool_decide_eq_true_2 by assumption. reflexivity.
      * rewrite bool_decide_eq_false_2 by assumption. reflexivity.
    + rewrite Hperm. reflexivity.
    + apply Forall_forall. intros s Hs. apply list_elem_of_filter in Hs as [Hs _]. exact Hs.
    + apply data_then_functions_filter, Hsorted.
  - intros Hcur.
    assert (Hkeys : is_Ok (rmapM (symbol_key clang) (symbols kb))).
    { apply rmapM_total, Forall_forall. intros s Hs.
      destruct (cursor_name clang s (Hcur s Hs)) as [n Hn].
      unfold symbol_key. rewrite Hn. eexists; reflexivity. }
    destruct Hkeys as [ks Hks].
    destruct (sorted_symbols clang (symbols kb)) as [ss|e] eqn:Hss.
    2:{ unfold sorted_symbols in Hss. rewrite Hks in Hss. discriminate Hss. }
    simpl. pose proof (sorted_symbols_spec _ _ _ Hss) as [Hperm _].
    destruct (rmapM_total (def_line clang)
                (filter (fun s => requires_reg_thunk s = false) ss)) as [lines Hlines].
    { apply Forall_forall. intros s Hs. apply list_elem_of_filter in Hs as [_ Hs].
      rewrite Hperm in Hs. destruct (Hcur s Hs) as [c Hc].
      unfold def_line. rewrite Hc. eexists; reflexivity. }
    rewrite Hlines. eexists; reflexivity.
Qed.

Lemma build_def_output_witness :
  exists es, es ≡ₚ filter (fun s => ~ annotated_Function s) (symbols demo_kb)
             /\ data_then_functions (Some demo_clang) es.
Proof.
  destruct (proj1 (build_def_output (Some demo_clang) demo_kb)
              (def_banner +:+ (tab +:+ "_counter DATA" +:+ nl) +:+ (tab +:+ "_Baz" +:+ nl))
              eq_refl)
    as (es & lines & _ & _ & Hperm & _ & Hsorted).
  exists es. split; assumption.
Defined.

(** ** The header emitter *)

Lemma NoDup_omap_id {A} (l : list (option A)) : NoDup l -> NoDup (omap id l).
Proof.
  induction 1 as [|x l Hx Hl IH]; simpl; [constructor|].
  destruct x as [a|]; simpl; [|exact IH].
  constructor; [|exact IH].
  intros Ha. apply list_elem_of_omap in Ha as (y & Hy & Hya).
  destruct y as [b|]; simpl in Hya; [|discriminate]. injection Hya as ->. contradiction.
Qed.

(** The object names in the order of the sections: the keys of
    [object_to_symbols] other than [None], each once, in lexicographic
    order. *)
Lemma objs_sorted_spec (m : gmap (option string) (list Symbol)) :
  StronglySorted (fun a b => String.leb a b = true) (objs_sorted m)
  /\ NoDup (objs_sorted m)
  /\ (forall n, n ∈ objs_sorted m <-> is_Some (m !! Some n)).
Proof.
  unfold objs_sorted.
  set (names := omap id (map fst (map_to_list m))).
  assert (Hkeys : Forall2 (fun x k : string => id x = k) names names).
  { generalize names. intros l. induction l; constructor; [reflexivity | assumption]. }
  destruct (sorted_with_spec String.ltb string_ltb_asym string_le_trans id names names Hkeys)
    as [Hperm Hsorted].
  assert (Hnodup : NoDup names).
  { apply NoDup_omap_id. apply (NoDup_fst_map_to_list m). }
  split; [|split].
  - eapply StronglySorted_weaken; [|exact Hsorted].
    intros a b H. apply string_ltb_leb, H.
  - rewrite Hperm. exact Hnodup.
  - intros n. rewrite Hperm. unfold names. rewrite list_elem_of_omap. split.
    + intros (o & Ho & Hon). destruct o as [n'|]; simpl in Hon; [|discriminate].
      injection Hon as ->.
      apply list_elem_of_In, in_map_iff in Ho as ([k v] & Hk & Hkv). simpl in Hk; subst k.
      apply list_elem_of_In, elem_of_map_to_list in Hkv. eauto.
    + intros [v Hv]. exists (Some n). split; [|reflexivity].
      apply list_elem_of_In, in_map_iff. exists (Some n, v). split; [reflexivity|].
      apply list_elem_of_In, elem_of_map_to_list, Hv.
Qed.

Lemma emit_symbol_line clang (s : Symbol) out :
  emit_symbol clang s = Ok out -> fst out = header_line s.
Proof.
  unfold emit_symbol, header_line. destruct (cls s).
  - intros [= <-]; reflexivity.
  - intros [= <-]; reflexivity.
  - destruct (if requires_reg_thunk s then gen_thunk clang s else Ok EmptyString);
      simpl; [|discriminate].
    intros [= <-]; reflexivity.
Qed.

Lemma emit_section_spec clang (kb : KnowledgeBase) (o : option string) out :
  emit_section clang kb o = Ok out ->
  exists ss, fst out = section_text kb (o, ss)
             /\ ss ≡ₚ bucket (object_to_symbols kb) o
             /\ data_then_functions clang ss.
Proof.
  unfold emit_section.
  destruct (sorted_symbols clang _) as [ss|e] eqn:Hss; simpl; [|discriminate].
  destruct (rmapM (emit_symbol clang) ss) as [outs|e] eqn:Houts; simpl; [|discriminate].
  intros [= <-]. apply sorted_symbols_spec in Hss as [Hperm Hsorted].
  exists ss. split; [|split; assumption].
  unfold section_text; simpl. do 2 f_equal.
  apply rmapM_Ok in Houts. clear -Houts.
  induction Houts as [|s out ss outs Hs _ IH]; simpl; [reflexivity|].
  rewrite (emit_symbol_line _ _ _ Hs), IH. reflexivity.
Qed.

Lemma emit_sections_spec clang (kb : KnowledgeBase) (objs : list (option string)) outs :
  Forall2 (fun o out => emit_section clang kb o = Ok out) objs outs ->
  exists secs : list (option string * list Symbol),
    map fst secs = objs
    /\ map (section_text kb) secs = map fst outs
    /\ Forall (fun sec => snd sec ≡ₚ bucket (object_to_symbols kb) (fst sec)
                          /\ data_then_functions clang (snd sec)) secs.
Proof.
  induction 1 as [|o out objs outs Ho _ (secs & Hn & Ht & Hs)].
  - exists []. repeat split; constructor.
  - apply emit_section_spec in Ho as (ss & Htext & Hperm & Hsorted).
    exists ((o, ss) :: secs). simpl. rewrite Hn, Ht, Htext.
    repeat split; try reflexivity. constructor; [split; assumption | exact Hs].
Qed.

(** C4.  The header is its banner, the object sections and its footer.  The
    sections are those of the object names in lexicographic order, each name
    once, followed by the section of the unattributed bucket.  The lines of a
    section are those of a rearrangement of the object's symbols in which the
    symbols that are not functions (the [Data] lines) come first and the
    functions after, each run in the order of the resolved names.  The header
    is produced whenever every name resolves and every annotated function has
    a thunk. *)
Theorem build_header_output clang (kb : KnowledgeBase) :
  (forall header thunks, build_header clang kb = Ok (header, thunks) ->
     exists secs : list (option string * list Symbol),
       header = header_banner +:+ concat_str (map (section_text kb) secs) +:+ header_footer
       /\ map fst secs = map Some (objs_sorted (object_to_symbols kb)) ++ [None]
       /\ StronglySorted (fun a b => String.leb a b = true)
                         (objs_sorted (object_to_symbols kb))
       /\ NoDup (objs_sorted (object_to_symbols kb))
       /\ (forall n, n ∈ objs_sorted (object_to_symbols kb)
                     <-> is_Some (object_to_symbols kb !! Some n))
       /\ Forall (fun sec => snd sec ≡ₚ bucket (object_to_symbols kb) (fst sec)
                             /\ data_then_functions clang (snd sec)) secs)
  /\ ((forall o s, s ∈ bucket (object_to_symbols kb) o ->
         is_Ok (name clang s)
         /\ (annotated_Function s -> is_Ok (gen_thunk clang s))) ->
      is_Ok (build_header clang kb)).
Proof.
  unfold build_header. split.
  - intros header thunks.
    destruct (rmapM (emit_section clang kb) _) as [outs|e] eqn:Houts; simpl; [|discriminate].
    intros [= <- <-]. apply rmapM_Ok, emit_sections_spec in Houts as (secs & Hn & Ht & Hs).
    destruct (objs_sorted_spec (object_to_symbols kb)) as (Hsorted & Hnodup & Hdom).
    exists secs. rewrite Ht. repeat split; try assumption; apply Hdom.
  - intros Hres.
    destruct (rmapM_total (emit_section clang kb)
                (map Some (objs_sorted (object_to_symbols kb)) ++ [None])) as [outs Houts].
    2:{ rewrite Houts. eexists; reflexivity. }
    apply Forall_forall. intros o _. unfold emit_section.
    destruct (rmapM_total (symbol_key clang) (bucket (object_to_symbols kb) o)) as [ks Hks].
    { apply Forall_forall. intros s Hs. destruct (Hres o s Hs) as [[n Hn] _].
      unfold symbol_key. rewrite Hn. eexists; reflexivity. }
    destruct (sorted_symbols clang (bucket (object_to_symbols kb) o)) as [ss|e] eqn:Hss.
    2:{ unfold sorted_symbols in Hss. rewrite Hks in Hss. discriminate Hss. }
    simpl. pose proof (sorted_symbols_spec _ _ _ Hss) as [Hperm _].
    destruct (rmapM_total (emit_symbol clang) ss) as [outs Houts].
    2:{ rewrite Houts. eexists; reflexivity. }
    apply Forall_forall. intros s Hs. rewrite Hperm in Hs.
    destruct (Hres o s Hs) as [_ Hthunk]. unfold emit_symbol.
    destruct (cls s) eqn:Hcls; try (eexists; reflexivity).
    destruct (requires_reg_thunk s) eqn:Hreq; [|eexists; reflexivity].
    destruct (Hthunk (proj1 (requires_reg_thunk_true s) Hreq)) as [t Ht].
    rewrite Ht. eexists; reflexivity.
Qed.

Lemma build_header_output_witness :
  exists secs : list (option string * list Symbol),
    map fst secs = [Some "a.obj"; None]
    /\ Forall (fun sec => data_then_functions (Some demo_clang) (snd sec)) secs.
Proof.
  destruct (build_header (Some demo_clang) demo_attributed) as [[header thunks]|e] eqn:Hb;
    [|vm_compute in Hb; discriminate Hb].
  destruct (proj1 (build_header_output (Some demo_clang) demo_attributed) header thunks Hb)
    as (secs & _ & Hn & _ & _ & _ & Hs).
  exists secs. split.
  - rewrite Hn. vm_compute. reflexivity.
  - eapply Forall_impl; [exact Hs|]. intros sec [_ H]. exact H.
Defined.

(** ** Buckets *)

Lemma bucketed_insert_fresh (m : gmap (option string) (list Symbol)) o l :
  m !! o = None -> bucketed (<[o := l]> m) ≡ₚ l ++ bucketed m.
Proof.
  intros Hm. unfold bucketed. rewrite (map_to_list_insert m o l Hm). reflexivity.
Qed.

Lemma bucketed_lookup (m : gmap (option string) (list Symbol)) o l :
  m !! o = Some l -> bucketed m ≡ₚ l ++ bucketed (delete o m).
Proof.
  intros Hm. unfold bucketed. rewrite <- (map_to_list_delete m o l Hm). reflexivity.
Qed.

Lemma bucketed_append (m : gmap (option string) (list Symbol)) o s :
  bucketed (bucket_append o s m) ≡ₚ s :: bucketed m.
Proof.
  unfold bucket_append, bucket. destruct (m !! o) as [l|] eqn:Hm; simpl.
  - rewrite <- insert_delete_eq.
    rewrite bucketed_insert_fresh by apply lookup_delete_eq.
    rewrite (bucketed_lookup m o l Hm).
    rewrite <- app_assoc. simpl. rewrite <- Permutation_middle. reflexivity.
  - rewrite bucketed_insert_fresh by assumption. reflexivity.
Qed.

Lemma elem_of_bucketed (m : gmap (option string) (list Symbol)) s :
  s ∈ bucketed m <-> exists o l, m !! o = Some l /\ s ∈ l.
Proof.
  unfold bucketed. rewrite list_elem_of_In, in_concat. split.
  - intros (l & Hl & Hs). apply in_map_iff in Hl as ([o l'] & Heq & Hol).
    simpl in Heq; subst l'. apply list_elem_of_In, elem_of_map_to_list in Hol.
    apply list_elem_of_In in Hs. eauto.
  - intros (o & l & Hm & Hs). exists l. split; [|apply list_elem_of_In, Hs].
    apply in_map_iff. exists (o, l). split; [reflexivity|].
    apply list_elem_of_In, elem_of_map_to_list, Hm.
Qed.

(** With no symbol twice among the buckets, a symbol is in one bucket only. *)
Lemma bucketed_NoDup_unique (m : gmap (option string) (list Symbol)) s o1 o2 l1 l2 :
  NoDup (bucketed m) ->
  m !! o1 = Some l1 -> m !! o2 = Some l2 -> s ∈ l1 -> s ∈ l2 -> o1 = o2.
Proof.
  intros Hnd H1 H2 Hs1 Hs2.
  destruct (decide (o1 = o2)) as [|Hne]; [assumption|exfalso].
  rewrite (bucketed_lookup m o1 l1 H1) in Hnd.
  apply NoDup_app in Hnd as (_ & Hdisj & _).
  apply (Hdisj s Hs1). apply elem_of_bucketed. exists o2, l2.
  split; [|exact Hs2]. rewrite lookup_delete_ne by assumption. exact H2.
Qed.

Lemma bucket_total_length (m : gmap (option string) (list Symbol)) :
  bucket_total m = length (bucketed m).
Proof.
  unfold bucket_total, bucketed.
  induction (map_to_list m) as [|[o l] ms IH]; simpl; [reflexivity|].
  rewrite length_app, IH. reflexivity.
Qed.

(** ** The attribution loop *)

Lemma NoDup_map_1 {A B} (f : A -> B) (l : list A) : NoDup (map f l) -> NoDup l.
Proof.
  induction l as [|x l IH]; simpl; [constructor|].
  intros Hnd. apply NoDup_cons in Hnd as [Hx Hl].
  constructor; [|apply IH, Hl].
  intros Hin. apply Hx. apply list_elem_of_In, in_map, list_elem_of_In, Hin.
Qed.

Lemma filter_ext_elem {A} (P Q : A -> Prop) `{!forall x, Decision (P x)}
  `{!forall x, Decision (Q x)} (l : list A) :
  (forall x, x ∈ l -> (P x <-> Q x)) -> filter P l = filter Q l.
Proof.
  induction l as [|x l IH]; intros Hext; [reflexivity|].
  rewrite !filter_cons.
  rewrite IH by (intros y Hy; apply Hext; right; exact Hy).
  pose proof (Hext x (list_elem_of_here _ _)) as Hx.
  destruct (decide (P x)), (decide (Q x)); try reflexivity; tauto.
Qed.

Lemma finalize_step_attributed (kb : KnowledgeBase) (s : Symbol) :
  attributed kb s -> finalize_step kb s = kb.
Proof. intros H. unfold finalize_step. rewrite decide_True by exact H. reflexivity. Qed.

Lemma finalize_step_fresh (kb : KnowledgeBase) (s : Symbol) :
  ~ attributed kb s ->
  finalize_step kb s =
  set_symbol_to_object (<[ident s := None]> (symbol_to_object kb))
    (set_object_to_symbols (bucket_append None s (object_to_symbols kb)) kb).
Proof. intros H. unfold finalize_step. rewrite decide_False by exact H. reflexivity. Qed.

(** The loop over a list [l] of distinct objects, from any state. *)
Lemma finalize_fold_spec (l : list Symbol) : forall kb : KnowledgeBase,
  NoDup (map ident l) ->
  let kb' := fold_left finalize_step l kb in
  let new := filter (fun s => ~ attributed kb s) l in
  symbols kb' = symbols kb
  /\ object_to_source kb' = object_to_source kb
  /\ (forall i, symbol_to_object kb' !! i =
                match symbol_to_object kb !! i with
                | Some o => Some o
                | None => if decide (i ∈ map ident l) then Some None else None
                end)
  /\ (forall o, o <> None -> object_to_symbols kb' !! o = object_to_symbols kb !! o)
  /\ bucket (object_to_symbols kb') None = bucket (object_to_symbols kb) None ++ new
  /\ bucketed (object_to_symbols kb') ≡ₚ bucketed (object_to_symbols kb) ++ new.
Proof.
  induction l as [|s l IH]; intros kb Hnd; cbn zeta.
  - simpl. rewrite !app_nil_r. repeat split; try reflexivity.
    intros i. destruct (symbol_to_object kb !! i); reflexivity.
  - simpl in Hnd. apply NoDup_cons in Hnd as [Hs Hnd]. cbn [fold_left].
    rewrite filter_cons.
    destruct (decide (attributed kb s)) as [Hat|Hat].
    + rewrite finalize_step_attributed by exact Hat.
      rewrite decide_False by tauto.
      destruct (IH kb Hnd) as (H1 & H2 & H3 & H4 & H5 & H6).
      repeat split; try assumption.
      intros i. rewrite H3. destruct (symbol_to_object kb !! i) eqn:Hi; [reflexivity|].
      destruct (decide (i = ident s)) as [->|Hne].
      { destruct Hat as [o Ho]. congruence. }
      change (map ident (s :: l)) with (ident s :: map ident l).
      destruct (decide (i ∈ map ident l)) as [Hin|Hin],
               (decide (i ∈ ident s :: map ident l)) as [Hin'|Hin']; try reflexivity.
      * exfalso. apply Hin'. right. exact Hin.
      * apply elem_of_cons in Hin' as [?|?]; contradiction.
    + rewrite finalize_step_fresh by exact Hat.
      rewrite decide_True by exact Hat.
      set (kb1 := set_symbol_to_object _ _).
      destruct (IH kb1 Hnd) as (H1 & H2 & H3 & H4 & H5 & H6).
      assert (Hsame : filter (fun s' => ~ attributed kb1 s') l
                      = filter (fun s' => ~ attributed kb s') l).
      { apply filter_ext_elem. intros s' Hs'.
        assert (ident s' <> ident s).
        { intros Heq. apply Hs. rewrite <- Heq.
          apply list_elem_of_In, in_map, list_elem_of_In, Hs'. }
        unfold attributed, kb1; simpl. rewrite lookup_insert_ne by congruence. tauto. }
      rewrite Hsame in H5, H6.
      split; [exact H1|]. split; [exact H2|]. split; [|split; [|split]].
      * intros i. rewrite H3. unfold kb1; simpl.
        destruct (decide (i = ident s)) as [->|Hne].
        -- rewrite lookup_insert_eq.
           destruct (symbol_to_object kb !! ident s) eqn:Hi.
           { exfalso. apply Hat. unfold attributed. rewrite Hi. eauto. }
           change (map ident (s :: l)) with (ident s :: map ident l).
           destruct (decide (ident s ∈ ident s :: map ident l)) as [Hin'|Hin'];
             [reflexivity | exfalso; apply Hin'; left].
        -- rewrite lookup_insert_ne by congruence.
           destruct (symbol_to_object kb !! i); [reflexivity|].
           change (map ident (s :: l)) with (ident s :: map ident l).
           destruct (decide (i ∈ map ident l)) as [Hin|Hin],
                    (decide (i ∈ ident s :: map ident l)) as [Hin'|Hin']; try reflexivity.
           ++ exfalso. apply Hin'. right. exact Hin.
           ++ apply elem_of_cons in Hin' as [?|?]; contradiction.
      * intros o Ho. rewrite H4 by exact Ho. unfold kb1, bucket_append; simpl.
        rewrite lookup_insert_ne by congruence. reflexivity.
      * rewrite H5. unfold kb1, bucket_append, bucket; simpl.
        rewrite lookup_insert_eq; simpl. rewrite <- app_assoc. reflexivity.
      * rewrite H6. unfold kb1; simpl. rewrite bucketed_append.
        simpl. rewrite <- Permutation_middle. reflexivity.
Qed.

Lemma elem_of_bucket (m : gmap (option string) (list Symbol)) o s :
  s ∈ bucket m o <-> exists l, m !! o = Some l /\ s ∈ l.
Proof.
  unfold bucket. destruct (m !! o) as [l|]; simpl.
  - split; [eauto | intros (l' & [= <-] & H); exact H].
  - split; [intros H; inversion H | intros (l' & [=] & _)].
Qed.

(** The states built by [KnowledgeBase()] and [add_symbols] on new objects
    are consistent. *)
Lemma KnowledgeBase_init_consistent : attribution_consistent KnowledgeBase_init.
Proof.
  split; simpl; [constructor|].
  unfold bucketed. rewrite map_to_list_empty. reflexivity.
Qed.

Lemma add_symbols_consistent (batch : list Symbol) (kb : KnowledgeBase) :
  attribution_consistent kb ->
  NoDup (map ident (symbols kb ++ batch)) ->
  (forall s, s ∈ batch -> ~ attributed kb s) ->
  attribution_consistent (add_symbols batch kb).
Proof.
  intros [_ Hb] Hnd Hfresh. split; [exact Hnd|].
  unfold add_symbols; simpl.
  change (filter (attributed (set_symbols (symbols kb ++ batch) kb)) (symbols kb ++ batch))
    with (filter (attributed kb) (symbols kb ++ batch)).
  rewrite filter_app, Hb.
  assert (Hnil : filter (attributed kb) batch = []).
  { clear Hnd. induction batch as [|s batch IH]; [reflexivity|].
    rewrite filter_cons, decide_False by (apply Hfresh; left).
    apply IH. intros s' Hs'. apply Hfresh. right. exact Hs'. }
  rewrite Hnil, app_nil_r. reflexivity.
Qed.

(** ** Attribution completeness *)

(** C7.  From a consistent state, the attribution loop leaves [symbols] as it
    was and every symbol attributed; the buckets together hold exactly the
    symbols, none twice; every symbol is in one bucket and in no other; and
    the bucket sizes add up to the number of symbols. *)
Theorem finalize_attribution_complete (kb : KnowledgeBase) :
  attribution_consistent kb ->
  let kb' := finalize_attribution kb in
  symbols kb' = symbols kb
  /\ (forall s, s ∈ symbols kb' -> attributed kb' s)
  /\ bucketed (object_to_symbols kb') ≡ₚ symbols kb'
  /\ NoDup (bucketed (object_to_symbols kb'))
  /\ (forall s, s ∈ symbols kb' ->
        exists o, s ∈ bucket (object_to_symbols kb') o
                  /\ forall o', s ∈ bucket (object_to_symbols kb') o' -> o' = o)
  /\ bucket_total (object_to_symbols kb') = length (symbols kb').
Proof.
  intros [Hnd Hb] kb'.
  destruct (finalize_fold_spec (symbols kb) kb Hnd) as (H1 & _ & H3 & _ & _ & H6).
  fold (finalize_attribution kb) in H1, H3, H6. fold kb' in H1, H3, H6.
  assert (Hperm : bucketed (object_to_symbols kb') ≡ₚ symbols kb').
  { rewrite H6, Hb, H1. apply filter_app_complement. }
  assert (Hnd' : NoDup (bucketed (object_to_symbols kb'))).
  { rewrite Hperm, H1. apply (NoDup_map_1 ident), Hnd. }
  split; [exact H1|]. split; [|split; [exact Hperm|split; [exact Hnd'|split]]].
  - intros s Hs. unfold attributed. rewrite H3.
    destruct (symbol_to_object kb !! ident s); [eauto|].
    rewrite decide_True; [eauto|].
    rewrite H1 in Hs. apply list_elem_of_In, in_map, list_elem_of_In, Hs.
  - intros s Hs. rewrite <- Hperm in Hs.
    apply elem_of_bucketed in Hs as (o & l & Hm & Hl).
    exists o. split; [apply elem_of_bucket; eauto|].
    intros o' Ho'. apply elem_of_bucket in Ho' as (l' & Hm' & Hl').
    eapply bucketed_NoDup_unique; eassumption.
  - rewrite bucket_total_length, Hperm. reflexivity.
Qed.

Lemma finalize_attribution_complete_witness :
  bucket_total (object_to_symbols (finalize_attribution demo_attributed)) = 4%nat.
Proof.
  refine (proj2 (proj2 (proj2 (proj2 (proj2
            (finalize_attribution_complete demo_attributed _)))))).
  split.
  - vm_compute. repeat constructor; intros H; repeat (apply elem_of_cons in H as [H|H]; [discriminate H|]); inversion H.
  - vm_compute. reflexivity.
Defined.

(** ** The address index *)






(** ** Saving *)

Lemma default_nonempty {A} (l : list A) : default [] (nonempty l) = l.
Proof. destruct l; reflexivity. Qed.

Lemma Symbol_serialize_record (s : Symbol) :
  is_Some (addr s) -> Symbol_serialize s = Ok (record_of s).
Proof.
  intros [a Ha]. unfold Symbol_serialize, record_of. rewrite Ha. reflexivity.
Qed.

Lemma rmapM_Symbol_serialize (l : list Symbol) :
  Forall (fun s => is_Some (addr s)) l ->
  rmapM Symbol_serialize l = Ok (map record_of l).
Proof.
  induction 1 as [|s l Hs _ IH]; simpl; [reflexivity|].
  rewrite (Symbol_serialize_record s Hs), IH. reflexivity.
Qed.

Lemma sorted_by_addr_perm (l : list Symbol) :
  Forall (fun s => is_Some (addr s)) l ->
  exists l', sorted_by_addr l = Ok l' /\ l' ≡ₚ l.
Proof.
  intros Hl.
  assert (Hks : rmapM addr_key l = Ok (map (fun s => default 0%Z (addr s)) l)).
  { induction Hl as [|s l [a Ha] _ IH]; simpl; [reflexivity|].
    unfold addr_key at 1. rewrite Ha, IH. reflexivity. }
  assert (Hgen : exists l', (ks <-- rmapM addr_key l ;; Ok (sorted_with Z.ltb ks l)) = Ok l'
                            /\ l' ≡ₚ l).
  { rewrite Hks. eexists; split; [reflexivity|].
    apply (sorted_with_spec Z.ltb Z_ltb_asym Z_le_trans (fun s => default 0%Z (addr s))).
    clear. induction l; constructor; [reflexivity | assumption]. }
  unfold sorted_by_addr. destruct l as [|s [|s' l]]; [eauto | eauto | exact Hgen].
Qed.

(** The entry written for an object with symbols, from an ordering [l'] of
    its bucket. *)
Lemma serialize_object_spec (kb : KnowledgeBase) (o : option string) :
  Forall (fun s => is_Some (addr s)) (bucket (object_to_symbols kb) o) ->
  exists l', l' ≡ₚ bucket (object_to_symbols kb) o
    /\ serialize_object kb o =
       Ok (match bucket (object_to_symbols kb) o with
           | [] => None
           | _ => Some {| o_name := o;
                          o_source := object_to_source kb !! o;
                          o_data := nonempty (map record_of (filter (fun s => cls s = Data) l'));
                          o_functions :=
                            nonempty (map record_of (filter (fun s => cls s = Function) l')) |}
           end).
Proof.
  intros Hall. destruct (sorted_by_addr_perm _ Hall) as (l' & Hsort & Hperm).
  exists l'. split; [exact Hperm|].
  unfold serialize_object.
  destruct (bucket (object_to_symbols kb) o) as [|s l] eqn:Hb; [reflexivity|].
  rewrite Hsort. cbn [rbind].
  assert (Hall' : Forall (fun s => is_Some (addr s)) l') by (rewrite Hperm; exact Hall).
  rewrite !rmapM_Symbol_serialize
    by (apply Forall_forall; intros x Hx; apply list_elem_of_filter in Hx as [_ Hx];
        rewrite Forall_forall in Hall'; apply Hall', Hx).
  reflexivity.
Qed.

(** ** Loading *)

Lemma new_symbols_records (k : class) (l : list Symbol) : forall n,
  Forall (fun s => is_Some (addr s)) l ->
  new_symbols k n (map record_of l) = Ok (renumber k n l).
Proof.
  induction l as [|s l IH]; intros n Hl; [reflexivity|].
  inversion Hl as [|? ? [a Ha] Hl']; subst. simpl.
  unfold Symbol_init at 1, record_of at 1. simpl. rewrite Ha. simpl.
  rewrite int16_hex. simpl. rewrite (IH (S n) Hl'). reflexivity.
Qed.

Lemma name_decl clang (s s' : Symbol) : decl s = decl s' -> name clang s = name clang s'.
Proof. intros H. unfold name, cursor. rewrite H. reflexivity. Qed.

Lemma renumber_length k (l : list Symbol) : forall n, length (renumber k n l) = length l.
Proof. induction l as [|s l IH]; intros n; simpl; [|rewrite IH]; reflexivity. Qed.

Lemma renumber_ident k (l : list Symbol) : forall n i,
  i ∈ map ident (renumber k n l) <-> (n <= i < n + length l)%nat.
Proof.
  induction l as [|s l IH]; intros n i; simpl.
  - split; [intros H; inversion H | lia].
  - rewrite elem_of_cons, IH. lia.
Qed.

Lemma renumber_facts k (kb : KnowledgeBase) o (l : list Symbol) : forall n,
  (forall i, (n <= i < n + length l)%nat -> symbol_to_object kb !! i = Some o) ->
  map (facts kb) (renumber k n l) = map (fun s => (k, decl s, addr s, o)) l.
Proof.
  induction l as [|s l IH]; intros n Hn; simpl; [reflexivity|].
  rewrite IH by (intros i Hi; apply Hn; simpl; lia).
  unfold facts at 1; simpl. rewrite Hn by (simpl; lia). reflexivity.
Qed.

Lemma renumber_Forall k (P : Symbol -> Prop) (l : list Symbol) : forall n,
  (forall s s', decl s = decl s' -> addr s = addr s' -> P s -> P s') ->
  Forall P l -> Forall P (renumber k n l).
Proof.
  intros n HP Hl. revert n. induction Hl as [|s l Hs _ IH]; intros n; simpl; constructor.
  - eapply HP; [| |exact Hs]; reflexivity.
  - apply IH.
Qed.

Lemma attribute_symbol_spec clang o (kb : KnowledgeBase) (s : Symbol) :
  is_Ok (name clang s) ->
  exists kb', attribute_symbol clang o kb s = Ok kb'
    /\ symbols kb' = symbols kb
    /\ object_to_source kb' = object_to_source kb
    /\ symbol_to_object kb' = <[ident s := o]> (symbol_to_object kb).
Proof.
  intros [nm Hnm]. unfold attribute_symbol.
  destruct (addr s) as [a|]; [destruct (a =? 0)%Z|]; try rewrite Hnm;
    eexists; (split; [reflexivity|]); repeat split; reflexivity.
Qed.

Lemma attribute_fold clang o (l : list Symbol) : forall kb0 : KnowledgeBase,
  Forall (fun s => is_Ok (name clang s)) l ->
  exists kb', rfoldM (attribute_symbol clang o) l kb0 = Ok kb'
    /\ symbols kb' = symbols kb0
    /\ object_to_source kb' = object_to_source kb0
    /\ (forall i, symbol_to_object kb' !! i =
                  if decide (i ∈ map ident l) then Some o
                  else symbol_to_object kb0 !! i).
Proof.
  induction l as [|s l IH]; intros kb0 Hl.
  - exists kb0. repeat split; try reflexivity.
  - inversion Hl as [|? ? Hs Hl']; subst.
    destruct (attribute_symbol_spec clang o kb0 s Hs) as (kb1 & Hstep & Hsy & Hso & Hmap).
    destruct (IH kb1 Hl') as (kb' & Hfold & Hsy' & Hso' & Hmap').
    exists kb'. cbn [rfoldM]. rewrite Hstep. cbn [rbind].
    split; [exact Hfold|]. split; [congruence|]. split; [congruence|].
    intros i. rewrite Hmap'. change (map ident (s :: l)) with (ident s :: map ident l).
    destruct (decide (i ∈ map ident l)) as [Hin|Hin],
             (decide (i ∈ ident s :: map ident l)) as [Hin'|Hin']; try reflexivity.
    + exfalso. apply Hin'. right. exact Hin.
    + rewrite Hmap. apply elem_of_cons in Hin' as [->|?]; [|contradiction].
      apply lookup_insert_eq.
    + rewrite Hmap. apply lookup_insert_ne. intros <-. apply Hin'. left.
Qed.

(** Loading the entry of object [o] written from the functions [F] and the
    data [D]. *)
Lemma load_object_entry clang (kb : KnowledgeBase) (n : nat) o src (D F : list Symbol) :
  loading (kb, n) ->
  Forall (fun s => is_Some (addr s) /\ is_Ok (name clang s)) D ->
  Forall (fun s => is_Some (addr s) /\ is_Ok (name clang s)) F ->
  exists kb' n',
    load_object clang (kb, n)
      (mkObj o src (nonempty (map record_of D)) (nonempty (map record_of F)))
    = Ok (kb', n')
    /\ loading (kb', n')
    /\ contents kb' = contents kb
                      ++ map (fun s => (Function, decl s, addr s, o)) F
                      ++ map (fun s => (Data, decl s, addr s, o)) D
    /\ object_to_source kb' = match src with
                              | Some x => <[o := x]> (object_to_source kb)
                              | None => object_to_source kb
                              end.
Proof.
  intros [Hfree Hattr] HD HF. simpl in Hfree, Hattr.
  unfold load_object. cbn [o_source o_functions o_data o_name].
  rewrite !default_nonempty.
  set (kb1 := match src with
              | Some x => set_object_to_source (<[o := x]> (object_to_source kb)) kb
              | None => kb
              end).
  assert (Hk1 : symbols kb1 = symbols kb /\ symbol_to_object kb1 = symbol_to_object kb
                /\ object_to_source kb1 = match src with
                                          | Some x => <[o := x]> (object_to_source kb)
                                          | None => object_to_source kb
                                          end).
  { unfold kb1. destruct src; repeat split; reflexivity. }
  destruct Hk1 as (Hsy1 & Hmap1 & Hsrc1). clearbody kb1.
  rewrite (new_symbols_records Function F n)
    by (eapply Forall_impl; [exact HF | intros s [H _]; exact H]).
  cbn [rbind]. rewrite renumber_length.
  rewrite (new_symbols_records Data D (n + length F))
    by (eapply Forall_impl; [exact HD | intros s [H _]; exact H]).
  cbn [rbind].
  set (new := renumber Function n F ++ renumber Data (n + length F) D).
  assert (Hids : forall i, i ∈ map ident new <-> (n <= i < n + length F + length D)%nat).
  { intros i. unfold new. rewrite map_app, elem_of_app, !renumber_ident. lia. }
  assert (Hlen : length new = (length F + length D)%nat).
  { unfold new. rewrite length_app, !renumber_length. reflexivity. }
  assert (Hold : forall s, s ∈ symbols kb -> ident s ∉ map ident new).
  { intros s Hs Hin. apply Hids in Hin. rewrite Forall_forall in Hattr.
    destruct (Hattr s Hs) as [x Hx]. rewrite Hfree in Hx by lia. discriminate Hx. }
  destruct new as [|s0 rest] eqn:Hnew.
  - assert (F = [] /\ D = []) as [-> ->].
    { simpl in Hlen. destruct F, D; simpl in Hlen; try lia. split; reflexivity. }
    exists kb1, n. split; [reflexivity|]. split; [|split].
    + split; simpl; [rewrite Hmap1; exact Hfree|].
      rewrite Hsy1. eapply Forall_impl; [exact Hattr|].
      intros s. unfold attributed. rewrite Hmap1. tauto.
    + simpl. rewrite app_nil_r. unfold contents, facts. rewrite Hsy1, Hmap1. reflexivity.
    + exact Hsrc1.
  - rewrite <- Hnew in *. clear Hnew s0 rest.
    destruct (attribute_fold clang o new (add_symbols new kb1)) as (kb' & Hfold & Hsy & Hso & Hmap).
    { unfold new. apply Forall_app. split.
      - apply renumber_Forall.
        + intros s s' Hd _. rewrite (name_decl clang s s' Hd). tauto.
        + eapply Forall_impl; [exact HF | intros s [_ H]; exact H].
      - apply renumber_Forall.
        + intros s s' Hd _. rewrite (name_decl clang s s' Hd). tauto.
        + eapply Forall_impl; [exact HD | intros s [_ H]; exact H]. }
    rewrite Hfold. cbn [rbind]. exists kb', (n + length new)%nat.
    simpl in Hsy, Hso, Hmap. rewrite Hsy1 in Hsy. rewrite Hmap1 in Hmap.
    split; [reflexivity|]. split; [|split].
    + split; simpl.
      * intros i Hi. rewrite Hmap. rewrite decide_False by (rewrite Hids; lia).
        apply Hfree. lia.
      * rewrite Hsy. apply Forall_forall. intros s Hs. unfold attributed. rewrite Hmap.
        destruct (decide (ident s ∈ map ident new)); [eauto|].
        apply elem_of_app in Hs as [Hs|Hs].
        -- rewrite Forall_forall in Hattr. apply Hattr, Hs.
        -- exfalso. apply n0. apply list_elem_of_In, in_map, list_elem_of_In, Hs.
    + unfold contents. rewrite Hsy, map_app. f_equal.
      * apply map_ext_in. intros s Hs. apply list_elem_of_In in Hs.
        unfold facts. rewrite Hmap. rewrite decide_False by (apply Hold, Hs). reflexivity.
      * unfold new. rewrite map_app. f_equal.
        -- apply renumber_facts. intros i Hi. rewrite Hmap.
           rewrite decide_True by (rewrite Hids; lia). reflexivity.
        -- apply renumber_facts. intros i Hi. rewrite Hmap.
           rewrite decide_True by (rewrite Hids; lia). reflexivity.
    + rewrite Hso. exact Hsrc1.
Qed.

(** ** Saving, then loading *)

Lemma bucketed_keys (K : list (option string)) :
  forall m : gmap (option string) (list Symbol),
  NoDup K -> (forall o, is_Some (m !! o) -> o ∈ K) ->
  concat (map (bucket m) K) ≡ₚ bucketed m.
Proof.
  induction K as [|o K IH]; intros m Hnd Hcov.
  - assert (m = ∅) as ->.
    { apply map_empty. intros o. destruct (m !! o) eqn:Ho; [|reflexivity].
      exfalso. eapply not_elem_of_nil. apply Hcov. eauto. }
    unfold bucketed. rewrite map_to_list_empty. reflexivity.
  - apply NoDup_cons in Hnd as [Ho Hnd]. simpl.
    destruct (m !! o) as [l|] eqn:Hm.
    + rewrite (bucketed_lookup m o l Hm).
      unfold bucket at 1. rewrite Hm. simpl. apply Permutation_app_head.
      rewrite <- (IH (delete o m) Hnd).
      * apply Permutation_refl'. f_equal. apply map_ext_in. intros o' Ho'.
        apply list_elem_of_In in Ho'. unfold bucket.
        rewrite lookup_delete_ne by (intros ->; contradiction). reflexivity.
      * intros o' [x Hx]. destruct (decide (o' = o)) as [->|Hne].
        { rewrite lookup_delete_eq in Hx. discriminate Hx. }
        rewrite lookup_delete_ne in Hx by congruence.
        pose proof (Hcov o' (ex_intro _ x Hx)) as Hin.
        apply elem_of_cons in Hin as [->|Hin]; [contradiction | exact Hin].
    + unfold bucket at 1. rewrite Hm. simpl. apply IH; [exact Hnd|].
      intros o' [x Hx]. pose proof (Hcov o' (ex_intro _ x Hx)) as Hin.
      apply elem_of_cons in Hin as [->|Hin]; [congruence | exact Hin].
Qed.

Lemma bucket_facts_split (kb : KnowledgeBase) o (l : list Symbol) :
  (forall s, s ∈ l -> symbol_to_object kb !! ident s = Some o) ->
  map (fun s => (Function, decl s, addr s, o)) (filter (fun s => cls s = Function) l)
  ++ map (fun s => (Data, decl s, addr s, o)) (filter (fun s => cls s = Data) l)
  ≡ₚ filter kept (map (facts kb) l).
Proof.
  induction l as [|s l IH]; intros Hl; [reflexivity|].
  assert (IH' := IH (fun s' Hs' => Hl s' (list_elem_of_further _ _ _ Hs'))).
  assert (Hf : facts kb s = (cls s, decl s, addr s, o)).
  { unfold facts. rewrite (Hl s) by left. reflexivity. }
  cbn [map]. rewrite !filter_cons, Hf.
  destruct (cls s) eqn:Hc; repeat case_decide; try congruence;
    try (exfalso; unfold kept in *; simpl in *; congruence);
    try (exfalso; match goal with H : ~ kept _ |- _ => apply H; discriminate end).
  - cbn [map]. rewrite <- Permutation_middle. apply perm_skip. exact IH'.
  - cbn [map app]. apply perm_skip. exact IH'.
Qed.

Lemma source_step (S src : gmap (option string) string) (o o' : option string) :
  (match src !! o with Some x => <[o := x]> S | None => S end) !! o'
  = if decide (o' = o)
    then match src !! o with Some x => Some x | None => S !! o end
    else S !! o'.
Proof.
  destruct (decide (o' = o)) as [->|Hne]; destruct (src !! o); try reflexivity.
  - apply lookup_insert_eq.
  - apply lookup_insert_ne. congruence.
Qed.

(** Saving the buckets of the objects [K] and loading the entries. *)
Lemma save_load_loop clang (kb1 : KnowledgeBase) (K : list (option string)) :
  (forall o s, o ∈ K -> s ∈ bucket (object_to_symbols kb1) o ->
     is_Some (addr s) /\ is_Ok (name clang s)
     /\ symbol_to_object kb1 !! ident s = Some o) ->
  forall st, loading st ->
  exists entries st',
    rmapM (serialize_object kb1) K = Ok entries
    /\ rfoldM (load_object clang) (omap id entries) st = Ok st'
    /\ loading st'
    /\ contents (fst st') ≡ₚ
       contents (fst st)
       ++ filter kept (map (facts kb1) (concat (map (bucket (object_to_symbols kb1)) K)))
    /\ (forall o, object_to_source (fst st') !! o =
          if decide (o ∈ K /\ bucket (object_to_symbols kb1) o <> [])
          then match object_to_source kb1 !! o with
               | Some x => Some x
               | None => object_to_source (fst st) !! o
               end
          else object_to_source (fst st) !! o).
Proof.
  induction K as [|o K IH]; intros HK st Hst.
  - exists [], st. simpl. rewrite app_nil_r. repeat split; try reflexivity; apply Hst.
  - assert (HK' : forall o' s, o' ∈ K -> s ∈ bucket (object_to_symbols kb1) o' ->
                    is_Some (addr s) /\ is_Ok (name clang s)
                    /\ symbol_to_object kb1 !! ident s = Some o').
    { intros o' s Ho'. apply HK. right. exact Ho'. }
    assert (Hbo : forall s, s ∈ bucket (object_to_symbols kb1) o ->
                    is_Some (addr s) /\ is_Ok (name clang s)
                    /\ symbol_to_object kb1 !! ident s = Some o).
    { intros s. apply HK. left. }
    destruct (serialize_object_spec kb1 o) as (l' & Hperm & Hser).
    { apply Forall_forall. intros s Hs. apply (Hbo s Hs). }
    cbn [rmapM map concat].
    destruct (decide (bucket (object_to_symbols kb1) o = [])) as [Hb|Hb].
    + rewrite Hb in Hser. rewrite Hser, Hb. cbn [rbind app].
      destruct (IH HK' st Hst) as (entries & st' & Hents & Hload & Hst' & Hcont & Hsrc).
      exists (None :: entries), st'. rewrite Hents. cbn [rbind omap id].
      split; [reflexivity|]. split; [exact Hload|]. split; [exact Hst'|].
      split; [exact Hcont|].
      intros o'. rewrite Hsrc.
      destruct (decide (o' ∈ K /\ bucket (object_to_symbols kb1) o' <> [])) as [H1|H1],
               (decide (o' ∈ o :: K /\ bucket (object_to_symbols kb1) o' <> [])) as [H2|H2];
        try reflexivity; exfalso.
      * apply H2. split; [right|]; apply H1.
      * destruct H2 as [Hin Hne]. apply elem_of_cons in Hin as [->|Hin]; [congruence|tauto].
    + set (e := {| o_name := o;
                   o_source := object_to_source kb1 !! o;
                   o_data := nonempty (map record_of (filter (fun s => cls s = Data) l'));
                   o_functions :=
                     nonempty (map record_of (filter (fun s => cls s = Function) l')) |}).
      assert (Hser' : serialize_object kb1 o = Ok (Some e)).
      { rewrite Hser. destruct (bucket (object_to_symbols kb1) o); [contradiction | reflexivity]. }
      rewrite Hser'. cbn [rbind]. destruct st as [kb n].
      destruct (load_object_entry clang kb n o (object_to_source kb1 !! o)
                  (filter (fun s => cls s = Data) l')
                  (filter (fun s => cls s = Function) l') Hst)
        as (kb' & n' & Hone & Hst1 & Hcont1 & Hsrc1).
      { apply Forall_forall. intros s Hs. apply list_elem_of_filter in Hs as [_ Hs].
        rewrite Hperm in Hs. split; apply (Hbo s Hs). }
      { apply Forall_forall. intros s Hs. apply list_elem_of_filter in Hs as [_ Hs].
        rewrite Hperm in Hs. split; apply (Hbo s Hs). }
      fold e in Hone.
      destruct (IH HK' (kb', n') Hst1) as (entries & st' & Hents & Hload & Hst' & Hcont & Hsrc).
      rewrite Hents. cbn [rbind].
      exists (Some e :: entries), st'.
      split; [reflexivity|].
      change (omap id (Some e :: entries)) with (e :: omap id entries).
      cbn [rfoldM]. rewrite Hone. cbn [rbind].
      split; [exact Hload|]. split; [exact Hst'|]. split.
      * rewrite Hcont. cbn [fst]. rewrite Hcont1.
        rewrite map_app, filter_app. rewrite <- !app_assoc.
        apply Permutation_app_head. rewrite app_assoc. apply Permutation_app_tail.
        rewrite (bucket_facts_split kb1 o l')
          by (intros s Hs; rewrite Hperm in Hs; apply (Hbo s Hs)).
        rewrite Hperm. reflexivity.
      * intros o'. rewrite Hsrc. cbn [fst]. rewrite Hsrc1, source_step.
        destruct (decide (o' = o)) as [->|Hne].
        -- rewrite (decide_True (P := o ∈ o :: K /\ _)) by (split; [left | exact Hb]).
           destruct (decide _); destruct (object_to_source kb1 !! o); reflexivity.
        -- destruct (decide (o' ∈ K /\ bucket (object_to_symbols kb1) o' <> [])) as [H1|H1],
                    (decide (o' ∈ o :: K /\ bucket (object_to_symbols kb1) o' <> [])) as [H2|H2];
             try reflexivity; exfalso.
           ++ apply H2. split; [right|]; apply H1.
           ++ destruct H2 as [Hin Hne']. apply elem_of_cons in Hin as [->|Hin]; tauto.
Qed.

Lemma bucket_touch (m : gmap (option string) (list Symbol)) o o' :
  bucket (touch o m) o' = bucket m o'.
Proof.
  unfold touch, bucket at 1. destruct (decide (o = o')) as [->|Hne].
  - rewrite lookup_insert_eq. reflexivity.
  - rewrite lookup_insert_ne by exact Hne. reflexivity.
Qed.

Lemma has_truth_total (kb : KnowledgeBase) (s : Symbol) :
  attributed kb s -> is_Ok (has_truth kb s).
Proof.
  intros [o Ho]. unfold has_truth. rewrite Ho.
  destruct o as [[|c n]|]; eexists; reflexivity.
Qed.

(** The attribution loop changes the attribution of no symbol: it only
    records under [None] the symbols that had none. *)
Lemma contents_finalize (kb : KnowledgeBase) :
  NoDup (map ident (symbols kb)) ->
  contents (finalize_attribution kb) = contents kb.
Proof.
  intros Hnd.
  destruct (finalize_fold_spec (symbols kb) kb Hnd) as (H1 & _ & H3 & _).
  fold (finalize_attribution kb) in H1, H3.
  unfold contents. rewrite H1. apply map_ext. intros s. unfold facts. rewrite H3.
  destruct (symbol_to_object kb !! ident s); [reflexivity|].
  destruct (decide _); reflexivity.
Qed.

Lemma buckets_attributed_finalize (kb : KnowledgeBase) :
  attribution_consistent kb -> buckets_attributed kb ->
  forall o s, s ∈ bucket (object_to_symbols (finalize_attribution kb)) o ->
              symbol_to_object (finalize_attribution kb) !! ident s = Some o.
Proof.
  intros [Hnd Hb] Hba o s Hs.
  destruct (finalize_fold_spec (symbols kb) kb Hnd) as (_ & _ & H3 & H4 & H5 & _).
  fold (finalize_attribution kb) in H3, H4, H5.
  rewrite H3. destruct o as [n|].
  - apply elem_of_bucket in Hs as (l & Hm & Hl).
    rewrite H4 in Hm by discriminate. rewrite (Hba _ _ _ Hm Hl). reflexivity.
  - rewrite H5 in Hs. apply elem_of_app in Hs as [Hs|Hs].
    + apply elem_of_bucket in Hs as (l & Hm & Hl). rewrite (Hba _ _ _ Hm Hl). reflexivity.
    + apply list_elem_of_filter in Hs as [Hna Hin].
      destruct (symbol_to_object kb !! ident s) eqn:Hi.
      { exfalso. apply Hna. unfold attributed. rewrite Hi. eauto. }
      rewrite decide_True; [reflexivity|].
      apply list_elem_of_In, in_map, list_elem_of_In, Hin.
Qed.

Lemma finalize_attribution_spec_perm (kb : KnowledgeBase) :
  attribution_consistent kb ->
  symbols (finalize_attribution kb) = symbols kb
  /\ object_to_source (finalize_attribution kb) = object_to_source kb
  /\ bucketed (object_to_symbols (finalize_attribution kb))
     ≡ₚ symbols (finalize_attribution kb).
Proof.
  intros [Hnd Hb].
  destruct (finalize_fold_spec (symbols kb) kb Hnd) as (H1 & H2 & _ & _ & _ & H6).
  fold (finalize_attribution kb) in H1, H2, H6.
  split; [exact H1|]. split; [exact H2|].
  rewrite H6, Hb, H1. apply filter_app_complement.
Qed.

Lemma section_keys_cover (m : gmap (option string) (list Symbol)) :
  NoDup (map Some (objs_sorted m) ++ [None])
  /\ forall o, is_Some (m !! o) -> o ∈ map Some (objs_sorted m) ++ [None].
Proof.
  destruct (objs_sorted_spec m) as (_ & Hnd & Hdom). split.
  - apply NoDup_app. split; [|split].
    + clear Hdom. induction Hnd as [|x l Hx _ IH]; simpl; constructor; [|exact IH].
      intros Hin. apply list_elem_of_In, in_map_iff in Hin as (y & [= ->] & Hy).
      apply Hx, list_elem_of_In, Hy.
    + intros o Ho Hn. apply list_elem_of_singleton in Hn as ->.
      apply list_elem_of_In, in_map_iff in Ho as (y & Hy & _). discriminate Hy.
    + apply NoDup_singleton.
  - intros [n|] Ho; apply elem_of_app.
    + left. apply list_elem_of_In, in_map, list_elem_of_In, Hdom, Ho.
    + right. left.
Qed.

(** ** The round trip *)

(** C1 (as amended).  From a consistent state in which every bucket holds
    symbols attributed to its object and every symbol has an address and a
    name that resolves, [serialize] succeeds and [deserialize] of what it
    wrote succeeds; the loaded symbols are the [Data] and [Function] symbols
    of the saved state, with the same class, declaration, address and
    attribution (a plain [Symbol] is not written); and the loaded source
    mapping is the saved one restricted to the objects with a symbol. *)
Theorem serialize_deserialize_roundtrip clang (kb : KnowledgeBase) :
  attribution_consistent kb ->
  buckets_attributed kb ->
  Forall (fun s => is_Some (addr s) /\ is_Ok (name clang s)) (symbols kb) ->
  exists kb1 out kb2 lg,
    serialize kb = Ok (kb1, out)
    /\ deserialize clang None out = Ok (kb2, lg)
    /\ contents kb2 ≡ₚ filter kept (contents kb)
    /\ forall o, object_to_source kb2 !! o =
                 if decide (bucket (object_to_symbols kb1) o = []) then None
                 else object_to_source kb !! o.
Proof.
  intros Hcons Hba Hall.
  pose proof (buckets_attributed_finalize kb Hcons Hba) as Hattr.
  destruct (finalize_attribution_spec_perm kb Hcons) as (Hsy & Hsrc0 & Hperm).
  destruct Hcons as [Hnd Hb].
  pose proof (contents_finalize kb Hnd) as Hcontf.
  set (kbf := finalize_attribution kb) in *.
  set (K := map Some (objs_sorted (object_to_symbols kbf)) ++ [None]).
  destruct (section_keys_cover (object_to_symbols kbf)) as [HKnd HKcov]. fold K in HKnd, HKcov.
  destruct (save_load_loop clang kbf K) with (st := (KnowledgeBase_init, 0%nat))
    as (entries & [kb2 n2] & Hents & Hload & [_ Hattr2] & Hcont & Hsrc).
  { intros o s _ Hs. rewrite Forall_forall in Hall.
    assert (Hin : s ∈ symbols kb).
    { rewrite <- Hsy, <- Hperm. apply elem_of_bucketed.
      apply elem_of_bucket in Hs as (l & Hm & Hl). eauto. }
    destruct (Hall s Hin) as [Ha Hn]. repeat split; [exact Ha | exact Hn | apply Hattr, Hs]. }
  { split; simpl; [intros i _; apply lookup_empty | constructor]. }
  simpl in Hattr2, Hcont, Hsrc.
  destruct (rmapM_total (has_truth kb2) (symbols kb2)) as [truths Htruths].
  { eapply Forall_impl; [exact Hattr2 | apply has_truth_total]. }
  eexists _, (omap id entries), _, _.
  split; [|split; [|split]].
  - unfold serialize. fold kbf. fold K. rewrite Hents. reflexivity.
  - unfold deserialize. rewrite Hload. cbn [rbind fst].
    change (rmapM (has_truth (set_addr_to_symbol (build_addr_index (symbols kb2)) kb2))
              (symbols (set_addr_to_symbol (build_addr_index (symbols kb2)) kb2)))
      with (rmapM (has_truth kb2) (symbols kb2)).
    rewrite Htruths. reflexivity.
  - change (contents (set_addr_to_symbol (build_addr_index (symbols kb2)) kb2))
      with (contents kb2).
    rewrite Hcont. change (contents KnowledgeBase_init) with (@nil (class * string * option Z * option string)).
    simpl app. rewrite (bucketed_keys K _ HKnd HKcov), Hperm.
    fold (contents kbf). rewrite Hcontf. reflexivity.
  - intros o.
    change (object_to_source (set_addr_to_symbol (build_addr_index (symbols kb2)) kb2))
      with (object_to_source kb2).
    change (object_to_symbols (set_object_to_symbols (touch None (object_to_symbols kbf)) kbf))
      with (touch None (object_to_symbols kbf)).
    rewrite Hsrc. rewrite bucket_touch. rewrite lookup_empty.
    destruct (decide (bucket (object_to_symbols kbf) o = [])) as [He|He].
    + rewrite decide_False by tauto. reflexivity.
    + rewrite decide_True.
      * rewrite Hsrc0. destruct (object_to_source kb !! o); reflexivity.
      * split; [|exact He]. apply HKcov.
        unfold bucket in He. destruct (object_to_symbols kbf !! o); [eauto | contradiction].
Qed.

Lemma serialize_deserialize_roundtrip_witness :
  exists kb1 out kb2 lg,
    serialize demo_attributed = Ok (kb1, out)
    /\ deserialize (Some demo_clang) None out = Ok (kb2, lg)
    /\ contents kb2 ≡ₚ filter kept (contents demo_attributed).
Proof.
  destruct (serialize_deserialize_roundtrip (Some demo_clang) demo_attributed)
    as (kb1 & out & kb2 & lg & Hsave & Hload & Hcont & _).
  - split.
    + vm_compute. repeat constructor; intros H;
        repeat (apply elem_of_cons in H as [H|H]; [discriminate H|]); inversion H.
    + vm_compute. reflexivity.
  - intros o l s Hm Hs. unfold demo_attributed in Hm. cbn [object_to_symbols] in Hm.
    apply lookup_singleton_Some in Hm as [<- <-].
    apply elem_of_cons in Hs as [->|Hs]; [vm_compute; reflexivity|].
    apply list_elem_of_singleton in Hs as ->. vm_compute. reflexivity.
  - repeat constructor; try (eexists; reflexivity).
  - exists kb1, out, kb2, lg. repeat split; assumption.
Defined.

(** [demo_sources_only] is saved as an empty list of objects (its object has
    no symbol, so the loop skips it) and the source mapping is lost. *)
Lemma roundtrip_loses_sources : ~ roundtrip_holds (Some demo_clang) demo_sources_only.
Proof.
  intros (kb1 & out & kb2 & lg & Hsave & Hload & _ & Hsrc).
  vm_compute in Hsave. injection Hsave as <- <-.
  vm_compute in Hload. injection Hload as <- <-.
  apply (f_equal (fun m : gmap (option string) string => m !! Some "a.obj")) in Hsrc.
  vm_compute in Hsrc. discriminate Hsrc.
Qed.

(** A symbol without an address cannot be saved at all. *)
Lemma serialize_unlocated : exists e, serialize demo_unlocated = Raise e.
Proof. eexists. vm_compute. reflexivity. Qed.

(** What [deserialize] builds from an entry with a source and no symbol. *)
Lemma deserialize_sources_only :
  exists kb lg,
    deserialize (Some demo_clang) None [mkObj (Some "a.obj") (Some "a.c") None None]
    = Ok (kb, lg)
    /\ symbols kb = [] /\ object_to_source kb = object_to_source demo_sources_only.
Proof. eexists _, _. split; [vm_compute; reflexivity|]. split; reflexivity. Qed.

(** ** The states built by [deserialize] *)

Lemma new_symbols_idents (k : class) (records : list sym_record) : forall n l,
  new_symbols k n records = Ok l -> map ident l = seq n (length l).
Proof.
  induction records as [|o rest IH]; intros n l; simpl.
  - intros [= <-]. reflexivity.
  - destruct (Symbol_init k n o) as [s|e] eqn:Hs; simpl; [|discriminate].
    destruct (new_symbols k (S n) rest) as [ss|e] eqn:Hss; simpl; [|discriminate].
    intros [= <-]. simpl. rewrite (IH _ _ Hss). f_equal.
    unfold Symbol_init in Hs.
    destruct (match r_addr o with
              | JNone => Ok None
              | JStr t => z <-- int16 t;; Ok (Some z)
              | JInt z => Ok (Some z)
              end); simpl in Hs; [|discriminate].
    injection Hs as <-. reflexivity.
Qed.

Lemma attribute_symbol_buckets clang o (kb kb' : KnowledgeBase) (s : Symbol) :
  attribute_symbol clang o kb s = Ok kb' ->
  symbols kb' = symbols kb
  /\ symbol_to_object kb' = <[ident s := o]> (symbol_to_object kb)
  /\ object_to_symbols kb' = bucket_append o s (object_to_symbols kb).
Proof.
  unfold attribute_symbol.
  destruct (addr s) as [a|]; [destruct (a =? 0)%Z|];
    try (intros [= <-]; repeat split; reflexivity).
  destruct (name clang s); simpl; [|discriminate].
  intros [= <-]. repeat split; reflexivity.
Qed.

Lemma bucket_append_attributed (kb : KnowledgeBase) o (s : Symbol) :
  buckets_attributed kb ->
  symbol_to_object kb !! ident s = None ->
  forall o' l s', bucket_append o s (object_to_symbols kb) !! o' = Some l -> s' ∈ l ->
                  <[ident s := o]> (symbol_to_object kb) !! ident s' = Some o'.
Proof.
  intros Hba Hfresh o' l s' Hl Hs'. unfold bucket_append in Hl.
  destruct (decide (o = o')) as [<-|Hne].
  - rewrite lookup_insert_eq in Hl. injection Hl as <-.
    apply elem_of_app in Hs' as [Hs'|Hs'].
    + apply elem_of_bucket in Hs' as (l0 & Hm & Hl0).
      pose proof (Hba _ _ _ Hm Hl0) as Hold.
      rewrite lookup_insert_ne by congruence. exact Hold.
    + apply list_elem_of_singleton in Hs' as ->. apply lookup_insert_eq.
  - rewrite lookup_insert_ne in Hl by exact Hne.
    pose proof (Hba _ _ _ Hl Hs') as Hold.
    rewrite lookup_insert_ne by congruence. exact Hold.
Qed.

Lemma attribute_fold_buckets clang o (l : list Symbol) :
  forall kb0 kb' : KnowledgeBase,
  NoDup (map ident l) ->
  (forall s, s ∈ l -> symbol_to_object kb0 !! ident s = None) ->
  buckets_attributed kb0 ->
  rfoldM (attribute_symbol clang o) l kb0 = Ok kb' ->
  symbols kb' = symbols kb0
  /\ buckets_attributed kb'
  /\ bucketed (object_to_symbols kb') ≡ₚ bucketed (object_to_symbols kb0) ++ l
  /\ (forall i, symbol_to_object kb' !! i =
                if decide (i ∈ map ident l) then Some o
                else symbol_to_object kb0 !! i).
Proof.
  induction l as [|s l IH]; intros kb0 kb' Hnd Hfresh Hba; cbn [rfoldM].
  - intros [= <-]. rewrite app_nil_r. repeat split; try reflexivity; assumption.
  - destruct (attribute_symbol clang o kb0 s) as [kb1|e] eqn:Hstep; cbn [rbind]; [|discriminate].
    intros Hfold. apply attribute_symbol_buckets in Hstep as (Hsy1 & Hmap1 & Hbk1).
    simpl in Hnd. apply NoDup_cons in Hnd as [Hs Hnd].
    destruct (IH kb1 kb' Hnd) as (Hsy & Hba' & Hperm & Hmap); [| |exact Hfold|].
    + intros s' Hs'. rewrite Hmap1, lookup_insert_ne.
      * apply Hfresh. right. exact Hs'.
      * intros Heq. apply Hs. rewrite Heq.
        apply list_elem_of_In, in_map, list_elem_of_In, Hs'.
    + intros o' l' s' Hl' Hs'. rewrite Hmap1. rewrite Hbk1 in Hl'.
      eapply bucket_append_attributed; [exact Hba | apply Hfresh; left | exact Hl' | exact Hs'].
    + split; [congruence|]. split; [exact Hba'|]. split.
      * rewrite Hperm, Hbk1, bucketed_append. simpl.
        rewrite <- Permutation_middle. reflexivity.
      * intros i. rewrite Hmap, Hmap1.
        change (map ident (s :: l)) with (ident s :: map ident l).
        destruct (decide (i ∈ map ident l)) as [Hin|Hin],
                 (decide (i ∈ ident s :: map ident l)) as [Hin'|Hin']; try reflexivity.
        -- exfalso. apply Hin'. right. exact Hin.
        -- apply elem_of_cons in Hin' as [->|?]; [|contradiction]. apply lookup_insert_eq.
        -- apply lookup_insert_ne. intros <-. apply Hin'. left.
Qed.

Lemma load_object_loaded clang (st st' : KnowledgeBase * nat) (o : obj_record) :
  loaded st -> load_object clang st o = Ok st' -> loaded st'.
Proof.
  destruct st as [kb n]. intros (Hfree & Hnd & Hattr & Hperm & Hba). simpl in *.
  set (kb1 := match o_source o with
              | Some src => set_object_to_source (<[o_name o := src]> (object_to_source kb)) kb
              | None => kb
              end).
  assert (Hk1 : symbols kb1 = symbols kb /\ symbol_to_object kb1 = symbol_to_object kb
                /\ object_to_symbols kb1 = object_to_symbols kb).
  { unfold kb1. destruct (o_source o); repeat split; reflexivity. }
  destruct Hk1 as (Hsy1 & Hmap1 & Hbk1). clearbody kb1.
  destruct (new_symbols Function n _) as [F|e] eqn:HF; cbn [rbind]; [|discriminate].
  destruct (new_symbols Data _ _) as [D|e] eqn:HD; cbn [rbind]; [|discriminate].
  apply new_symbols_idents in HF, HD.
  set (new := F ++ D) in *.
  assert (Hids : map ident new = seq n (length new)).
  { unfold new. rewrite map_app, length_app, seq_app, HF, HD. reflexivity. }
  assert (Hin : forall i, i ∈ map ident new <-> (n <= i < n + length new)%nat).
  { intros i. rewrite Hids, list_elem_of_In, in_seq. reflexivity. }
  destruct new as [|s0 rest] eqn:Hnew.
  - intros [= <-]. unfold loaded. simpl. rewrite Hsy1, Hmap1.
    split; [exact Hfree|]. split; [exact Hnd|]. split; [|split].
    + eapply Forall_impl; [exact Hattr|]. intros s. unfold attributed. rewrite Hmap1. tauto.
    + rewrite Hbk1. exact Hperm.
    + intros o' l s. rewrite Hbk1, Hmap1. apply Hba.
  - rewrite <- Hnew in *. clear Hnew s0 rest.
    destruct (rfoldM _ new _) as [kb2|e] eqn:Hfold; cbn [rbind]; [|discriminate].
    intros [= <-]. unfold loaded. simpl.
    assert (Holdlt : forall s, s ∈ symbols kb -> (ident s < n)%nat).
    { intros s Hs. rewrite Forall_forall in Hattr. destruct (Hattr s Hs) as [x Hx].
      destruct (Nat.lt_ge_cases (ident s) n) as [|Hge]; [assumption|].
      rewrite Hfree in Hx by exact Hge. discriminate Hx. }
    apply attribute_fold_buckets in Hfold as (Hsy & Hba2 & Hperm2 & Hmap).
    + simpl in Hsy, Hperm2, Hmap. rewrite Hsy1 in Hsy. rewrite Hmap1 in Hmap.
      rewrite Hbk1 in Hperm2.
      split; [|split; [|split; [|split]]].
      * intros i Hi. rewrite Hmap. rewrite decide_False by (rewrite Hin; lia).
        apply Hfree. lia.
      * rewrite Hsy, map_app. apply NoDup_app. split; [exact Hnd|]. split.
        -- intros i Hi Hi'. apply Hin in Hi'.
           apply list_elem_of_In, in_map_iff in Hi as (s & <- & Hs).
           apply list_elem_of_In, Holdlt in Hs. lia.
        -- rewrite Hids. apply NoDup_ListNoDup, seq_NoDup.
      * rewrite Hsy. apply Forall_forall. intros s Hs. unfold attributed. rewrite Hmap.
        destruct (decide (ident s ∈ map ident new)) as [|Hnin]; [eauto|].
        apply elem_of_app in Hs as [Hs|Hs].
        -- rewrite Forall_forall in Hattr. apply Hattr, Hs.
        -- exfalso. apply Hnin. apply list_elem_of_In, in_map, list_elem_of_In, Hs.
      * rewrite Hperm2, Hsy, Hperm. reflexivity.
      * exact Hba2.
    + rewrite Hids. apply NoDup_ListNoDup, seq_NoDup.
    + intros s Hs. simpl. rewrite Hmap1. apply Hfree.
      assert (ident s ∈ map ident new) as Hi
        by (apply list_elem_of_In, in_map, list_elem_of_In, Hs).
      apply Hin in Hi. lia.
    + intros o' l s. simpl. rewrite Hbk1, Hmap1. apply Hba.
Qed.

Lemma load_loop_loaded clang (objects : list obj_record) :
  forall st st', loaded st -> rfoldM (load_object clang) objects st = Ok st' -> loaded st'.
Proof.
  induction objects as [|o objects IH]; intros st st' Hst; cbn [rfoldM].
  - intros [= <-]. exact Hst.
  - destruct (load_object clang st o) as [st1|e] eqn:Hone; cbn [rbind]; [|discriminate].
    apply IH. eapply load_object_loaded; eassumption.
Qed.

(** Without the truth hook, [deserialize] returns a consistent state whose
    buckets hold symbols attributed to their object, every symbol being
    attributed. *)
Lemma deserialize_consistent clang (objects : list obj_record)
  (kb : KnowledgeBase) (lg : list log_record) :
  deserialize clang None objects = Ok (kb, lg) ->
  attribution_consistent kb /\ buckets_attributed kb
  /\ Forall (attributed kb) (symbols kb).
Proof.
  unfold deserialize.
  destruct (rfoldM (load_object clang) objects (KnowledgeBase_init, 0%nat))
    as [[kb0 n]|e] eqn:Hload; cbn [rbind fst]; [|discriminate].
  destruct (rmapM _ _) as [truths|e]; cbn [rbind]; [|discriminate].
  intros [= <- _].
  apply load_loop_loaded in Hload as (_ & Hnd & Hattr & Hperm & Hba).
  - simpl in *. split; [split|split].
    + exact Hnd.
    + change (bucketed (object_to_symbols kb0) ≡ₚ filter (attributed kb0) (symbols kb0)).
      rewrite Hperm. clear -Hattr.
      induction Hattr as [|s l Hs _ IH]; [reflexivity|].
      rewrite filter_cons, decide_True by exact Hs. constructor. exact IH.
    + exact Hba.
    + exact Hattr.
  - split; [|split; [|split; [|split]]]; simpl.
    + intros i _. apply lookup_empty.
    + constructor.
    + constructor.
    + unfold bucketed. rewrite map_to_list_empty. reflexivity.
    + intros o l s Hl. cbn in Hl. rewrite lookup_empty in Hl. discriminate Hl.
Qed.

(** * Further properties of the code *)

(** ** The annotation filter *)

Lemma reg_sub_length (s : string) : forall k,
  (String.length (reg_sub k s) <= String.length s)%nat.
Proof.
  induction s as [|c s IH]; intros k; [simpl; lia|].
  cbn [reg_sub]. destruct k as [|k].
  - destruct (reg_match_here (String c s)) as [[reg rest]|].
    + specialize (IH (String.length reg + 2)%nat). simpl. lia.
    + specialize (IH 0%nat). simpl. lia.
  - specialize (IH k). simpl. lia.
Qed.

Lemma reg_search_None_step c (s : string) :
  reg_search (String c s) = None ->
  reg_match_here (String c s) = None /\ reg_search s = None.
Proof.
  cbn [reg_search]. destruct (reg_match_here (String c s)) as [[reg rest]|];
    [discriminate|].
  destruct (reg_search s) as [[i reg]|]; [discriminate|]. split; reflexivity.
Qed.

Lemma reg_sub_no_match (s : string) : reg_search s = None -> reg_sub 0 s = s.
Proof.
  induction s as [|c s IH]; [reflexivity|].
  intros H. apply reg_search_None_step in H as [Hhere Hrest].
  cbn [reg_sub]. rewrite Hhere, (IH Hrest). reflexivity.
Qed.

Lemma reg_sub_match_shorter (s : string) :
  is_Some (reg_search s) ->
  (String.length (reg_sub 0 s) < String.length s)%nat.
Proof.
  induction s as [|c s IH]; intros [x Hx]; [discriminate Hx|].
  cbn [reg_search] in Hx. cbn [reg_sub].
  destruct (reg_match_here (String c s)) as [[reg rest]|].
  - pose proof (reg_sub_length s (String.length reg + 2)). simpl. lia.
  - destruct (reg_search s) as [[i reg]|]; [|discriminate Hx].
    assert (Hlt := IH (ex_intro _ _ eq_refl)). simpl. lia.
Qed.

Lemma append_length (a b : string) :
  String.length (a +:+ b) = (String.length a + String.length b)%nat.
Proof.
  induction a as [|x a IH]; [reflexivity|].
  change (S (String.length (a +:+ b)) = S (String.length a + String.length b)).
  rewrite IH. reflexivity.
Qed.

Lemma append_cancel_r (t : string) : forall f d, f +:+ t = d +:+ t -> f = d.
Proof.
  induction f as [|x f IH]; intros [|y d] H.
  - reflexivity.
  - apply (f_equal String.length) in H.
    rewrite !append_length in H. simpl in H. lia.
  - apply (f_equal String.length) in H.
    rewrite !append_length in H. simpl in H. lia.
  - change (String x (f +:+ t) = String y (d +:+ t)) in H.
    injection H as -> H. f_equal. apply IH, H.
Qed.

(** X1.  [filter_reg_assignments] returns its argument unchanged exactly when
    the pattern does not occur in it, and never returns a longer text: the
    header shows the declaration of a function as it is stored exactly when
    the function requires no register thunk. *)
Theorem filter_reg_assignments_identity (d : string) :
  (filter_reg_assignments d = d <-> reg_search d = None)
  /\ (String.length (filter_reg_assignments d) <= String.length d)%nat
  /\ (forall id a, requires_reg_thunk (mkSymbol id Function d a) = false <->
                   header_line (mkSymbol id Function d a) = "HFUNC " +:+ d +:+ nl).
Proof.
  assert (Hiff : filter_reg_assignments d = d <-> reg_search d = None).
  { unfold filter_reg_assignments. split.
    - intros Heq. destruct (reg_search d) as [x|] eqn:Hs; [|reflexivity].
      pose proof (reg_sub_match_shorter d) as Hlt. rewrite Hs, Heq in Hlt.
      specialize (Hlt (ex_intro _ _ eq_refl)). lia.
    - apply reg_sub_no_match. }
  split; [exact Hiff|]. split; [apply reg_sub_length|].
  intros id a. unfold requires_reg_thunk, header_line. cbn [cls decl].
  rewrite bool_decide_eq_false, <- eq_None_not_Some, <- Hiff. split.
  - intros ->. reflexivity.
  - intros H. apply (append_cancel_r nl).
    change ("HFUNC " +:+ filter_reg_assignments d +:+ nl = "HFUNC " +:+ d +:+ nl) in H.
    cbn [String.append] in H. injection H as H. exact H.
Qed.

(** ** The annotation pattern *)

Lemma word_run_spec (s : string) : forall w r,
  word_run s = (w, r) -> s = w +:+ r /\ str_all is_word w = true.
Proof.
  induction s as [|c s IH]; intros w r; cbn [word_run].
  - intros [= <- <-]. split; reflexivity.
  - destruct (is_word c) eqn:Hc.
    + destruct (word_run s) as [w' r'] eqn:Hrun. intros [= <- <-].
      destruct (IH w' r' eq_refl) as [-> Hall]. split; [reflexivity|].
      cbn [str_all]. rewrite Hc, Hall. reflexivity.
    + intros [= <- <-]. split; reflexivity.
Qed.

Lemma reg_match_here_spec (s reg rest : string) :
  reg_match_here s = Some (reg, rest) ->
  s = "@<" +:+ reg +:+ ">" +:+ rest /\ reg <> EmptyString /\ str_all is_word reg = true.
Proof.
  unfold reg_match_here. destruct s as [|c1 [|c2 s1]]; try discriminate.
  - destruct c1 as [[] [] [] [] [] [] [] []]; discriminate.
  - destruct c1 as [[] [] [] [] [] [] [] []]; try discriminate.
    destruct c2 as [[] [] [] [] [] [] [] []]; try discriminate.
    destruct (word_run s1) as [w r] eqn:Hrun.
    apply word_run_spec in Hrun as [-> Hall].
    destruct w as [|c w]; [discriminate|].
    destruct r as [|c3 r]; [discriminate|].
    destruct c3 as [[] [] [] [] [] [] [] []]; try discriminate.
    intros [= <- <-]. split; [|split; [discriminate | exact Hall]].
    change ("@<" +:+ String c w +:+ ">" +:+ r)
      with (String "@" (String "<" (String c w +:+ String ">" r))).
    reflexivity.
Qed.

(** X2.  When [reg_filter_re.search] finds the annotation at offset [c] with
    register [reg], the declaration is the [c] characters in front of it,
    then [@<], the register name, [>] and the rest; the register name is a
    non-empty run of word characters. *)
Theorem reg_search_decomposes (d : string) : forall c reg,
  reg_search d = Some (c, reg) ->
  exists rest,
    d = take_str c d +:+ "@<" +:+ reg +:+ ">" +:+ rest
    /\ String.length (take_str c d) = c
    /\ reg <> EmptyString
    /\ str_all is_word reg = true.
Proof.
  induction d as [|x d IH]; intros c reg; cbn [reg_search].
  - discriminate.
  - destruct (reg_match_here (String x d)) as [[reg' rest]|] eqn:Hhere.
    + intros [= <- <-]. apply reg_match_here_spec in Hhere as (Hd & Hne & Hall).
      exists rest. repeat split; assumption.
    + destruct (reg_search d) as [[i reg']|] eqn:Hs; [|discriminate].
      intros [= <- <-]. destruct (IH i reg' eq_refl) as (rest & Hd & Hlen & Hne & Hall).
      exists rest. cbn [take_str].
      change (String x (take_str i d) +:+ "@<" +:+ reg' +:+ ">" +:+ rest)
        with (String x (take_str i d +:+ "@<" +:+ reg' +:+ ">" +:+ rest)).
      rewrite <- Hd. simpl. rewrite Hlen. repeat split; assumption.
Qed.

Lemma reg_search_decomposes_witness :
  exists rest, "int Foo(int a@<eax>, int b);"
               = "int Foo(int a" +:+ "@<" +:+ "eax" +:+ ">" +:+ rest.
Proof.
  destruct (reg_search_decomposes "int Foo(int a@<eax>, int b);" 13 "eax" eq_refl)
    as (rest & Hd & _).
  exists rest. exact Hd.
Defined.

(** ** Symbols and their records *)

(** X3.  A record written by [Symbol.serialize] is read back by the
    constructor of every class as a symbol with the same declaration and the
    same address, negative addresses included; a numeric address in a record
    gives the same symbol as its [hex] string. *)
Theorem Symbol_init_serialize (k : class) (id : nat) (s : Symbol) (o : sym_record) (a : Z) :
  Symbol_serialize s = Ok o ->
  addr s = Some a ->
  Symbol_init k id o = Ok (mkSymbol id k (decl s) (Some a))
  /\ Symbol_init k id (mkRecord (decl s) (JInt a)) = Symbol_init k id o.
Proof.
  unfold Symbol_serialize, Symbol_init. intros Hser Ha. rewrite Ha in Hser.
  injection Hser as <-. simpl. rewrite int16_hex. split; reflexivity.
Qed.

Lemma Symbol_init_serialize_witness :
  Symbol_init Data 5 (mkRecord "int counter;" (JStr "-0x20"))
  = Ok (mkSymbol 5 Data "int counter;" (Some (-32)%Z)).
Proof.
  apply (Symbol_init_serialize Data 5 (mkSymbol 3 Data "int counter;" (Some (-32)%Z))
           (mkRecord "int counter;" (JStr "-0x20")) (-32)%Z); reflexivity.
Defined.

(** ** Thunk synthesis without libclang *)

(** X4.  Without libclang no thunk is synthesised: a declaration that fails
    an assertion stops there, and any other stops on the missing
    [clang.Index]. *)
Theorem gen_thunk_needs_clang (s : Symbol) :
  (exists msg, gen_thunk None s = Raise (AssertionError msg))
  \/ gen_thunk None s = Raise AttributeError.
Proof.
  unfold gen_thunk. destruct (reg_search (decl s)) as [[c reg]|]; [|left; eauto].
  destruct (negb (find (take_str c (decl s)) "," <? 0)%Z); [left; eauto|].
  destruct (negb (0 <? find (take_str c (decl s)) "(")%Z); [left; eauto|].
  right. reflexivity.
Qed.

(** ** The emitters at their edges *)

Lemma sorted_symbols_no_clang (l : list Symbol) :
  exists ss, sorted_symbols None l = Ok ss /\ ss ≡ₚ l.
Proof.
  destruct (rmapM_total (symbol_key None) l) as [ks Hks].
  { apply Forall_forall. intros s _. eexists; reflexivity. }
  destruct (sorted_symbols None l) as [ss|e] eqn:Hss.
  - exists ss. split; [reflexivity|]. apply (sorted_symbols_spec None l ss Hss).
  - unfold sorted_symbols in Hss. rewrite Hks in Hss. discriminate Hss.
Qed.

(** X5.  Without libclang the module-definition file can only be its banner:
    [build_def] succeeds, writing the banner alone, when every symbol is an
    annotated function (all are skipped), and otherwise stops on the missing
    [clang.Index] at the first symbol it has to write. *)
Theorem build_def_without_clang (kb : KnowledgeBase) :
  build_def None kb =
  if decide (Forall annotated_Function (symbols kb)) then Ok def_banner
  else Raise AttributeError.
Proof.
  unfold build_def.
  destruct (sorted_symbols_no_clang (symbols kb)) as (ss & -> & Hperm). cbn [rbind].
  destruct (filter (fun s => requires_reg_thunk s = false) ss) as [|x rest] eqn:Hf.
  - rewrite decide_True; [reflexivity|].
    rewrite <- Hperm. apply Forall_forall. intros s Hs.
    apply requires_reg_thunk_true. destruct (requires_reg_thunk s) eqn:Hreq; [reflexivity|].
    exfalso. eapply not_elem_of_nil. rewrite <- Hf. apply list_elem_of_filter. eauto.
  - rewrite decide_False; [reflexivity|].
    intros Hall. rewrite <- Hperm in Hall.
    assert (Hx : x ∈ filter (fun s => requires_reg_thunk s = false) ss) by (rewrite Hf; left).
    apply list_elem_of_filter in Hx as [Hreq Hx].
    rewrite Forall_forall in Hall. apply Hall, requires_reg_thunk_true in Hx. congruence.
Qed.

Lemma append_nil_r (s : string) : s +:+ EmptyString = s.
Proof.
  induction s as [|c s IH]; [reflexivity|].
  change (String c (s +:+ EmptyString) = String c s). rewrite IH. reflexivity.
Qed.

(** X6.  The header is written from the buckets alone: while no symbol is in
    a bucket, it is the banner, the empty section of the unattributed bucket
    and the footer, and the thunk file is empty, whatever [symbols] holds and
    with or without libclang. *)
Theorem build_header_without_buckets clang (kb : KnowledgeBase) :
  object_to_symbols kb = ∅ ->
  build_header clang kb
  = Ok (header_banner +:+ (section_comment kb None +:+ nl) +:+ header_footer, EmptyString).
Proof.
  intros Hm. unfold build_header, objs_sorted. rewrite Hm, map_to_list_empty.
  change (map Some (sorted_with String.ltb (omap id (map fst []))
                      (omap id (map fst (@nil (option string * list Symbol))))) ++ [None])
    with [@None string].
  cbn [rmapM]. unfold emit_section, bucket. rewrite Hm, lookup_empty.
  change (sorted_symbols clang (default [] None)) with (Ok (@nil Symbol)).
  cbn [rbind rmapM map fst snd concat_str fold_right].
  rewrite (append_nil_r (section_comment kb None +:+ EmptyString +:+ nl)).
  reflexivity.
Qed.

Lemma build_header_without_buckets_witness :
  build_header None demo_kb
  = Ok (header_banner +:+ ("// obj:? src:?" +:+ nl +:+ nl) +:+ header_footer, EmptyString).
Proof. apply (build_header_without_buckets None demo_kb). reflexivity. Defined.

(** ** The thunk file *)

Lemma concat_str_app (a b : list string) :
  concat_str (a ++ b) = concat_str a +:+ concat_str b.
Proof.
  induction a as [|x a IH]; [reflexivity|].
  change (x +:+ concat_str (a ++ b) = (x +:+ concat_str a) +:+ concat_str b).
  rewrite IH, append_assoc. reflexivity.
Qed.

Lemma emit_symbol_thunk clang (s : Symbol) out :
  emit_symbol clang s = Ok out ->
  (annotated_Function s /\ gen_thunk clang s = Ok (snd out))
  \/ (~ annotated_Function s /\ snd out = EmptyString).
Proof.
  unfold emit_symbol. destruct (cls s) eqn:Hc.
  - intros [= <-]. right. split; [|reflexivity]. intros [H _]. congruence.
  - intros [= <-]. right. split; [|reflexivity]. intros [H _]. congruence.
  - destruct (requires_reg_thunk s) eqn:Hreq.
    + destruct (gen_thunk clang s) as [t|e]; simpl; [|discriminate].
      intros [= <-]. left. split; [apply requires_reg_thunk_true, Hreq | reflexivity].
    + simpl. intros [= <-]. right. split; [|reflexivity].
      intros H. apply requires_reg_thunk_true in H. congruence.
Qed.

Lemma emit_symbols_thunks clang (ss : list Symbol) outs :
  Forall2 (fun s out => emit_symbol clang s = Ok out) ss outs ->
  exists ts, Forall2 (fun s t => gen_thunk clang s = Ok t) (filter annotated_Function ss) ts
             /\ concat_str (map snd outs) = concat_str ts.
Proof.
  induction 1 as [|s out ss outs Hs _ (ts & Hts & Heq)].
  - exists []. split; [constructor | reflexivity].
  - rewrite filter_cons.
    apply emit_symbol_thunk in Hs as [[Han Hgen]|[Han Hnil]].
    + rewrite decide_True by exact Han. exists (snd out :: ts).
      split; [constructor; assumption|].
      cbn [map concat_str fold_right]. fold (concat_str (map snd outs)). rewrite Heq.
      reflexivity.
    + rewrite decide_False by exact Han. exists ts. split; [exact Hts|].
      cbn [map concat_str fold_right]. fold (concat_str (map snd outs)).
      rewrite Hnil, Heq. reflexivity.
Qed.

Lemma emit_section_thunks clang (kb : KnowledgeBase) (o : option string) out :
  emit_section clang kb o = Ok out ->
  exists ss ts,
    fst out = section_text kb (o, ss)
    /\ ss ≡ₚ bucket (object_to_symbols kb) o
    /\ Forall2 (fun s t => gen_thunk clang s = Ok t) (filter annotated_Function ss) ts
    /\ snd out = concat_str ts.
Proof.
  intros Hout. destruct (emit_section_spec clang kb o out Hout) as (ss0 & Htext0 & _).
  unfold emit_section in Hout.
  destruct (sorted_symbols clang _) as [ss|e] eqn:Hss; simpl in Hout; [|discriminate].
  destruct (rmapM (emit_symbol clang) ss) as [outs|e] eqn:Houts; simpl in Hout; [|discriminate].
  injection Hout as <-. apply sorted_symbols_spec in Hss as [Hperm _].
  apply rmapM_Ok in Houts.
  destruct (emit_symbols_thunks clang ss outs Houts) as (ts & Hts & Heq).
  exists ss, ts. split; [|split; [exact Hperm | split; [exact Hts | exact Heq]]].
  unfold section_text; simpl. do 2 f_equal.
  clear -Houts. induction Houts as [|s out ss outs Hs _ IH]; simpl; [reflexivity|].
  rewrite (emit_symbol_line _ _ _ Hs), IH. reflexivity.
Qed.

(** X7.  The thunk file is the thunks of the annotated functions of the
    buckets, one each, in the order in which the header lists the sections
    and the symbols; no other symbol contributes to it. *)
Theorem build_header_thunks clang (kb : KnowledgeBase) header thunks :
  build_header clang kb = Ok (header, thunks) ->
  exists (secs : list (option string * list Symbol)) (ts : list string),
    header = header_banner +:+ concat_str (map (section_text kb) secs) +:+ header_footer
    /\ map fst secs = map Some (objs_sorted (object_to_symbols kb)) ++ [None]
    /\ Forall (fun sec => snd sec ≡ₚ bucket (object_to_symbols kb) (fst sec)) secs
    /\ Forall2 (fun s t => gen_thunk clang s = Ok t)
               (filter annotated_Function (concat (map snd secs))) ts
    /\ thunks = concat_str ts.
Proof.
  unfold build_header.
  destruct (rmapM (emit_section clang kb) _) as [outs|e] eqn:Houts; simpl; [|discriminate].
  intros [= <- <-]. apply rmapM_Ok in Houts.
  generalize dependent (map Some (objs_sorted (object_to_symbols kb)) ++ [None]).
  intros objs Houts.
  assert (H : exists (secs : list (option string * list Symbol)) (ts : list string),
             map (section_text kb) secs = map fst outs
             /\ map fst secs = objs
             /\ Forall (fun sec => snd sec ≡ₚ bucket (object_to_symbols kb) (fst sec)) secs
             /\ Forall2 (fun s t => gen_thunk clang s = Ok t)
                        (filter annotated_Function (concat (map snd secs))) ts
             /\ concat_str (map snd outs) = concat_str ts).
  { induction Houts as [|o out objs outs Ho _ (secs & ts & Ht & Hn & Hp & Hg & Hc)].
    - exists [], []. repeat split; constructor.
    - apply emit_section_thunks in Ho as (ss & ts0 & Htext & Hperm & Hgen & Hsnd).
      exists ((o, ss) :: secs), (ts0 ++ ts). cbn [map fst snd concat].
      rewrite Ht, Hn, Htext, filter_app. split; [reflexivity|]. split; [reflexivity|].
      split; [constructor; assumption|]. split; [apply Forall2_app; assumption|].
      cbn [concat_str fold_right]. fold (concat_str (map snd outs)).
      rewrite Hc, Hsnd, concat_str_app. reflexivity. }
  destruct H as (secs & ts & Ht & Hn & Hp & Hg & Hc).
  exists secs, ts. rewrite Ht. repeat split; assumption.
Qed.

Lemma build_header_thunks_witness :
  exists header ts,
    build_header (Some demo_clang) (finalize_attribution demo_attributed)
    = Ok (header, concat_str ts).
Proof.
  destruct (build_header (Some demo_clang) (finalize_attribution demo_attributed))
    as [[header thunks]|e] eqn:Hb; [|vm_compute in Hb; discriminate Hb].
  destruct (build_header_thunks (Some demo_clang) (finalize_attribution demo_attributed)
              header thunks Hb) as (secs & ts & _ & _ & _ & _ & ->).
  exists header, ts. reflexivity.
Defined.

(** ** The order of the module-definition file *)

Lemma sorted_symbols_sorted clang (l ss : list Symbol) :
  sorted_symbols clang l = Ok ss ->
  ss ≡ₚ l /\ StronglySorted (key_ordered clang) ss.
Proof.
  unfold sorted_symbols.
  destruct (rmapM (symbol_key clang) l) as [ks|e] eqn:Hks; simpl; [|discriminate].
  intros [= <-]. apply rmapM_Ok in Hks.
  set (key := fun s => match symbol_key clang s with
                       | Ok k => k
                       | Raise _ => (false, EmptyString)
                       end).
  assert (Hres : Forall (fun s => symbol_key clang s = Ok (key s)) l).
  { clear -Hks. induction Hks as [|s k l ks Hs _ IH]; constructor; [|exact IH].
    unfold key. rewrite Hs. reflexivity. }
  assert (Hkey : Forall2 (fun s k => key s = k) l ks).
  { eapply Forall2_impl; [exact Hks|]. intros s k Hs. unfold key. rewrite Hs. reflexivity. }
  destruct (sorted_with_spec key_lt key_lt_asym key_le_trans key ks l Hkey) as [Hperm Hsorted].
  split; [exact Hperm|].
  rewrite <- Hperm in Hres. clear Hperm Hkey Hks.
  revert Hres Hsorted. generalize (sorted_with key_lt ks l). intros ss Hres Hsorted.
  induction Hsorted as [|x ss Hs IH Hx]; [constructor|].
  inversion Hres as [|? ? Hkx Hkss]; subst.
  constructor; [apply IH, Hkss|].
  rewrite Forall_forall in Hx, Hkss. apply Forall_forall. intros y Hy.
  exists (key x), (key y). split; [exact Hkx|]. split; [apply Hkss, Hy | apply Hx, Hy].
Qed.

Lemma sorted_symbols_keys clang (l ss : list Symbol) :
  sorted_symbols clang l = Ok ss -> Forall (fun s => is_Ok (symbol_key clang s)) l.
Proof.
  unfold sorted_symbols.
  destruct (rmapM (symbol_key clang) l) as [ks|e] eqn:Hks; simpl; [|discriminate].
  intros _. apply rmapM_Ok in Hks.
  induction Hks as [|s k l ks Hs _ IH]; [constructor|].
  constructor; [exists k; exact Hs | exact IH].
Qed.

Lemma key_lt_antisym (a b : bool * string) :
  key_lt a b = false -> key_lt b a = false -> a = b.
Proof.
  destruct a as [x n], b as [y m]. unfold key_lt. cbn [fst snd].
  destruct x, y; cbn [Bool.eqb negb]; try discriminate.
  - intros H1 H2. f_equal. apply String.leb_antisym; apply string_ltb_leb; assumption.
  - intros H1 H2. f_equal. apply String.leb_antisym; apply string_ltb_leb; assumption.
Qed.

(** X8.  When no two symbols have the same sort key (class and resolved
    name), the module-definition file does not depend on the order in which
    the symbols were added: a knowledge base holding the same symbols in
    another order gives the same file. *)
Theorem build_def_order_independent clang (kb kb' : KnowledgeBase) (text : string) :
  symbols kb ≡ₚ symbols kb' ->
  (forall s1 s2, s1 ∈ symbols kb -> s2 ∈ symbols kb ->
                 symbol_key clang s1 = symbol_key clang s2 -> s1 = s2) ->
  build_def clang kb = Ok text ->
  build_def clang kb' = Ok text.
Proof.
  intros Hperm Hdistinct. unfold build_def.
  destruct (sorted_symbols clang (symbols kb)) as [ss|e] eqn:Hss; cbn [rbind]; [|discriminate].
  pose proof (sorted_symbols_sorted clang _ _ Hss) as [Hp Hsorted].
  assert (Hkeys : Forall (fun s => is_Ok (symbol_key clang s)) (symbols kb')).
  { rewrite <- Hperm. apply (sorted_symbols_keys clang _ _ Hss). }
  destruct (rmapM_total _ _ Hkeys) as [ks' Hks'].
  destruct (sorted_symbols clang (symbols kb')) as [ss'|e] eqn:Hss'.
  2:{ unfold sorted_symbols in Hss'. rewrite Hks' in Hss'. discriminate Hss'. }
  cbn [rbind]. pose proof (sorted_symbols_sorted clang _ _ Hss') as [Hp' Hsorted'].
  assert (ss = ss') as <-; [|tauto].
  apply (StronglySorted_unique_strong (key_ordered clang)); try assumption.
  - intros x1 x2 Hx1 Hx2 (k1 & k2 & Hk1 & Hk2 & Hle) (k2' & k1' & Hk2' & Hk1' & Hle').
    rewrite Hk1 in Hk1'. rewrite Hk2 in Hk2'. injection Hk1' as <-. injection Hk2' as <-.
    apply Hdistinct.
    + rewrite <- Hp. exact Hx1.
    + rewrite Hperm, <- Hp'. exact Hx2.
    + rewrite Hk1, Hk2. f_equal. apply key_lt_antisym; assumption.
  - rewrite Hp, Hp'. exact Hperm.
Qed.

Lemma build_def_order_independent_witness :
  build_def (Some demo_clang) demo_kb_swapped
  = Ok (def_banner +:+ (tab +:+ "_counter DATA" +:+ nl) +:+ (tab +:+ "_Baz" +:+ nl)).
Proof.
  apply (build_def_order_independent (Some demo_clang) demo_kb demo_kb_swapped).
  - apply perm_swap.
  - intros s1 s2 H1 H2 Hk.
    repeat (apply elem_of_cons in H1 as [->|H1]); try (inversion H1; fail);
      repeat (apply elem_of_cons in H2 as [->|H2]); try (inversion H2; fail);
      try reflexivity; vm_compute in Hk; discriminate Hk.
  - reflexivity.
Defined.

(** ** The attribution loop, once more *)

Lemma finalize_fold_symbols (l : list Symbol) : forall kb : KnowledgeBase,
  symbols (fold_left finalize_step l kb) = symbols kb
  /\ (forall s, attributed kb s -> attributed (fold_left finalize_step l kb) s)
  /\ (forall s, s ∈ l -> attributed (fold_left finalize_step l kb) s).
Proof.
  induction l as [|x l IH]; intros kb; cbn [fold_left].
  - repeat split; [tauto | intros s Hs; inversion Hs].
  - destruct (IH (finalize_step kb x)) as (Hsy & Hmono & Hin).
    assert (Hstep : symbols (finalize_step kb x) = symbols kb
                    /\ (forall s, attributed kb s -> attributed (finalize_step kb x) s)
                    /\ attributed (finalize_step kb x) x).
    { destruct (decide (attributed kb x)) as [Hx|Hx].
      - rewrite finalize_step_attributed by exact Hx. tauto.
      - rewrite finalize_step_fresh by exact Hx. unfold attributed. simpl.
        repeat split.
        + intros s Hs. destruct (decide (ident s = ident x)) as [->|Hne].
          * rewrite lookup_insert_eq. eauto.
          * rewrite lookup_insert_ne by congruence. exact Hs.
        + rewrite lookup_insert_eq. eauto. }
    destruct Hstep as (Hsy1 & Hmono1 & Hx1).
    split; [congruence|]. split.
    + intros s Hs. apply Hmono, Hmono1, Hs.
    + intros s Hs. apply elem_of_cons in Hs as [->|Hs]; [apply Hmono, Hx1 | apply Hin, Hs].
Qed.

Lemma finalize_fold_idle (l : list Symbol) (kb : KnowledgeBase) :
  Forall (attributed kb) l -> fold_left finalize_step l kb = kb.
Proof.
  induction 1 as [|s l Hs _ IH]; cbn [fold_left]; [reflexivity|].
  rewrite finalize_step_attributed by exact Hs. exact IH.
Qed.

(** X9.  The attribution loop of [serialize] is idempotent, from any state:
    after it every symbol of [symbols] is a key of [symbol_to_object], so a
    second run changes nothing. *)
Theorem finalize_attribution_idempotent (kb : KnowledgeBase) :
  Forall (attributed (finalize_attribution kb)) (symbols (finalize_attribution kb))
  /\ finalize_attribution (finalize_attribution kb) = finalize_attribution kb.
Proof.
  destruct (finalize_fold_symbols (symbols kb) kb) as (Hsy & _ & Hin).
  fold (finalize_attribution kb) in Hsy, Hin.
  assert (Hall : Forall (attributed (finalize_attribution kb))
                        (symbols (finalize_attribution kb))).
  { rewrite Hsy. apply Forall_forall. exact Hin. }
  split; [exact Hall|].
  unfold finalize_attribution at 1. apply finalize_fold_idle, Hall.
Qed.

(** X10.  What the attribution loop does to a state that lists no object
    twice: the symbols without attribution are appended, in the order of
    [symbols], to the bucket of [None] and recorded under [None]; the other
    buckets, the attributions already made, [symbols] and the source mapping
    are left as they were. *)
Theorem finalize_attribution_effect (kb : KnowledgeBase) :
  NoDup (map ident (symbols kb)) ->
  let kb' := finalize_attribution kb in
  symbols kb' = symbols kb
  /\ object_to_source kb' = object_to_source kb
  /\ bucket (object_to_symbols kb') None
     = bucket (object_to_symbols kb) None ++ filter (fun s => ~ attributed kb s) (symbols kb)
  /\ (forall o, o <> None -> object_to_symbols kb' !! o = object_to_symbols kb !! o)
  /\ (forall s, s ∈ symbols kb ->
        symbol_to_object kb' !! ident s
        = Some (default None (symbol_to_object kb !! ident s))).
Proof.
  intros Hnd kb'.
  destruct (finalize_fold_spec (symbols kb) kb Hnd) as (H1 & H2 & H3 & H4 & H5 & _).
  split; [exact H1|]. split; [exact H2|]. split; [exact H5|]. split; [exact H4|].
  intros s Hs. unfold kb', finalize_attribution. rewrite H3.
  destruct (symbol_to_object kb !! ident s); [reflexivity|].
  rewrite decide_True; [reflexivity|].
  apply list_elem_of_In, in_map, list_elem_of_In, Hs.
Qed.

Lemma finalize_attribution_effect_witness :
  bucket (object_to_symbols (finalize_attribution demo_attributed)) None
  = [demo_foo; demo_bar].
Proof.
  refine (eq_trans (proj1 (proj2 (proj2 (finalize_attribution_effect demo_attributed _)))) _).
  - vm_compute. repeat constructor; intros H;
      repeat (apply elem_of_cons in H as [H|H]; [discriminate H|]); inversion H.
  - vm_compute. reflexivity.
Defined.

(** ** What [serialize] writes, and when it fails *)

Lemma rmapM_Raise {A B} (f : A -> result B) (l : list A) e :
  rmapM f l = Raise e -> exists x, x ∈ l /\ f x = Raise e.
Proof.
  induction l as [|x l IH]; simpl; [discriminate|].
  destruct (f x) as [y|e'] eqn:Hx; simpl.
  - destruct (rmapM f l) as [ys|e'] eqn:Hl; simpl; [discriminate|].
    intros [= ->]. destruct (IH eq_refl) as (z & Hz & Hfz).
    exists z. split; [right; exact Hz | exact Hfz].
  - intros [= ->]. exists x. split; [left | exact Hx].
Qed.

Lemma rmapM_Symbol_serialize_Ok (l : list Symbol) rs :
  rmapM Symbol_serialize l = Ok rs ->
  rs = map record_of l /\ Forall (fun s => is_Some (addr s)) l.
Proof.
  intros H. apply rmapM_Ok in H.
  induction H as [|s r l rs Hs _ [-> IH]]; [split; [reflexivity | constructor]|].
  unfold Symbol_serialize in Hs. destruct (addr s) as [a|] eqn:Ha; [|discriminate Hs].
  injection Hs as <-. split.
  - simpl. unfold record_of at 2. rewrite Ha. reflexivity.
  - constructor; [rewrite Ha; eauto | exact IH].
Qed.

Lemma sorted_by_addr_Ok (l l' : list Symbol) :
  sorted_by_addr l = Ok l' ->
  l' ≡ₚ l
  /\ StronglySorted (fun s1 s2 => is_Some (addr s1) -> is_Some (addr s2) -> addr_le s1 s2) l'.
Proof.
  assert (Hgen : (ks <-- rmapM addr_key l ;; Ok (sorted_with Z.ltb ks l)) = Ok l' ->
                 l' ≡ₚ l
                 /\ StronglySorted
                      (fun s1 s2 => is_Some (addr s1) -> is_Some (addr s2) -> addr_le s1 s2) l').
  { destruct (rmapM addr_key l) as [ks|e] eqn:Hks; simpl; [|discriminate].
    intros [= <-]. apply rmapM_Ok in Hks.
    assert (Hkey : Forall2 (fun s k => default 0%Z (addr s) = k) l ks).
    { eapply Forall2_impl; [exact Hks|]. intros s k. unfold addr_key.
      destruct (addr s); [intros [= <-]; reflexivity | discriminate]. }
    destruct (sorted_with_spec Z.ltb Z_ltb_asym Z_le_trans
                (fun s => default 0%Z (addr s)) ks l Hkey) as [Hperm Hsorted].
    split; [exact Hperm|].
    eapply StronglySorted_weaken; [|exact Hsorted].
    intros x y Hxy [a1 Ha1] [a2 Ha2]. exists a1, a2. cbn beta in Hxy.
    rewrite Ha1, Ha2 in Hxy. simpl in Hxy. split; [exact Ha1|]. split; [exact Ha2 | lia]. }
  unfold sorted_by_addr. destruct l as [|s [|s' l]]; [| |exact Hgen].
  - intros [= <-]. split; [reflexivity | constructor].
  - intros [= <-]. split; [reflexivity | repeat constructor].
Qed.

Lemma sorted_by_addr_Raise (l : list Symbol) e :
  sorted_by_addr l = Raise e -> e = TypeError /\ exists s, s ∈ l /\ addr s = None.
Proof.
  assert (Hgen : (ks <-- rmapM addr_key l ;; Ok (sorted_with Z.ltb ks l)) = Raise e ->
                 e = TypeError /\ exists s, s ∈ l /\ addr s = None).
  { destruct (rmapM addr_key l) as [ks|e'] eqn:Hks; simpl; [discriminate|].
    intros [= ->]. apply rmapM_Raise in Hks as (s & Hs & Hk).
    unfold addr_key in Hk. destruct (addr s) eqn:Ha; [discriminate Hk|].
    injection Hk as <-. eauto. }
  unfold sorted_by_addr. destruct l as [|s [|s' l]]; [discriminate | discriminate | exact Hgen].
Qed.

Lemma nonempty_not_nil {A} (l : list A) : nonempty l <> Some [].
Proof. destruct l; discriminate. Qed.

Lemma addr_sorted_filter (P : Symbol -> Prop) `{!forall s, Decision (P s)} (l : list Symbol) :
  StronglySorted (fun s1 s2 => is_Some (addr s1) -> is_Some (addr s2) -> addr_le s1 s2) l ->
  Forall (fun s => is_Some (addr s)) (filter P l) ->
  StronglySorted addr_le (filter P l).
Proof.
  intros Hs Hall. apply (StronglySorted_filter_list _ P) in Hs.
  revert Hall. induction Hs as [|x l' Hs IH Hx]; intros Hall; [constructor|].
  inversion Hall as [|? ? Hax Hal]; subst.
  constructor; [apply IH, Hal|].
  rewrite Forall_forall in Hx, Hal. apply Forall_forall. intros y Hy.
  apply Hx; [exact Hy | exact Hax | apply Hal, Hy].
Qed.

Lemma serialize_object_Ok (kb : KnowledgeBase) (o : option string) r :
  serialize_object kb o = Ok r ->
  match r with
  | None => bucket (object_to_symbols kb) o = []
  | Some e => bucket (object_to_symbols kb) o <> []
              /\ o_name e = o
              /\ o_source e = object_to_source kb !! o
              /\ entry_of_bucket e (bucket (object_to_symbols kb) o)
  end.
Proof.
  unfold serialize_object.
  destruct (bucket (object_to_symbols kb) o) as [|s0 rest] eqn:Hb.
  - intros [= <-]. reflexivity.
  - assert (Hne : bucket (object_to_symbols kb) o <> []) by (rewrite Hb; discriminate).
    rewrite <- Hb. clear Hb s0 rest.
    destruct (sorted_by_addr _) as [l'|e] eqn:Hsort; cbn [rbind]; [|discriminate].
    destruct (rmapM Symbol_serialize (filter (fun s => cls s = Data) l'))
      as [data|e] eqn:Hdata; cbn [rbind]; [|discriminate].
    destruct (rmapM Symbol_serialize (filter (fun s => cls s = Function) l'))
      as [funcs|e] eqn:Hfuncs; cbn [rbind]; [|discriminate].
    intros [= <-]. apply sorted_by_addr_Ok in Hsort as [Hperm Hsorted].
    apply rmapM_Symbol_serialize_Ok in Hdata as [-> Hda], Hfuncs as [-> Hfa].
    cbn [o_name o_source]. split; [exact Hne|].
    split; [reflexivity|]. split; [reflexivity|].
    exists (filter (fun s => cls s = Data) l'), (filter (fun s => cls s = Function) l').
    cbn [o_data o_functions].
    split; [rewrite Hperm; reflexivity|]. split; [rewrite Hperm; reflexivity|].
    split; [apply addr_sorted_filter; assumption|].
    split; [apply addr_sorted_filter; assumption|].
    split; [reflexivity|]. split; [reflexivity|].
    split; apply nonempty_not_nil.
Qed.

(** X11.  The snapshot written by [serialize] has one entry per object whose
    bucket is not empty after the attribution loop, in the lexicographic
    order of the object names with the unattributed bucket last; an entry
    carries the source of its object when one is known, its [Data] symbols
    and its [Function] symbols each by ascending address, and never an empty
    [data] or [functions] list. *)
Theorem serialize_output_format (kb kb1 : KnowledgeBase) (out : list obj_record) :
  serialize kb = Ok (kb1, out) ->
  let kbf := finalize_attribution kb in
  map o_name out
  = filter (fun o => bucket (object_to_symbols kbf) o <> [])
           (map Some (objs_sorted (object_to_symbols kbf)) ++ [None])
  /\ StronglySorted (fun a b => String.leb a b = true) (objs_sorted (object_to_symbols kbf))
  /\ Forall (fun e => o_source e = object_to_source kbf !! o_name e
                      /\ entry_of_bucket e (bucket (object_to_symbols kbf) (o_name e))) out.
Proof.
  intros Hser. set (kbf := finalize_attribution kb).
  unfold serialize in Hser. cbv zeta in Hser. fold kbf in Hser.
  destruct (rmapM (serialize_object kbf) _) as [entries|e] eqn:Hent; cbn [rbind] in Hser;
    [|discriminate Hser].
  injection Hser as _ <-. apply rmapM_Ok in Hent.
  split; [|split; [apply objs_sorted_spec|]].
  - induction Hent as [|o r K entries Ho _ IH]; [reflexivity|].
    rewrite filter_cons. apply serialize_object_Ok in Ho.
    destruct r as [e|].
    + destruct Ho as (Hne & Hname & _). rewrite decide_True by exact Hne.
      change (omap id (Some e :: entries)) with (e :: omap id entries).
      cbn [map]. rewrite Hname, IH. reflexivity.
    + rewrite decide_False by (intros Hne; apply Hne, Ho). exact IH.
  - induction Hent as [|o r K entries Ho _ IH]; [constructor|].
    apply serialize_object_Ok in Ho. destruct r as [e|]; [|exact IH].
    change (omap id (Some e :: entries)) with (e :: omap id entries).
    destruct Ho as (_ & Hname & Hsrc & Hentry). constructor; [|exact IH].
    rewrite Hname. split; assumption.
Qed.

Lemma serialize_output_format_witness :
  exists kb1 out,
    serialize demo_attributed = Ok (kb1, out)
    /\ map o_name out = [Some "a.obj"; None].
Proof.
  destruct (serialize demo_attributed) as [[kb1 out]|e] eqn:Hs;
    [|vm_compute in Hs; discriminate Hs].
  exists kb1, out. split; [reflexivity|].
  rewrite (proj1 (serialize_output_format demo_attributed kb1 out Hs)).
  vm_compute. reflexivity.
Defined.

Lemma serialize_outcome_cases (kb : KnowledgeBase) :
  let kbf := finalize_attribution kb in
  ((forall o s, s ∈ bucket (object_to_symbols kbf) o -> is_Some (addr s)) ->
   is_Ok (serialize kb))
  /\ (forall e, serialize kb = Raise e ->
        e = TypeError
        /\ exists o s, s ∈ bucket (object_to_symbols kbf) o /\ addr s = None).
Proof.
  intros kbf. unfold serialize. cbv zeta. fold kbf. split.
  - intros Hall.
    destruct (rmapM_total (serialize_object kbf)
                (map Some (objs_sorted (object_to_symbols kbf)) ++ [None])) as [entries Hent].
    + apply Forall_forall. intros o _.
      destruct (serialize_object_spec kbf o) as (l' & _ & Hser).
      * apply Forall_forall. intros s Hs. apply (Hall o s Hs).
      * rewrite Hser. eexists; reflexivity.
    + rewrite Hent. eexists; reflexivity.
  - intros e.
    destruct (rmapM (serialize_object kbf) _) as [entries|e'] eqn:Hent; cbn [rbind];
      [discriminate|].
    intros [= ->]. apply rmapM_Raise in Hent as (o & _ & Ho).
    unfold serialize_object in Ho.
    destruct (bucket (object_to_symbols kbf) o) as [|s0 rest] eqn:Hb; [discriminate Ho|].
    rewrite <- Hb in Ho.
    destruct (sorted_by_addr _) as [l'|e'] eqn:Hsort; cbn [rbind] in Ho.
    + apply sorted_by_addr_Ok in Hsort as [Hperm _].
      assert (Hser : forall P `{!forall s, Decision (P s)} e',
                rmapM Symbol_serialize (filter P l') = Raise e' ->
                e' = TypeError
                /\ exists o s, s ∈ bucket (object_to_symbols kbf) o /\ addr s = None).
      { intros P HP e' Hr. apply rmapM_Raise in Hr as (s & Hs & Hr).
        unfold Symbol_serialize in Hr. destruct (addr s) eqn:Ha; [discriminate Hr|].
        injection Hr as <-. split; [reflexivity|]. exists o, s.
        apply list_elem_of_filter in Hs as [_ Hs]. rewrite Hperm in Hs. eauto. }
      destruct (rmapM Symbol_serialize (filter (fun s => cls s = Data) l'))
        as [data|e'] eqn:Hdata; cbn [rbind] in Ho.
      * destruct (rmapM Symbol_serialize (filter (fun s => cls s = Function) l'))
          as [funcs|e'] eqn:Hfuncs; cbn [rbind] in Ho; [discriminate Ho|].
        injection Ho as <-. eapply Hser, Hfuncs.
      * injection Ho as <-. eapply Hser, Hdata.
    + injection Ho as <-. apply sorted_by_addr_Raise in Hsort as (-> & s & Hs & Ha).
      split; [reflexivity|]. eauto.
Qed.

(** X12.  [serialize] succeeds whenever every symbol held by a bucket after
    the attribution loop has an address; when it fails, it is with
    [TypeError], and some symbol of some bucket has no address. *)
Theorem serialize_outcome (kb : KnowledgeBase) :
  let kbf := finalize_attribution kb in
  ((forall o s, s ∈ bucket (object_to_symbols kbf) o -> is_Some (addr s)) ->
   is_Ok (serialize kb))
  /\ (forall e, serialize kb = Raise e ->
        e = TypeError
        /\ exists o s, s ∈ bucket (object_to_symbols kbf) o /\ addr s = None).
Proof.
  intros kbf. unfold serialize. cbv zeta. fold kbf. split.
  - intros Hall.
    destruct (rmapM_total (serialize_object kbf)
                (map Some (objs_sorted (object_to_symbols kbf)) ++ [None])) as [entries Hent].
    + apply Forall_forall. intros o _.
      destruct (serialize_object_spec kbf o) as (l' & _ & Hser).
      * apply Forall_forall. intros s Hs. apply (Hall o s Hs).
      * rewrite Hser. eexists; reflexivity.
    + rewrite Hent. eexists; reflexivity.
  - intros e.
    destruct (rmapM (serialize_object kbf) _) as [entries|e'] eqn:Hent; cbn [rbind];
      [discriminate|].
    intros [= ->]. apply rmapM_Raise in Hent as (o & _ & Ho).
    unfold serialize_object in Ho.
    destruct (bucket (object_to_symbols kbf) o) as [|s0 rest] eqn:Hb; [discriminate Ho|].
    rewrite <- Hb in Ho.
    destruct (sorted_by_addr _) as [l'|e'] eqn:Hsort; cbn [rbind] in Ho.
    + apply sorted_by_addr_Ok in Hsort as [Hperm _].
      assert (Hser : forall P `{!forall s, Decision (P s)} e',
                rmapM Symbol_serialize (filter P l') = Raise e' ->
                e' = TypeError
                /\ exists o s, s ∈ bucket (object_to_symbols kbf) o /\ addr s = None).
      { intros P HP e' Hr. apply rmapM_Raise in Hr as (s & Hs & Hr).
        unfold Symbol_serialize in Hr. destruct (addr s) eqn:Ha; [discriminate Hr|].
        injection Hr as <-. split; [reflexivity|]. exists o, s.
        apply list_elem_of_filter in Hs as [_ Hs]. rewrite Hperm in Hs. eauto. }
      destruct (rmapM Symbol_serialize (filter (fun s => cls s = Data) l'))
        as [data|e'] eqn:Hdata; cbn [rbind] in Ho.
      * destruct (rmapM Symbol_serialize (filter (fun s => cls s = Function) l'))
          as [funcs|e'] eqn:Hfuncs; cbn [rbind] in Ho; [discriminate Ho|].
        injection Ho as <-. eapply Hser, Hfuncs.
      * injection Ho as <-. eapply Hser, Hdata.
    + injection Ho as <-. apply sorted_by_addr_Raise in Hsort as (-> & s & Hs & Ha).
      split; [reflexivity|]. eauto.
Qed.

Lemma serialize_outcome_witness :
  is_Ok (serialize demo_attributed)
  /\ serialize demo_unlocated = Raise TypeError.
Proof.
  split.
  - apply (proj1 (serialize_outcome demo_attributed)).
    intros o s Hs. apply elem_of_bucket in Hs as (l & Hm & Hl).
    assert (Hin : s ∈ bucketed (object_to_symbols (finalize_attribution demo_attributed)))
      by (apply elem_of_bucketed; eauto).
    vm_compute in Hin.
    repeat (apply elem_of_cons in Hin as [->|Hin]; [eexists; reflexivity|]).
    inversion Hin.
  - destruct (serialize demo_unlocated) as [[kb1 out]|e] eqn:Hs;
      [vm_compute in Hs; discriminate Hs|].
    destruct (proj2 (serialize_outcome demo_unlocated) e Hs) as [-> _]. reflexivity.
Defined.

(** ** Saving twice *)

Lemma rmapM_ext {A B} (f g : A -> result B) (l : list A) :
  (forall x, f x = g x) -> rmapM f l = rmapM g l.
Proof.
  intros H. induction l as [|x l IH]; simpl; [reflexivity|]. rewrite H, IH. reflexivity.
Qed.

Lemma serialize_object_ext (kb kb' : KnowledgeBase) (o : option string) :
  bucket (object_to_symbols kb) o = bucket (object_to_symbols kb') o ->
  object_to_source kb = object_to_source kb' ->
  serialize_object kb o = serialize_object kb' o.
Proof. intros Hb Hs. unfold serialize_object. rewrite Hb, Hs. reflexivity. Qed.

Lemma objs_sorted_touch (m : gmap (option string) (list Symbol)) :
  objs_sorted (touch None m) = objs_sorted m.
Proof.
  destruct (objs_sorted_spec (touch None m)) as (Hs1 & Hn1 & Hd1).
  destruct (objs_sorted_spec m) as (Hs2 & Hn2 & Hd2).
  apply (StronglySorted_unique_strong (fun a b => String.leb a b = true)); try assumption.
  - intros x y _ _. apply String.leb_antisym.
  - apply NoDup_Permutation; try assumption.
    intros n. rewrite Hd1, Hd2. unfold touch. rewrite lookup_insert_ne by discriminate.
    reflexivity.
Qed.

Lemma touch_touch (m : gmap (option string) (list Symbol)) o :
  touch o (touch o m) = touch o m.
Proof.
  unfold touch at 1. rewrite bucket_touch. unfold touch. apply insert_insert_eq.
Qed.

(** X13.  Saving is idempotent: a second [serialize], on the state the first
    one left, writes the same snapshot and leaves that state unchanged. *)
Theorem serialize_idempotent (kb kb1 : KnowledgeBase) (out : list obj_record) :
  serialize kb = Ok (kb1, out) -> serialize kb1 = Ok (kb1, out).
Proof.
  intros Hser. set (kbf := finalize_attribution kb).
  unfold serialize in Hser. cbv zeta in Hser. fold kbf in Hser.
  destruct (rmapM (serialize_object kbf) _) as [entries|e] eqn:Hent; cbn [rbind] in Hser;
    [|discriminate Hser].
  injection Hser as <- <-.
  set (kb1 := set_object_to_symbols (touch None (object_to_symbols kbf)) kbf).
  assert (Hidle : finalize_attribution kb1 = kb1).
  { unfold finalize_attribution. apply finalize_fold_idle.
    destruct (finalize_fold_symbols (symbols kb) kb) as (Hsy & _ & Hin).
    fold (finalize_attribution kb) in Hsy, Hin. fold kbf in Hsy, Hin.
    change (symbols kb1) with (symbols kbf). rewrite Hsy.
    apply Forall_forall. intros s Hs. apply (Hin s Hs). }
  unfold serialize. cbv zeta. rewrite Hidle.
  change (object_to_symbols kb1) with (touch None (object_to_symbols kbf)).
  rewrite objs_sorted_touch, touch_touch.
  rewrite (rmapM_ext (serialize_object kb1) (serialize_object kbf)).
  - rewrite Hent. cbn [rbind]. f_equal.
  - intros o. apply serialize_object_ext; [|reflexivity].
    change (object_to_symbols kb1) with (touch None (object_to_symbols kbf)).
    apply bucket_touch.
Qed.

Lemma serialize_idempotent_witness :
  exists kb1 out, serialize demo_attributed = Ok (kb1, out)
                  /\ serialize kb1 = Ok (kb1, out).
Proof.
  destruct (serialize demo_attributed) as [[kb1 out]|e] eqn:Hs;
    [|vm_compute in Hs; discriminate Hs].
  exists kb1, out. split; [reflexivity|].
  apply (serialize_idempotent demo_attributed kb1 out Hs).
Defined.

(** ** What [deserialize] builds *)

(** X14.  Without the truth hook, a load leaves a state in which no symbol
    object is listed twice, every symbol is attributed, the buckets together
    hold exactly the symbols, each in the bucket of the object it is
    attributed to, and the attribution loop of a following [serialize] finds
    nothing to do. *)
Theorem deserialize_attribution clang (objects : list obj_record)
  (kb : KnowledgeBase) (lg : list log_record) :
  deserialize clang None objects = Ok (kb, lg) ->
  NoDup (map ident (symbols kb))
  /\ Forall (attributed kb) (symbols kb)
  /\ bucketed (object_to_symbols kb) ≡ₚ symbols kb
  /\ buckets_attributed kb
  /\ finalize_attribution kb = kb.
Proof.
  intros Hload. apply deserialize_consistent in Hload as ([Hnd Hb] & Hba & Hattr).
  split; [exact Hnd|]. split; [exact Hattr|]. split; [|split; [exact Hba|]].
  - rewrite Hb. clear -Hattr. induction Hattr as [|s l Hs _ IH]; [reflexivity|].
    rewrite filter_cons, decide_True by exact Hs. constructor. exact IH.
  - apply finalize_fold_idle, Hattr.
Qed.

Lemma deserialize_attribution_witness :
  exists kb lg,
    deserialize (Some demo_clang) None demo_snapshot_distinct = Ok (kb, lg)
    /\ finalize_attribution kb = kb.
Proof.
  destruct (deserialize (Some demo_clang) None demo_snapshot_distinct)
    as [[kb lg]|e] eqn:Hload; [|vm_compute in Hload; discriminate Hload].
  exists kb, lg. split; [reflexivity|].
  apply (deserialize_attribution (Some demo_clang) demo_snapshot_distinct kb lg Hload).
Defined.

Lemma Symbol_init_fields (k : class) (n : nat) (o : sym_record) (s : Symbol) :
  Symbol_init k n o = Ok s -> ident s = n /\ cls s = k /\ decl s = r_decl o.
Proof.
  unfold Symbol_init.
  destruct (match r_addr o with
            | JNone => Ok None
            | JStr t => z <-- int16 t;; Ok (Some z)
            | JInt z => Ok (Some z)
            end); simpl; [|discriminate].
  intros [= <-]. repeat split.
Qed.

Lemma new_symbols_built (k : class) (records : list sym_record) : forall n l,
  new_symbols k n records = Ok l ->
  Forall2 built_from l (map (pair k) records)
  /\ Forall (fun s => cls s = k) l.
Proof.
  induction records as [|o rest IH]; intros n l; simpl.
  - intros [= <-]. split; constructor.
  - destruct (Symbol_init k n o) as [s|e] eqn:Hs; simpl; [|discriminate].
    destruct (new_symbols k (S n) rest) as [ss|e] eqn:Hss; simpl; [|discriminate].
    intros [= <-]. destruct (IH _ _ Hss) as [Hb Hc].
    pose proof (Symbol_init_fields _ _ _ _ Hs) as (Hid & Hcls & _).
    split; constructor; try assumption.
    unfold built_from. cbn [fst snd]. rewrite Hid. exact Hs.
Qed.

Lemma attribute_fold_symbols clang o (l : list Symbol) : forall kb0 kb' : KnowledgeBase,
  rfoldM (attribute_symbol clang o) l kb0 = Ok kb' -> symbols kb' = symbols kb0.
Proof.
  induction l as [|s l IH]; intros kb0 kb'; cbn [rfoldM].
  - intros [= <-]. reflexivity.
  - destruct (attribute_symbol clang o kb0 s) as [kb1|e] eqn:Hstep; cbn [rbind]; [|discriminate].
    intros Hfold. apply attribute_symbol_buckets in Hstep as (Hsy & _).
    rewrite (IH _ _ Hfold). exact Hsy.
Qed.

Lemma load_object_symbols clang (kb kb' : KnowledgeBase) (n n' : nat) (o : obj_record) :
  load_object clang (kb, n) o = Ok (kb', n') ->
  exists new,
    symbols kb' = symbols kb ++ new
    /\ Forall2 built_from new (tagged_records o)
    /\ Forall (fun s => cls s <> Symbol_base) new
    /\ map ident new = seq n (length new)
    /\ n' = (n + length new)%nat.
Proof.
  unfold load_object.
  set (kb1 := match o_source o with
              | Some src => set_object_to_source (<[o_name o := src]> (object_to_source kb)) kb
              | None => kb
              end).
  assert (Hsy1 : symbols kb1 = symbols kb) by (unfold kb1; destruct (o_source o); reflexivity).
  clearbody kb1.
  destruct (new_symbols Function n _) as [F|e] eqn:HF; cbn [rbind]; [|discriminate].
  destruct (new_symbols Data _ _) as [D|e] eqn:HD; cbn [rbind]; [|discriminate].
  pose proof (new_symbols_idents _ _ _ _ HF) as HiF.
  pose proof (new_symbols_idents _ _ _ _ HD) as HiD.
  apply new_symbols_built in HF as [HbF HcF], HD as [HbD HcD].
  assert (Hnew : Forall2 built_from (F ++ D) (tagged_records o)
                 /\ Forall (fun s => cls s <> Symbol_base) (F ++ D)
                 /\ map ident (F ++ D) = seq n (length (F ++ D))).
  { split; [apply Forall2_app; assumption|]. split.
    - apply Forall_app. split; eapply Forall_impl; try eassumption;
        intros s Hs; rewrite Hs; discriminate.
    - rewrite map_app, length_app, seq_app, HiF, HiD. reflexivity. }
  destruct Hnew as (Hb & Hc & Hi).
  destruct (F ++ D) as [|s0 rest] eqn:Hnew.
  - intros [= <- <-]. exists []. rewrite app_nil_r. simpl.
    repeat split; try assumption. lia.
  - rewrite <- Hnew in *.
    destruct (rfoldM _ (F ++ D) _) as [kb2|e] eqn:Hfold; cbn [rbind]; [|discriminate].
    intros [= <- <-]. apply attribute_fold_symbols in Hfold. simpl in Hfold.
    exists (F ++ D). rewrite Hfold, Hsy1. repeat split; assumption.
Qed.

Lemma load_loop_symbols clang (objects : list obj_record) :
  forall (kb kb' : KnowledgeBase) (n n' : nat),
  rfoldM (load_object clang) objects (kb, n) = Ok (kb', n') ->
  exists new,
    symbols kb' = symbols kb ++ new
    /\ Forall2 built_from new (concat (map tagged_records objects))
    /\ Forall (fun s => cls s <> Symbol_base) new
    /\ map ident new = seq n (length new).
Proof.
  induction objects as [|o objects IH]; intros kb kb' n n'; cbn [rfoldM].
  - intros [= <- <-]. exists []. rewrite app_nil_r. repeat split; constructor.
  - destruct (load_object clang (kb, n) o) as [[kb1 n1]|e] eqn:Hone; cbn [rbind]; [|discriminate].
    intros Hrest. apply load_object_symbols in Hone as (new1 & Hs1 & Hb1 & Hc1 & Hi1 & ->).
    apply IH in Hrest as (new2 & Hs2 & Hb2 & Hc2 & Hi2).
    exists (new1 ++ new2). rewrite Hs2, Hs1, <- app_assoc.
    split; [reflexivity|]. cbn [map concat].
    split; [apply Forall2_app; assumption|].
    split; [apply Forall_app; split; assumption|].
    rewrite map_app, length_app, seq_app, Hi1, Hi2. reflexivity.
Qed.

Lemma deserialize_built clang (objects : list obj_record)
  (kb : KnowledgeBase) (lg : list log_record) :
  deserialize clang None objects = Ok (kb, lg) ->
  Forall2 built_from (symbols kb) (concat (map tagged_records objects))
  /\ Forall (fun s => cls s <> Symbol_base) (symbols kb)
  /\ map ident (symbols kb) = seq 0 (length (symbols kb)).
Proof.
  unfold deserialize.
  destruct (rfoldM (load_object clang) objects (KnowledgeBase_init, 0%nat))
    as [[kb0 n]|e] eqn:Hload; cbn [rbind fst]; [|discriminate].
  destruct (rmapM _ _) as [truths|e]; cbn [rbind]; [|discriminate].
  intros [= <- _]. apply load_loop_symbols in Hload as (new & Hs & Hb & Hc & Hi).
  simpl in Hs. change (symbols (set_addr_to_symbol (build_addr_index (symbols kb0)) kb0))
    with (symbols kb0). rewrite Hs. repeat split; assumption.
Qed.

(** X15.  Without the truth hook, the symbols of a loaded knowledge base are,
    in order, the objects built from the records of the snapshot, entry after
    entry and within an entry the functions before the data: a record of the
    [functions] list becomes a [Function], a record of the [data] list a
    [Data], never a plain [Symbol]; the objects are created in that order. *)
Theorem deserialize_symbols clang (objects : list obj_record)
  (kb : KnowledgeBase) (lg : list log_record) :
  deserialize clang None objects = Ok (kb, lg) ->
  Forall2 built_from (symbols kb) (concat (map tagged_records objects))
  /\ Forall (fun s => cls s <> Symbol_base) (symbols kb)
  /\ map ident (symbols kb) = seq 0 (length (symbols kb)).
Proof.
  unfold deserialize.
  destruct (rfoldM (load_object clang) objects (KnowledgeBase_init, 0%nat))
    as [[kb0 n]|e] eqn:Hload; cbn [rbind fst]; [|discriminate].
  destruct (rmapM _ _) as [truths|e]; cbn [rbind]; [|discriminate].
  intros [= <- _]. apply load_loop_symbols in Hload as (new & Hs & Hb & Hc & Hi).
  simpl in Hs. change (symbols (set_addr_to_symbol (build_addr_index (symbols kb0)) kb0))
    with (symbols kb0). rewrite Hs. repeat split; assumption.
Qed.

Lemma deserialize_symbols_witness :
  exists kb lg,
    deserialize (Some demo_clang) None demo_snapshot_unlocated = Ok (kb, lg)
    /\ map ident (symbols kb) = seq 0 (length (symbols kb)).
Proof.
  destruct (deserialize (Some demo_clang) None demo_snapshot_unlocated)
    as [[kb lg]|e] eqn:Hload; [|vm_compute in Hload; discriminate Hload].
  exists kb, lg. split; [reflexivity|].
  apply (deserialize_symbols (Some demo_clang) demo_snapshot_unlocated kb lg Hload).
Defined.

(** ** The name index *)

Lemma attribute_symbol_index clang o (kb kb' : KnowledgeBase) (s : Symbol) :
  attribute_symbol clang o kb s = Ok kb' ->
  s ∈ symbols kb -> name_index_sound clang kb -> name_index_sound clang kb'.
Proof.
  unfold attribute_symbol. intros Hstep Hs Hsound.
  destruct (addr s) as [a|] eqn:Ha.
  - destruct (Z.eqb_spec a 0) as [Hz|Hz].
    + injection Hstep as <-. exact Hsound.
    + destruct (name clang s) as [nm|e] eqn:Hn; simpl in Hstep; [|discriminate Hstep].
      injection Hstep as <-. intros n' a'. simpl.
      destruct (decide (n' = nm)) as [->|Hne].
      * rewrite lookup_insert_eq. intros [= <-]. exists s. repeat split; assumption.
      * rewrite lookup_insert_ne by congruence. apply Hsound.
  - injection Hstep as <-. exact Hsound.
Qed.

Lemma attribute_fold_index clang o (l : list Symbol) : forall kb0 kb' : KnowledgeBase,
  rfoldM (attribute_symbol clang o) l kb0 = Ok kb' ->
  (forall s, s ∈ l -> s ∈ symbols kb0) ->
  name_index_sound clang kb0 -> name_index_sound clang kb'.
Proof.
  induction l as [|s l IH]; intros kb0 kb'; cbn [rfoldM].
  - intros [= <-] _ H. exact H.
  - destruct (attribute_symbol clang o kb0 s) as [kb1|e] eqn:Hstep; cbn [rbind]; [|discriminate].
    intros Hfold Hin Hsound.
    pose proof (attribute_symbol_buckets _ _ _ _ _ Hstep) as (Hsy & _).
    apply (IH kb1 kb' Hfold).
    + intros s' Hs'. rewrite Hsy. apply Hin. right. exact Hs'.
    + eapply attribute_symbol_index; [exact Hstep | apply Hin; left | exact Hsound].
Qed.

Lemma load_object_index clang (st st' : KnowledgeBase * nat) (o : obj_record) :
  load_object clang st o = Ok st' ->
  name_index_sound clang (fst st) -> name_index_sound clang (fst st').
Proof.
  destruct st as [kb n]. unfold load_object. cbn [fst].
  set (kb1 := match o_source o with
              | Some src => set_object_to_source (<[o_name o := src]> (object_to_source kb)) kb
              | None => kb
              end).
  assert (Hk1 : symbols kb1 = symbols kb /\ name_to_addr kb1 = name_to_addr kb)
    by (unfold kb1; destruct (o_source o); split; reflexivity).
  destruct Hk1 as [Hsy1 Hn1]. clearbody kb1.
  destruct (new_symbols Function n _) as [F|e]; cbn [rbind]; [|discriminate].
  destruct (new_symbols Data _ _) as [D|e]; cbn [rbind]; [|discriminate].
  intros Hstep Hsound.
  assert (Hsound1 : name_index_sound clang kb1).
  { intros nm a. rewrite Hn1, Hsy1. apply Hsound. }
  destruct (F ++ D) as [|s0 rest] eqn:Hnew.
  - injection Hstep as <-. exact Hsound1.
  - rewrite <- Hnew in *.
    destruct (rfoldM _ (F ++ D) _) as [kb2|e] eqn:Hfold; cbn [rbind] in Hstep;
      [|discriminate Hstep].
    injection Hstep as <-. cbn [fst].
    apply (attribute_fold_index _ _ _ _ _ Hfold).
    + intros s Hs. simpl. apply elem_of_app. right. exact Hs.
    + intros nm a Hl. simpl in Hl. destruct (Hsound1 nm a Hl) as (s & Hs & H).
      exists s. split; [simpl; apply elem_of_app; left; exact Hs | exact H].
Qed.

Lemma load_loop_index clang (objects : list obj_record) :
  forall st st', rfoldM (load_object clang) objects st = Ok st' ->
                 name_index_sound clang (fst st) -> name_index_sound clang (fst st').
Proof.
  induction objects as [|o objects IH]; intros st st'; cbn [rfoldM].
  - intros [= <-] H. exact H.
  - destruct (load_object clang st o) as [st1|e] eqn:Hone; cbn [rbind]; [|discriminate].
    intros Hrest Hsound. apply (IH _ _ Hrest). eapply load_object_index; eassumption.
Qed.

(** X16.  After a load without the truth hook, every entry of the name index
    is the resolved name and the address of a loaded symbol whose address is
    known and is not zero: a symbol at address 0 or without an address puts
    nothing in the index. *)
Theorem deserialize_name_index clang (objects : list obj_record)
  (kb : KnowledgeBase) (lg : list log_record) :
  deserialize clang None objects = Ok (kb, lg) -> name_index_sound clang kb.
Proof.
  unfold deserialize.
  destruct (rfoldM (load_object clang) objects (KnowledgeBase_init, 0%nat))
    as [[kb0 n]|e] eqn:Hload; cbn [rbind fst]; [|discriminate].
  destruct (rmapM _ _) as [truths|e]; cbn [rbind]; [|discriminate].
  intros [= <- _]. apply load_loop_index in Hload.
  - exact Hload.
  - intros nm a Hl. simpl in Hl. rewrite lookup_empty in Hl. discriminate Hl.
Qed.

Lemma deserialize_name_index_witness :
  exists kb lg,
    deserialize (Some demo_clang) None demo_snapshot_unlocated = Ok (kb, lg)
    /\ name_index_sound (Some demo_clang) kb.
Proof.
  destruct (deserialize (Some demo_clang) None demo_snapshot_unlocated)
    as [[kb lg]|e] eqn:Hload; [|vm_compute in Hload; discriminate Hload].
  exists kb, lg. split; [reflexivity|].
  apply (deserialize_name_index (Some demo_clang) demo_snapshot_unlocated kb lg Hload).
Defined.

(** ** Loading and saving in a row *)

Lemma built_from_addr (s : Symbol) (kr : class * sym_record) :
  built_from s kr -> (is_Some (addr s) <-> r_addr (snd kr) <> JNone).
Proof.
  unfold built_from, Symbol_init. destruct (r_addr (snd kr)) as [|t|z]; simpl.
  - intros [= <-]. simpl. split; [intros [x Hx]; discriminate Hx | congruence].
  - destruct (int16 t); simpl; [|discriminate].
    intros [= <-]. simpl. split; [discriminate | eauto].
  - intros [= <-]. simpl. split; [discriminate | eauto].
Qed.

Lemma built_from_all_addr (ss : list Symbol) (krs : list (class * sym_record)) :
  Forall2 built_from ss krs ->
  (Forall (fun s => is_Some (addr s)) ss
   <-> Forall (fun kr => r_addr (snd kr) <> JNone) krs).
Proof.
  induction 1 as [|s kr ss krs Hb _ IH]; [split; constructor|].
  rewrite !Forall_cons, IH, (built_from_addr s kr Hb). reflexivity.
Qed.

Lemma loaded_partition (kb : KnowledgeBase) :
  attribution_consistent kb -> Forall (attributed kb) (symbols kb) ->
  bucketed (object_to_symbols kb) ≡ₚ symbols kb /\ finalize_attribution kb = kb.
Proof.
  intros [_ Hb] Hattr. split; [|apply finalize_fold_idle, Hattr].
  rewrite Hb. clear -Hattr. induction Hattr as [|s l Hs _ IH]; [reflexivity|].
  rewrite filter_cons, decide_True by exact Hs. constructor. exact IH.
Qed.

Lemma rmapM_aborts {A B} (f : A -> result B) (l : list A) (x : A) :
  x ∈ l -> aborts (f x) -> aborts (rmapM f l).
Proof.
  intros Hx [e He]. induction l as [|y l IH]; [inversion Hx|]. simpl.
  apply elem_of_cons in Hx as [<-|Hx].
  - rewrite He. eexists; reflexivity.
  - destruct (f y) as [b|e']; simpl; [|eexists; reflexivity].
    destruct (IH Hx) as [e' ->]. eexists; reflexivity.
Qed.

Lemma serialize_object_unlocated (kb : KnowledgeBase) (o : option string) (s : Symbol) :
  s ∈ bucket (object_to_symbols kb) o -> addr s = None -> cls s <> Symbol_base ->
  aborts (serialize_object kb o).
Proof.
  intros Hs Ha Hc. unfold serialize_object.
  destruct (bucket (object_to_symbols kb) o) as [|s0 rest] eqn:Hb; [inversion Hs|].
  rewrite <- Hb in *. clear Hb s0 rest.
  destruct (sorted_by_addr _) as [l'|e] eqn:Hsort; cbn [rbind]; [|eexists; reflexivity].
  apply sorted_by_addr_Ok in Hsort as [Hperm _]. rewrite <- Hperm in Hs.
  assert (Hab : aborts (Symbol_serialize s)).
  { unfold Symbol_serialize. rewrite Ha. eexists; reflexivity. }
  destruct (cls s) eqn:Hcls; [congruence | |].
  - destruct (rmapM_aborts Symbol_serialize (filter (fun s => cls s = Data) l') s) as [e ->];
      [apply list_elem_of_filter; split; assumption | exact Hab |].
    eexists; reflexivity.
  - destruct (rmapM Symbol_serialize (filter (fun s => cls s = Data) l')) as [data|e];
      cbn [rbind]; [|eexists; reflexivity].
    destruct (rmapM_aborts Symbol_serialize (filter (fun s => cls s = Function) l') s) as [e ->];
      [apply list_elem_of_filter; split; assumption | exact Hab |].
    eexists; reflexivity.
Qed.

Lemma built_from_some_unlocated (ss : list Symbol) (krs : list (class * sym_record)) :
  Forall2 built_from ss krs ->
  Exists (fun kr => r_addr (snd kr) = JNone) krs ->
  exists s, s ∈ ss /\ addr s = None.
Proof.
  induction 1 as [|s kr ss krs Hb _ IH]; intros Hex; [inversion Hex|].
  apply Exists_cons in Hex as [Hex|Hex].
  - exists s. split; [left|].
    destruct (addr s) as [a|] eqn:Ha; [|reflexivity].
    exfalso. apply (proj1 (built_from_addr s kr Hb)); [rewrite Ha; eauto | exact Hex].
  - destruct (IH Hex) as (s' & Hs' & Ha). exists s'. split; [right; exact Hs' | exact Ha].
Qed.

(** X17.  [main] without the truth hook.  A failure of the load is the
    failure of [main].  When the load succeeds, [main] writes a snapshot and
    returns the diagnostics of the load if every record of the snapshot read
    has an address; if some record has none, the load still succeeds and the
    save fails with [TypeError]. *)
Theorem main_outcome clang (objects : list obj_record) :
  (forall e, deserialize clang None objects = Raise e ->
     main clang None objects = Raise e)
  /\ (forall kb lg, deserialize clang None objects = Ok (kb, lg) ->
        (Forall (fun kr => r_addr (snd kr) <> JNone) (concat (map tagged_records objects)) ->
         exists kb1 out, serialize kb = Ok (kb1, out)
                         /\ main clang None objects = Ok (out, lg))
        /\ (Exists (fun kr => r_addr (snd kr) = JNone) (concat (map tagged_records objects)) ->
            main clang None objects = Raise TypeError)).
Proof.
  split.
  - intros e He. unfold main. rewrite He. reflexivity.
  - intros kb lg Hload.
    destruct (deserialize_consistent clang objects kb lg Hload) as (Hcons & _ & Hattr).
    destruct (deserialize_built clang objects kb lg Hload) as (Hbuilt & Hcls & _).
    destruct (loaded_partition kb Hcons Hattr) as [Hperm Hfin].
    pose proof (serialize_outcome_cases kb) as Hout. cbv zeta in Hout.
    rewrite Hfin in Hout. destruct Hout as [Hok Hraise].
    unfold main. rewrite Hload. cbn [rbind fst snd]. split.
    + intros Hall. apply (built_from_all_addr _ _ Hbuilt) in Hall.
      destruct Hok as [[kb1 out] Hser].
      { intros o s Hs. rewrite Forall_forall in Hall. apply Hall.
        rewrite <- Hperm. apply elem_of_bucketed.
        apply elem_of_bucket in Hs as (l & Hm & Hl). eauto. }
      exists kb1, out. rewrite Hser. split; reflexivity.
    + intros Hex. destruct (built_from_some_unlocated _ _ Hbuilt Hex) as (s & Hs & Ha).
      assert (Hc : cls s <> Symbol_base).
      { rewrite Forall_forall in Hcls. apply Hcls, Hs. }
      rewrite <- Hperm in Hs. apply elem_of_bucketed in Hs as (o & l & Hm & Hl).
      assert (Hab : aborts (serialize kb)).
      { unfold serialize. cbv zeta. rewrite Hfin.
        destruct (rmapM_aborts (serialize_object kb)
                    (map Some (objs_sorted (object_to_symbols kb)) ++ [None]) o) as [e ->].
        - apply section_keys_cover. rewrite Hm. eauto.
        - apply (serialize_object_unlocated kb o s); [|exact Ha | exact Hc].
          apply elem_of_bucket. eauto.
        - eexists; reflexivity. }
      destruct Hab as [e He]. rewrite He. cbn [rbind].
      destruct (Hraise e He) as [-> _]. reflexivity.
Qed.

Lemma main_outcome_witness :
  main (Some demo_clang) None demo_snapshot_unlocated = Raise TypeError.
Proof.
  destruct (deserialize (Some demo_clang) None demo_snapshot_unlocated)
    as [[kb lg]|e] eqn:Hload; [|vm_compute in Hload; discriminate Hload].
  apply (proj2 (main_outcome (Some demo_clang) demo_snapshot_unlocated) kb lg Hload).
  vm_compute. apply Exists_cons. right. apply Exists_cons. left. reflexivity.
Defined.

(** ** What [serialize] writes is a fixed point of loading and saving *)

Section StableSort.
Context {K A : Type} (lt : K -> K -> bool).

Lemma insert_by_split (x : K * A) (l : list (K * A)) :
  exists l1 l2, l = l1 ++ l2 /\ insert_by lt x l = l1 ++ x :: l2
                /\ Forall (fun y => lt (fst y) (fst x) = true) l1.
Proof.
  induction l as [|y l IH]; simpl.
  - exists [], []. repeat split. constructor.
  - destruct (lt (fst y) (fst x)) eqn:Hyx.
    + destruct IH as (l1 & l2 & -> & -> & Hl1).
      exists (y :: l1), l2. repeat split. constructor; assumption.
    + exists [], (y :: l). repeat split. constructor.
Qed.

(** The sort is stable: elements that are already in order keep their
    places among themselves. *)
Lemma sort_pairs_filter (P : K * A -> Prop) `{!forall p, Decision (P p)}
  (l : list (K * A)) :
  StronglySorted (pair_le lt) (filter P l) ->
  filter P (sort_pairs lt l) = filter P l.
Proof.
  induction l as [|x l IH]; intros Hs; [reflexivity|].
  cbn [sort_pairs fold_right]. fold (sort_pairs lt l).
  destruct (insert_by_split x (sort_pairs lt l)) as (l1 & l2 & Hl & -> & Hl1).
  rewrite filter_cons in Hs |- *. rewrite filter_app, filter_cons.
  destruct (decide (P x)) as [Hx|Hx].
  - inversion Hs as [|? ? Hs' Hall]; subst.
    rewrite <- (IH Hs'), Hl, filter_app.
    assert (Hnil : filter P l1 = []).
    { destruct (filter P l1) as [|y r] eqn:Hf; [reflexivity|]. exfalso.
      assert (Hy : y ∈ filter P l1) by (rewrite Hf; left).
      apply list_elem_of_filter in Hy as [HPy Hy].
      rewrite Forall_forall in Hl1, Hall. specialize (Hl1 y Hy).
      assert (Hin : y ∈ filter P l).
      { apply list_elem_of_filter. split; [exact HPy|].
        rewrite <- (sort_pairs_perm lt l), Hl. apply elem_of_app. left. exact Hy. }
      specialize (Hall y Hin). unfold pair_le in Hall. congruence. }
    rewrite Hnil. reflexivity.
  - rewrite <- (IH Hs), Hl, filter_app. reflexivity.
Qed.

Lemma sorted_with_filter (key : A -> K) (P : A -> Prop) `{!forall x, Decision (P x)}
  (ks : list K) (l : list A) :
  Forall2 (fun x k => key x = k) l ks ->
  StronglySorted (fun x y => lt (key y) (key x) = false) (filter P l) ->
  filter P (sorted_with lt ks l) = filter P l.
Proof.
  intros Hk Hs.
  assert (Hc : combine ks l = map (fun x => (key x, x)) l).
  { clear Hs. induction Hk as [|x k l' ks' Hx _ IH]; simpl; [reflexivity|].
    rewrite Hx, IH. reflexivity. }
  assert (Hfm : forall L : list (K * A),
            filter P (map snd L) = map snd (filter (fun p => P (snd p)) L)).
  { induction L as [|p L IH]; [reflexivity|].
    cbn [map]. rewrite !filter_cons. destruct (decide (P (snd p))); cbn [map]; congruence. }
  assert (Hmf : filter (fun p => P (snd p)) (map (fun x => (key x, x)) l)
                = map (fun x => (key x, x)) (filter P l)).
  { clear. induction l as [|x l IH]; [reflexivity|].
    cbn [map]. rewrite !filter_cons. cbn [snd].
    destruct (decide (P x)); cbn [map]; congruence. }
  unfold sorted_with. rewrite Hc, Hfm, sort_pairs_filter.
  - rewrite Hmf, map_map. cbn [snd]. apply map_id.
  - rewrite Hmf. clear -Hs. induction Hs as [|x l' Hs IH Hx]; cbn [map]; constructor.
    + exact IH.
    + apply Forall_forall. intros p Hp.
      apply list_elem_of_In, in_map_iff in Hp as (y & <- & Hy).
      rewrite Forall_forall in Hx. apply Hx, list_elem_of_In, Hy.
Qed.
End StableSort.

Lemma sorted_by_addr_filter (P : Symbol -> Prop) `{!forall s, Decision (P s)}
  (l l' : list Symbol) :
  sorted_by_addr l = Ok l' ->
  StronglySorted (fun s1 s2 => is_Some (addr s1) -> is_Some (addr s2) -> addr_le s1 s2)
                 (filter P l) ->
  filter P l' = filter P l.
Proof.
  intros Hsort Hs.
  assert (Hgen : (ks <-- rmapM addr_key l ;; Ok (sorted_with Z.ltb ks l)) = Ok l' ->
                 filter P l' = filter P l).
  { destruct (rmapM addr_key l) as [ks|e] eqn:Hks; simpl; [|discriminate].
    intros [= <-]. apply rmapM_Ok in Hks.
    assert (Hsome : Forall (fun s => is_Some (addr s)) l).
    { clear -Hks. induction Hks as [|s k l ks Hs _ IH]; constructor; [|exact IH].
      unfold addr_key in Hs. destruct (addr s); [eauto | discriminate]. }
    assert (Hkey : Forall2 (fun s k => default 0%Z (addr s) = k) l ks).
    { eapply Forall2_impl; [exact Hks|]. intros s k. unfold addr_key.
      destruct (addr s); [intros [= <-]; reflexivity | discriminate]. }
    apply (sorted_with_filter Z.ltb (fun s => default 0%Z (addr s)) P ks l Hkey).
    assert (Hsome' : Forall (fun s => is_Some (addr s)) (filter P l)).
    { apply Forall_forall. intros s Hin. apply list_elem_of_filter in Hin as [_ Hin].
      rewrite Forall_forall in Hsome. apply Hsome, Hin. }
    clear -Hs Hsome'. induction Hs as [|x r Hs IH Hx]; constructor.
    - apply IH. inversion Hsome'; assumption.
    - inversion Hsome' as [|? ? Hax Har]; subst.
      rewrite Forall_forall in Hx, Har. apply Forall_forall. intros y Hy.
      destruct (Hx y Hy Hax (Har y Hy)) as (a1 & a2 & Ha1 & Ha2 & Hle).
      rewrite Ha1, Ha2. simpl. lia. }
  unfold sorted_by_addr in Hsort. destruct l as [|s [|s' l]]; [| |exact (Hgen Hsort)].
  - injection Hsort as <-. reflexivity.
  - injection Hsort as <-. reflexivity.
Qed.

Lemma renumber_cls (k : class) (l : list Symbol) : forall n,
  Forall (fun s => cls s = k) (renumber k n l).
Proof. induction l as [|s l IH]; intros n; simpl; constructor; [reflexivity | apply IH]. Qed.

Lemma renumber_records (k : class) (l : list Symbol) : forall n,
  map record_of (renumber k n l) = map record_of l.
Proof. induction l as [|s l IH]; intros n; simpl; [reflexivity | rewrite IH; reflexivity]. Qed.

Lemma renumber_Forall_impl (P Q : Symbol -> Prop) (k : class) (l : list Symbol) :
  (forall s s', decl s' = decl s -> addr s' = addr s -> P s -> Q s') ->
  forall n, Forall P l -> Forall Q (renumber k n l).
Proof.
  intros HPQ n Hl. revert n. induction Hl as [|s l Hs _ IH]; intros n; simpl; constructor.
  - apply (HPQ s); [reflexivity | reflexivity | exact Hs].
  - apply IH.
Qed.

Lemma renumber_sorted (R : Symbol -> Symbol -> Prop) (k : class) (l : list Symbol) :
  (forall x y x' y', addr x' = addr x -> addr y' = addr y -> R x y -> R x' y') ->
  forall n, StronglySorted R l -> StronglySorted R (renumber k n l).
Proof.
  intros HR n Hl. revert n. induction Hl as [|s l Hl IH Hs]; intros n; simpl; constructor.
  - apply IH.
  - apply (renumber_Forall_impl (R s)); [|exact Hs].
    intros y y' _ Ha Hy. apply (HR s y); [reflexivity | exact Ha | exact Hy].
Qed.

Lemma filter_all (P : Symbol -> Prop) `{!forall s, Decision (P s)} (l : list Symbol) :
  Forall P l -> filter P l = l.
Proof.
  induction 1 as [|s l Hs _ IH]; [reflexivity|].
  rewrite filter_cons, decide_True by exact Hs. rewrite IH. reflexivity.
Qed.

Lemma filter_none (P : Symbol -> Prop) `{!forall s, Decision (P s)} (l : list Symbol) :
  Forall (fun s => ~ P s) l -> filter P l = [].
Proof.
  induction 1 as [|s l Hs _ IH]; [reflexivity|].
  rewrite filter_cons, decide_False by exact Hs. exact IH.
Qed.

(** [serialize_object] in terms of the sorted bucket. *)
Lemma serialize_object_sorted (kb : KnowledgeBase) (o : option string) (l' : list Symbol) :
  sorted_by_addr (bucket (object_to_symbols kb) o) = Ok l' ->
  Forall (fun s => is_Some (addr s)) (bucket (object_to_symbols kb) o) ->
  serialize_object kb o =
  Ok (match bucket (object_to_symbols kb) o with
      | [] => None
      | _ => Some {| o_name := o;
                     o_source := object_to_source kb !! o;
                     o_data := nonempty (map record_of (filter (fun s => cls s = Data) l'));
                     o_functions :=
                       nonempty (map record_of (filter (fun s => cls s = Function) l')) |}
      end).
Proof.
  intros Hsort Hall. unfold serialize_object.
  destruct (bucket (object_to_symbols kb) o) as [|s l] eqn:Hb; [reflexivity|].
  rewrite Hsort. cbn [rbind].
  assert (Hall' : Forall (fun s => is_Some (addr s)) l').
  { apply sorted_by_addr_Ok in Hsort as [Hperm _]. rewrite Hperm. exact Hall. }
  rewrite !rmapM_Symbol_serialize
    by (apply Forall_forall; intros x Hx; apply list_elem_of_filter in Hx as [_ Hx];
        rewrite Forall_forall in Hall'; apply Hall', Hx).
  reflexivity.
Qed.

(** Saving a reloaded bucket gives the entry it was loaded from. *)
Lemma serialize_object_reloaded (kbf kb2 : KnowledgeBase) (o : option string) :
  Forall (fun s => is_Some (addr s) /\ cls s <> Symbol_base) (bucket (object_to_symbols kbf) o) ->
  reloaded_bucket (bucket (object_to_symbols kbf) o) (bucket (object_to_symbols kb2) o) ->
  object_to_source kb2 !! o = object_to_source kbf !! o ->
  serialize_object kb2 o = serialize_object kbf o.
Proof.
  intros Hall (l' & n & n' & Hsort & Hb2) Hsrc.
  assert (Ha : Forall (fun s => is_Some (addr s)) (bucket (object_to_symbols kbf) o)).
  { eapply Forall_impl; [exact Hall|]. intros s [H _]; exact H. }
  rewrite (serialize_object_sorted kbf o l' Hsort Ha).
  pose proof (sorted_by_addr_Ok _ _ Hsort) as [Hperm Hsorted].
  set (F := filter (fun s => cls s = Function) l') in *.
  set (D := filter (fun s => cls s = Data) l') in *.
  assert (Hl' : Forall (fun s => is_Some (addr s) /\ cls s <> Symbol_base) l')
    by (rewrite Hperm; exact Hall).
  assert (HFa : Forall (fun s => is_Some (addr s)) F).
  { apply Forall_forall. intros s Hs. apply list_elem_of_filter in Hs as [_ Hs].
    rewrite Forall_forall in Hl'. apply Hl', Hs. }
  assert (HDa : Forall (fun s => is_Some (addr s)) D).
  { apply Forall_forall. intros s Hs. apply list_elem_of_filter in Hs as [_ Hs].
    rewrite Forall_forall in Hl'. apply Hl', Hs. }
  set (F' := renumber Function n F) in *. set (D' := renumber Data n' D) in *.
  assert (HF'a : Forall (fun s => is_Some (addr s)) F').
  { apply (renumber_Forall_impl (fun s => is_Some (addr s))); [|exact HFa].
    intros s s' _ -> H; exact H. }
  assert (HD'a : Forall (fun s => is_Some (addr s)) D').
  { apply (renumber_Forall_impl (fun s => is_Some (addr s))); [|exact HDa].
    intros s s' _ -> H; exact H. }
  assert (Hb2a : Forall (fun s => is_Some (addr s)) (bucket (object_to_symbols kb2) o)).
  { rewrite Hb2. apply Forall_app. split; assumption. }
  destruct (sorted_by_addr_perm _ Hb2a) as (b' & Hsort2 & _).
  rewrite (serialize_object_sorted kb2 o b' Hsort2 Hb2a).
  assert (HfF : filter (fun s => cls s = Function) (F' ++ D') = F').
  { rewrite filter_app, filter_all by apply renumber_cls.
    rewrite filter_none; [apply app_nil_r|].
    eapply Forall_impl; [apply (renumber_cls Data)|]. intros s ->. discriminate. }
  assert (HfD : filter (fun s => cls s = Data) (F' ++ D') = D').
  { rewrite filter_app, (filter_all _ D') by apply renumber_cls.
    rewrite filter_none; [reflexivity|].
    eapply Forall_impl; [apply (renumber_cls Function)|]. intros s ->. discriminate. }
  assert (Hw : forall x y x' y' : Symbol, addr x' = addr x -> addr y' = addr y ->
                 (is_Some (addr x) -> is_Some (addr y) -> addr_le x y) ->
                 is_Some (addr x') -> is_Some (addr y') -> addr_le x' y').
  { intros x y x' y' Hx Hy H Hx' Hy'. rewrite Hx in Hx'. rewrite Hy in Hy'.
    destruct (H Hx' Hy') as (a1 & a2 & H1 & H2 & Hle).
    exists a1, a2. rewrite Hx, Hy. repeat split; assumption. }
  assert (HsF : filter (fun s => cls s = Function) b' = F').
  { rewrite (sorted_by_addr_filter _ _ b' Hsort2), Hb2, HfF; [reflexivity|].
    rewrite Hb2, HfF. apply renumber_sorted; [exact Hw|].
    apply StronglySorted_filter_list. exact Hsorted. }
  assert (HsD : filter (fun s => cls s = Data) b' = D').
  { rewrite (sorted_by_addr_filter _ _ b' Hsort2), Hb2, HfD; [reflexivity|].
    rewrite Hb2, HfD. apply renumber_sorted; [exact Hw|].
    apply StronglySorted_filter_list. exact Hsorted. }
  rewrite HsF, HsD. unfold F', D'. rewrite !renumber_records, Hsrc.
  destruct (bucket (object_to_symbols kbf) o) as [|s0 l0] eqn:Hb.
  - apply Permutation_nil_r in Hperm. subst l'. rewrite Hb2. reflexivity.
  - destruct (bucket (object_to_symbols kb2) o) as [|s2 l2] eqn:Hb2'; [|reflexivity].
    exfalso. symmetry in Hb2. apply app_eq_nil in Hb2 as [HF0 HD0].
    apply (f_equal (@length _)) in HF0, HD0. unfold F', D' in HF0, HD0.
    rewrite renumber_length in HF0, HD0. simpl in HF0, HD0.
    assert (Hs0 : s0 ∈ l') by (rewrite Hperm; left).
    rewrite Forall_forall in Hl'. destruct (Hl' s0 Hs0) as [_ Hc].
    destruct (cls s0) eqn:Hcls; [congruence | |].
    + assert (Hin : s0 ∈ D) by (apply list_elem_of_filter; split; assumption).
      destruct D; [inversion Hin | discriminate HD0].
    + assert (Hin : s0 ∈ F) by (apply list_elem_of_filter; split; assumption).
      destruct F; [inversion Hin | discriminate HF0].
Qed.

Lemma attribute_symbol_exact clang o (kb : KnowledgeBase) (s : Symbol) :
  name_needed clang s ->
  exists kb', attribute_symbol clang o kb s = Ok kb'
    /\ object_to_symbols kb' = bucket_append o s (object_to_symbols kb)
    /\ object_to_source kb' = object_to_source kb.
Proof.
  intros Hn. unfold attribute_symbol.
  destruct (addr s) as [a|] eqn:Ha; [|eexists; repeat split; reflexivity].
  destruct (Z.eqb_spec a 0) as [->|Hne]; [eexists; repeat split; reflexivity|].
  destruct (Hn a Ha Hne) as [nm ->]. eexists; repeat split; reflexivity.
Qed.

Lemma attribute_fold_exact clang o (l : list Symbol) : forall kb0 : KnowledgeBase,
  Forall (name_needed clang) l ->
  exists kb', rfoldM (attribute_symbol clang o) l kb0 = Ok kb'
    /\ object_to_symbols kb'
       = match l with
         | [] => object_to_symbols kb0
         | _ => <[o := bucket (object_to_symbols kb0) o ++ l]> (object_to_symbols kb0)
         end
    /\ object_to_source kb' = object_to_source kb0.
Proof.
  induction l as [|s l IH]; intros kb0 Hl.
  - exists kb0. repeat split.
  - inversion Hl as [|? ? Hs Hl']; subst.
    destruct (attribute_symbol_exact clang o kb0 s Hs) as (kb1 & Hstep & Hb1 & Hso1).
    destruct (IH kb1 Hl') as (kb' & Hfold & Hb' & Hso').
    exists kb'. cbn [rfoldM]. rewrite Hstep. cbn [rbind].
    split; [exact Hfold|]. split; [|congruence].
    rewrite Hb', Hb1. unfold bucket_append. destruct l as [|s' l]; [reflexivity|].
    unfold bucket at 1. rewrite lookup_insert_eq. cbn [default].
    rewrite insert_insert_eq. unfold id. rewrite <- app_assoc. reflexivity.
Qed.

(** Loading the entry of object [o] written from the functions [F] and the
    data [D]: the bucket of [o] and the source mapping afterwards. *)
Lemma load_object_entry_buckets clang (kb : KnowledgeBase) (n : nat) o src
  (D F : list Symbol) :
  Forall (fun s => is_Some (addr s) /\ name_needed clang s) D ->
  Forall (fun s => is_Some (addr s) /\ name_needed clang s) F ->
  exists kb' n',
    load_object clang (kb, n)
      (mkObj o src (nonempty (map record_of D)) (nonempty (map record_of F)))
    = Ok (kb', n')
    /\ object_to_symbols kb'
       = match F ++ D with
         | [] => object_to_symbols kb
         | _ => <[o := bucket (object_to_symbols kb) o
                       ++ renumber Function n F ++ renumber Data (n + length F) D]>
                  (object_to_symbols kb)
         end
    /\ object_to_source kb' = match src with
                              | Some x => <[o := x]> (object_to_source kb)
                              | None => object_to_source kb
                              end.
Proof.
  intros HD HF.
  unfold load_object. cbn [o_source o_functions o_data o_name].
  rewrite !default_nonempty.
  set (kb1 := match src with
              | Some x => set_object_to_source (<[o := x]> (object_to_source kb)) kb
              | None => kb
              end).
  assert (Hk1 : object_to_symbols kb1 = object_to_symbols kb
                /\ object_to_source kb1 = match src with
                                          | Some x => <[o := x]> (object_to_source kb)
                                          | None => object_to_source kb
                                          end).
  { unfold kb1. destruct src; repeat split; reflexivity. }
  destruct Hk1 as (Hb1 & Hsrc1). clearbody kb1.
  rewrite (new_symbols_records Function F n)
    by (eapply Forall_impl; [exact HF | intros s [H _]; exact H]).
  cbn [rbind]. rewrite renumber_length.
  rewrite (new_symbols_records Data D (n + length F))
    by (eapply Forall_impl; [exact HD | intros s [H _]; exact H]).
  cbn [rbind].
  set (new := renumber Function n F ++ renumber Data (n + length F) D).
  assert (Hlen : length new = length (F ++ D)).
  { unfold new. rewrite !length_app, !renumber_length. reflexivity. }
  destruct (attribute_fold_exact clang o new (add_symbols new kb1)) as (kb' & Hfold & Hb' & Hso').
  { unfold new. apply Forall_app. split.
    - apply (renumber_Forall_impl (fun s => is_Some (addr s) /\ name_needed clang s)); [|exact HF].
      intros s s' Hd Ha [_ Hn] a Ha' Hne. rewrite (name_decl clang s' s Hd).
      apply (Hn a); [congruence | exact Hne].
    - apply (renumber_Forall_impl (fun s => is_Some (addr s) /\ name_needed clang s)); [|exact HD].
      intros s s' Hd Ha [_ Hn] a Ha' Hne. rewrite (name_decl clang s' s Hd).
      apply (Hn a); [congruence | exact Hne]. }
  destruct new as [|s0 rest] eqn:Hnew.
  - destruct (F ++ D) as [|x r]; [|discriminate Hlen].
    exists kb1, n. repeat split; assumption.
  - destruct (F ++ D) as [|x r] eqn:HFD; [discriminate Hlen|].
    rewrite Hfold. cbn [rbind]. eexists _, _. split; [reflexivity|].
    split; [|rewrite Hso'; exact Hsrc1].
    rewrite Hb'. change (object_to_symbols (add_symbols (s0 :: rest) kb1))
      with (object_to_symbols kb1). rewrite Hb1. reflexivity.
Qed.

(** Saving the buckets of the objects [K] and loading the entries: the
    buckets and the source mapping afterwards. *)
Lemma save_load_buckets clang (kbf : KnowledgeBase) (K : list (option string)) :
  NoDup K ->
  (forall o s, o ∈ K -> s ∈ bucket (object_to_symbols kbf) o ->
     is_Some (addr s) /\ cls s <> Symbol_base /\ name_needed clang s) ->
  forall kb n, (forall o, o ∈ K -> object_to_symbols kb !! o = None) ->
  exists entries kb' n',
    rmapM (serialize_object kbf) K = Ok entries
    /\ rfoldM (load_object clang) (omap id entries) (kb, n) = Ok (kb', n')
    /\ (forall o, ~ (o ∈ K /\ bucket (object_to_symbols kbf) o <> []) ->
          object_to_symbols kb' !! o = object_to_symbols kb !! o)
    /\ (forall o, o ∈ K -> bucket (object_to_symbols kbf) o <> [] ->
          is_Some (object_to_symbols kb' !! o)
          /\ reloaded_bucket (bucket (object_to_symbols kbf) o)
                             (bucket (object_to_symbols kb') o))
    /\ (forall o, object_to_source kb' !! o =
          if decide (o ∈ K /\ bucket (object_to_symbols kbf) o <> [])
          then match object_to_source kbf !! o with
               | Some x => Some x
               | None => object_to_source kb !! o
               end
          else object_to_source kb !! o).
Proof.
  induction K as [|o K IH]; intros HKnd HK kb n Hfree.
  - exists [], kb, n. split; [reflexivity|]. split; [reflexivity|].
    split; [reflexivity|]. split.
    + intros o Ho. inversion Ho.
    + intros o. destruct (decide _) as [[Ho _]|_]; [inversion Ho | reflexivity].
  - apply NoDup_cons in HKnd as [HoK HKnd].
    assert (HK' : forall o' s, o' ∈ K -> s ∈ bucket (object_to_symbols kbf) o' ->
                    is_Some (addr s) /\ cls s <> Symbol_base /\ name_needed clang s).
    { intros o' s Ho'. apply HK. right. exact Ho'. }
    assert (Hbo : forall s, s ∈ bucket (object_to_symbols kbf) o ->
                    is_Some (addr s) /\ cls s <> Symbol_base /\ name_needed clang s).
    { intros s. apply HK. left. }
    assert (Ha : Forall (fun s => is_Some (addr s)) (bucket (object_to_symbols kbf) o)).
    { apply Forall_forall. intros s Hs. apply (Hbo s Hs). }
    destruct (sorted_by_addr_perm _ Ha) as (l' & Hsort & Hperm).
    pose proof (serialize_object_sorted kbf o l' Hsort Ha) as Hser.
    cbn [rmapM].
    destruct (decide (bucket (object_to_symbols kbf) o = [])) as [Hb|Hb].
    + rewrite Hb in Hser. rewrite Hser. cbn [rbind].
      destruct (IH HKnd HK' kb n) as (entries & kb' & n' & Hents & Hload & Hsame & Hnew & Hsrc).
      { intros o' Ho'. apply Hfree. right. exact Ho'. }
      exists (None :: entries), kb', n'. rewrite Hents. cbn [rbind omap id].
      split; [reflexivity|]. split; [exact Hload|]. split; [|split].
      * intros o' Hno. apply Hsame. intros [H1 H2]. apply Hno. split; [right|]; assumption.
      * intros o' Ho' Hne. apply elem_of_cons in Ho' as [->|Ho']; [contradiction|].
        apply Hnew; assumption.
      * intros o'. rewrite Hsrc.
        destruct (decide (o' ∈ K /\ bucket (object_to_symbols kbf) o' <> [])) as [H1|H1],
                 (decide (o' ∈ o :: K /\ bucket (object_to_symbols kbf) o' <> [])) as [H2|H2];
          try reflexivity; exfalso.
        -- apply H2. split; [right|]; apply H1.
        -- destruct H2 as [Hin Hne']. apply elem_of_cons in Hin as [->|Hin]; tauto.
    + set (D := filter (fun s => cls s = Data) l') in *.
      set (F := filter (fun s => cls s = Function) l') in *.
      set (e := {| o_name := o;
                   o_source := object_to_source kbf !! o;
                   o_data := nonempty (map record_of D);
                   o_functions := nonempty (map record_of F) |}).
      assert (Hser' : serialize_object kbf o = Ok (Some e)).
      { rewrite Hser. destruct (bucket (object_to_symbols kbf) o); [contradiction | reflexivity]. }
      rewrite Hser'. cbn [rbind].
      destruct (load_object_entry_buckets clang kb n o (object_to_source kbf !! o) D F)
        as (kb1 & n1 & Hone & Hb1 & Hsrc1).
      { apply Forall_forall. intros s Hs. apply list_elem_of_filter in Hs as [_ Hs].
        rewrite Hperm in Hs. split; apply (Hbo s Hs). }
      { apply Forall_forall. intros s Hs. apply list_elem_of_filter in Hs as [_ Hs].
        rewrite Hperm in Hs. split; apply (Hbo s Hs). }
      fold e in Hone.
      assert (HFD : F ++ D <> []).
      { destruct (bucket (object_to_symbols kbf) o) as [|s0 l0] eqn:Hbk; [contradiction|].
        assert (Hs0 : s0 ∈ l') by (rewrite Hperm; left).
        destruct (Hbo s0) as (_ & Hc & _); [left|].
        intros Hnil. apply app_eq_nil in Hnil as [HF0 HD0].
        destruct (cls s0) eqn:Hcls; [congruence | |].
        - assert (Hin : s0 ∈ D) by (apply list_elem_of_filter; split; assumption).
          rewrite HD0 in Hin. inversion Hin.
        - assert (Hin : s0 ∈ F) by (apply list_elem_of_filter; split; assumption).
          rewrite HF0 in Hin. inversion Hin. }
      assert (Hb1' : object_to_symbols kb1
                     = <[o := renumber Function n F ++ renumber Data (n + length F) D]>
                         (object_to_symbols kb)).
      { rewrite Hb1. destruct (F ++ D); [contradiction|].
        unfold bucket. rewrite (Hfree o) by left. reflexivity. }
      clear Hb1.
      destruct (IH HKnd HK' kb1 n1) as (entries & kb' & n' & Hents & Hload & Hsame & Hnew & Hsrc).
      { intros o' Ho'. rewrite Hb1', lookup_insert_ne by (intros <-; contradiction).
        apply Hfree. right. exact Ho'. }
      rewrite Hents. cbn [rbind].
      exists (Some e :: entries), kb', n'.
      split; [reflexivity|].
      change (omap id (Some e :: entries)) with (e :: omap id entries).
      cbn [rfoldM]. rewrite Hone. cbn [rbind].
      split; [exact Hload|]. split; [|split].
      * intros o' Hno. rewrite Hsame.
        -- rewrite Hb1'. apply lookup_insert_ne. intros <-. apply Hno. split; [left | exact Hb].
        -- intros [H1 H2]. apply Hno. split; [right|]; assumption.
      * intros o' Ho' Hne. apply elem_of_cons in Ho' as [->|Ho']; [|apply Hnew; assumption].
        assert (Hlook : object_to_symbols kb' !! o
                        = Some (renumber Function n F ++ renumber Data (n + length F) D)).
        { rewrite Hsame by (intros [H1 _]; contradiction).
          rewrite Hb1'. apply lookup_insert_eq. }
        split; [rewrite Hlook; eauto|].
        exists l', n, (n + length F)%nat. split; [exact Hsort|].
        unfold bucket at 1. rewrite Hlook. reflexivity.
      * intros o'. rewrite Hsrc, Hsrc1, source_step.
        destruct (decide (o' = o)) as [->|Hne].
        -- rewrite (decide_True (P := o ∈ o :: K /\ _)) by (split; [left | exact Hb]).
           destruct (decide _); destruct (object_to_source kbf !! o); reflexivity.
        -- destruct (decide (o' ∈ K /\ bucket (object_to_symbols kbf) o' <> [])) as [H1|H1],
                    (decide (o' ∈ o :: K /\ bucket (object_to_symbols kbf) o' <> [])) as [H2|H2];
             try reflexivity; exfalso.
           ++ apply H2. split; [right|]; apply H1.
           ++ destruct H2 as [Hin Hne']. apply elem_of_cons in Hin as [->|Hin]; tauto.
Qed.

Lemma rmapM_Ok_elem {A B} (f : A -> result B) (l : list A) (ys : list B) (x : A) :
  rmapM f l = Ok ys -> x ∈ l -> is_Ok (f x).
Proof.
  intros Hl Hx. destruct (f x) as [y|e] eqn:Hfx; [eexists; reflexivity|].
  destruct (rmapM_aborts f l x Hx) as [e' He']; [eexists; exact Hfx|].
  rewrite He' in Hl. discriminate Hl.
Qed.

(** Keys whose entry is skipped can be left out of a save. *)
Lemma rmapM_skip {B} (f : option string -> result (option B)) (P : string -> Prop)
  `{!forall n, Decision (P n)} (names : list string) (tl : list (option string))
  (entries : list (option B)) :
  rmapM f (map Some names ++ tl) = Ok entries ->
  (forall n, n ∈ names -> ~ P n -> f (Some n) = Ok None) ->
  exists entries2,
    rmapM f (map Some (filter P names) ++ tl) = Ok entries2
    /\ omap id entries2 = omap id entries.
Proof.
  revert entries. induction names as [|n names IH]; intros entries Hent Hskip.
  - exists entries. split; [exact Hent | reflexivity].
  - cbn [map app rmapM] in Hent.
    destruct (f (Some n)) as [r|e] eqn:Hn; cbn [rbind] in Hent; [|discriminate Hent].
    destruct (rmapM f (map Some names ++ tl)) as [es|e] eqn:Hes; cbn [rbind] in Hent;
      [|discriminate Hent].
    injection Hent as <-.
    destruct (IH es eq_refl) as (es2 & Hes2 & Heq).
    { intros n' Hn'. apply Hskip. right. exact Hn'. }
    rewrite filter_cons. destruct (decide (P n)) as [HP|HP].
    + exists (r :: es2). cbn [map app rmapM]. rewrite Hn, Hes2. cbn [rbind].
      split; [reflexivity|]. destruct r as [b|].
      * change (omap id (Some b :: es2)) with (b :: omap id es2).
        change (omap id (Some b :: es)) with (b :: omap id es).
        rewrite Heq. reflexivity.
      * change (omap id (None :: es2)) with (omap id es2).
        change (omap id (None :: es)) with (omap id es). exact Heq.
    + exists es2. split; [exact Hes2|].
      rewrite (Hskip n) in Hn by (left || exact HP). injection Hn as <-.
      change (omap id (None :: es)) with (omap id es). exact Heq.
Qed.

Lemma loaded_init : loaded (KnowledgeBase_init, 0%nat).
Proof.
  split; [|split; [|split; [|split]]]; simpl.
  - intros i _. apply lookup_empty.
  - constructor.
  - constructor.
  - unfold bucketed. rewrite map_to_list_empty. reflexivity.
  - intros o l s Hl. cbn in Hl. rewrite lookup_empty in Hl. discriminate Hl.
Qed.

(** [deserialize] succeeds once the loading loop has. *)
Lemma deserialize_of_load clang (objects : list obj_record) (kb' : KnowledgeBase) (n' : nat) :
  rfoldM (load_object clang) objects (KnowledgeBase_init, 0%nat) = Ok (kb', n') ->
  exists kb2 lg,
    deserialize clang None objects = Ok (kb2, lg)
    /\ object_to_symbols kb2 = object_to_symbols kb'
    /\ object_to_source kb2 = object_to_source kb'.
Proof.
  intros Hload.
  pose proof (load_loop_loaded clang objects _ _ loaded_init Hload) as (_ & _ & Hattr & _).
  cbn [fst] in Hattr.
  destruct (rmapM_total (has_truth kb') (symbols kb')) as [truths Htruths].
  { eapply Forall_impl; [exact Hattr | apply has_truth_total]. }
  unfold deserialize. rewrite Hload. cbn [rbind fst].
  change (rmapM (has_truth (set_addr_to_symbol (build_addr_index (symbols kb')) kb'))
            (symbols (set_addr_to_symbol (build_addr_index (symbols kb')) kb')))
    with (rmapM (has_truth kb') (symbols kb')).
  rewrite Htruths. cbn [rbind]. eexists _, _. split; [reflexivity|]. split; reflexivity.
Qed.

(** Loading a snapshot written by [serialize] and saving again writes the
    same snapshot. *)
Lemma save_load_save clang (kb kb1 : KnowledgeBase) (out : list obj_record) :
  serialize kb = Ok (kb1, out) ->
  (forall o s, s ∈ bucket (object_to_symbols kb1) o ->
     cls s <> Symbol_base /\ name_needed clang s) ->
  exists kb2 lg kb3,
    deserialize clang None out = Ok (kb2, lg) /\ serialize kb2 = Ok (kb3, out).
Proof.
  intros Hser Hall. unfold serialize in Hser. cbv zeta in Hser.
  set (kbf := finalize_attribution kb) in *.
  set (m := object_to_symbols kbf) in *.
  set (K := map Some (objs_sorted m) ++ [None]) in *.
  destruct (rmapM (serialize_object kbf) K) as [entries|e] eqn:Hent; cbn [rbind] in Hser;
    [|discriminate Hser].
  injection Hser as <- <-.
  assert (Hall' : forall o s, s ∈ bucket m o -> cls s <> Symbol_base /\ name_needed clang s).
  { intros o s Hs. apply (Hall o).
    change (s ∈ bucket (touch None m) o). rewrite bucket_touch. exact Hs. }
  clear Hall.
  destruct (section_keys_cover m) as [HKnd HKcov]. fold K in HKnd, HKcov.
  assert (Hout : forall o, o ∉ K -> bucket m o = []).
  { intros o Ho. unfold bucket. destruct (m !! o) eqn:Hm; [|reflexivity].
    exfalso. apply Ho, HKcov. rewrite Hm. eauto. }
  assert (Haddr : forall o s, s ∈ bucket m o -> is_Some (addr s)).
  { intros o s Hs. destruct (addr s) as [a|] eqn:Ha; [eauto|]. exfalso.
    assert (HoK : o ∈ K).
    { destruct (decide (o ∈ K)) as [H|H]; [exact H|].
      rewrite (Hout o H) in Hs. inversion Hs. }
    destruct (rmapM_Ok_elem _ _ _ o Hent HoK) as [r Hr].
    destruct (serialize_object_unlocated kbf o s Hs Ha) as [e He]; [apply (Hall' o s Hs)|].
    rewrite He in Hr. discriminate Hr. }
  destruct (save_load_buckets clang kbf K HKnd) with (kb := KnowledgeBase_init) (n := 0%nat)
    as (entries' & kb' & n' & Hents' & Hload & Hsame & Hnew & Hsrc).
  { intros o s _ Hs. split; [apply (Haddr o s Hs) | apply (Hall' o s Hs)]. }
  { intros o _. apply lookup_empty. }
  rewrite Hent in Hents'. injection Hents' as <-.
  destruct (deserialize_of_load clang _ kb' n' Hload) as (kb2 & lg & Hdes & Hb2 & Hs2).
  destruct (deserialize_consistent clang _ kb2 lg Hdes) as (Hcons & _ & Hattr).
  destruct (loaded_partition kb2 Hcons Hattr) as [_ Hfin].
  assert (Hsame_ser : forall o, serialize_object kb2 o = serialize_object kbf o).
  { intros o.
    destruct (decide (o ∈ K /\ bucket m o <> [])) as [[HoK Hne]|Hno].
    - destruct (Hnew o HoK Hne) as [_ Hre].
      apply serialize_object_reloaded.
      + apply Forall_forall. intros s Hs. split; [apply (Haddr o s Hs) | apply (Hall' o s Hs)].
      + rewrite Hb2. exact Hre.
      + rewrite Hs2, Hsrc. rewrite decide_True by (split; assumption).
        destruct (object_to_source kbf !! o); [reflexivity | apply lookup_empty].
    - assert (He : bucket m o = []).
      { destruct (decide (o ∈ K)) as [H|H]; [|apply Hout, H].
        destruct (decide (bucket m o = [])) as [H'|H']; [exact H'|].
        exfalso. apply Hno. split; assumption. }
      assert (He2 : bucket (object_to_symbols kb2) o = []).
      { unfold bucket. rewrite Hb2, (Hsame o Hno). cbn. rewrite lookup_empty. reflexivity. }
      unfold serialize_object. fold m. rewrite He, He2. reflexivity. }
  assert (Hnames : objs_sorted (object_to_symbols kb2)
                   = filter (fun n => bucket m (Some n) <> []) (objs_sorted m)).
  { destruct (objs_sorted_spec (object_to_symbols kb2)) as (Hs1 & Hn1 & Hd1).
    destruct (objs_sorted_spec m) as (Hs0 & Hn0 & Hd0).
    apply (StronglySorted_unique_strong (fun a b => String.leb a b = true)).
    - intros x y _ _. apply String.leb_antisym.
    - exact Hs1.
    - apply StronglySorted_filter_list. exact Hs0.
    - apply NoDup_Permutation; [exact Hn1 | apply NoDup_filter, Hn0|].
      intros n. rewrite Hd1, list_elem_of_filter, Hd0, Hb2.
      destruct (decide (Some n ∈ K /\ bucket m (Some n) <> [])) as [[HoK Hne]|Hno].
      + split; [intros _|intros _; apply (Hnew _ HoK Hne)].
        split; [exact Hne|]. unfold bucket in Hne.
        destruct (m !! Some n); [eauto | contradiction].
      + rewrite (Hsame _ Hno). cbn. rewrite lookup_empty. split.
        * intros [x Hx]. discriminate Hx.
        * intros [Hne Hin]. exfalso. apply Hno. split; [|exact Hne].
          apply HKcov, Hin. }
  destruct (rmapM_skip (serialize_object kbf) (fun n => bucket m (Some n) <> [])
              (objs_sorted m) [None] entries Hent) as (entries2 & Hent2 & Heq).
  { intros n _ Hn. unfold serialize_object. fold m.
    destruct (bucket m (Some n)); [reflexivity|]. exfalso. apply Hn. discriminate. }
  eexists kb2, lg, _. split; [exact Hdes|].
  unfold serialize. cbv zeta. rewrite Hfin, Hnames.
  rewrite (rmapM_ext _ _ _ Hsame_ser), Hent2. cbn [rbind]. rewrite Heq. reflexivity.
Qed.

(** X18.  A snapshot written by [serialize] is a fixed point of loading and
    saving: when the buckets hold no plain [Symbol] and every name that the
    load reads resolves, [deserialize] accepts the snapshot and a [serialize]
    of the loaded knowledge base writes the very same snapshot, entry for
    entry and record for record. *)
Theorem serialize_fixed_point clang (kb kb1 : KnowledgeBase) (out : list obj_record) :
  serialize kb = Ok (kb1, out) ->
  Forall (fun s => cls s <> Symbol_base /\ name_needed clang s)
         (bucketed (object_to_symbols kb1)) ->
  exists kb2 lg kb3,
    deserialize clang None out = Ok (kb2, lg) /\ serialize kb2 = Ok (kb3, out).
Proof.
  intros Hser Hall. apply (save_load_save clang kb kb1 out Hser).
  intros o s Hs. rewrite Forall_forall in Hall. apply Hall.
  apply elem_of_bucketed. apply elem_of_bucket in Hs as (l & Hm & Hl). eauto.
Qed.

Lemma serialize_fixed_point_witness :
  exists kb1 out kb2 lg kb3,
    serialize demo_attributed = Ok (kb1, out)
    /\ deserialize (Some demo_clang) None out = Ok (kb2, lg)
    /\ serialize kb2 = Ok (kb3, out).
Proof.
  destruct (serialize demo_attributed) as [[kb1 out]|e] eqn:Hs;
    [|vm_compute in Hs; discriminate Hs].
  destruct (serialize_fixed_point (Some demo_clang) demo_attributed kb1 out Hs)
    as (kb2 & lg & kb3 & Hload & Hsave).
  - assert (Hb : bucketed (object_to_symbols kb1)
                 = [demo_baz; demo_counter; demo_foo; demo_bar]).
    { vm_compute in Hs. injection Hs as <- _. vm_compute. reflexivity. }
    rewrite Hb. clear Hb Hs.
    assert (Hn : forall s, s ∈ [demo_baz; demo_counter; demo_foo; demo_bar] ->
                   cls s <> Symbol_base /\ is_Ok (name (Some demo_clang) s)).
    { intros s Hin.
      apply elem_of_cons in Hin as [->|Hin];
        [split; [discriminate | exists "Baz"; vm_compute; reflexivity]|].
      apply elem_of_cons in Hin as [->|Hin];
        [split; [discriminate | exists "counter"; vm_compute; reflexivity]|].
      apply elem_of_cons in Hin as [->|Hin];
        [split; [discriminate | exists "Foo"; vm_compute; reflexivity]|].
      apply elem_of_cons in Hin as [->|Hin];
        [split; [discriminate | exists "Bar"; vm_compute; reflexivity]|].
      inversion Hin. }
    apply Forall_forall. intros s Hin. destruct (Hn s Hin) as [Hc Hok].
    split; [exact Hc | intros a _ _; exact Hok].
  - exists kb1, out, kb2, lg, kb3. repeat split; assumption.
Defined.

Lemma attribute_fold_named clang o (l : list Symbol) : forall kb0 kb' : KnowledgeBase,
  rfoldM (attribute_symbol clang o) l kb0 = Ok kb' -> Forall (name_needed clang) l.
Proof.
  induction l as [|s l IH]; intros kb0 kb'; cbn [rfoldM]; [constructor|].
  destruct (attribute_symbol clang o kb0 s) as [kb1|e] eqn:Hstep; cbn [rbind]; [|discriminate].
  intros Hfold. constructor; [|apply (IH _ _ Hfold)].
  intros a Ha Hne. unfold attribute_symbol in Hstep. rewrite Ha in Hstep.
  apply Z.eqb_neq in Hne. rewrite Hne in Hstep.
  destruct (name clang s) as [nm|e]; [eexists; reflexivity | discriminate Hstep].
Qed.

Lemma load_object_named clang (kb kb' : KnowledgeBase) (n n' : nat) (o : obj_record) :
  load_object clang (kb, n) o = Ok (kb', n') ->
  Forall (name_needed clang) (symbols kb) -> Forall (name_needed clang) (symbols kb').
Proof.
  unfold load_object.
  set (kb1 := match o_source o with
              | Some src => set_object_to_source (<[o_name o := src]> (object_to_source kb)) kb
              | None => kb
              end).
  assert (Hsy1 : symbols kb1 = symbols kb) by (unfold kb1; destruct (o_source o); reflexivity).
  clearbody kb1.
  destruct (new_symbols Function n _) as [F|e]; cbn [rbind]; [|discriminate].
  destruct (new_symbols Data _ _) as [D|e]; cbn [rbind]; [|discriminate].
  destruct (F ++ D) as [|s0 rest] eqn:Hnew.
  - intros [= <- <-]. rewrite Hsy1. tauto.
  - rewrite <- Hnew in *.
    destruct (rfoldM _ (F ++ D) _) as [kb2|e] eqn:Hfold; cbn [rbind]; [|discriminate].
    intros [= <- <-] Hold. rewrite (attribute_fold_symbols _ _ _ _ _ Hfold).
    change (symbols (add_symbols (F ++ D) kb1)) with (symbols kb1 ++ (F ++ D)).
    rewrite Hsy1. apply Forall_app. split; [exact Hold|].
    apply (attribute_fold_named _ _ _ _ _ Hfold).
Qed.

Lemma load_loop_named clang (objects : list obj_record) :
  forall (kb kb' : KnowledgeBase) (n n' : nat),
  rfoldM (load_object clang) objects (kb, n) = Ok (kb', n') ->
  Forall (name_needed clang) (symbols kb) -> Forall (name_needed clang) (symbols kb').
Proof.
  induction objects as [|o objects IH]; intros kb kb' n n'; cbn [rfoldM].
  - intros [= <- <-]. tauto.
  - destruct (load_object clang (kb, n) o) as [[kb1 n1]|e] eqn:Hone; cbn [rbind]; [|discriminate].
    intros Hrest Hold. apply (IH _ _ _ _ Hrest), (load_object_named _ _ _ _ _ _ Hone), Hold.
Qed.

(** A load has resolved the name of every symbol it read the name of. *)
Lemma deserialize_named clang (objects : list obj_record)
  (kb : KnowledgeBase) (lg : list log_record) :
  deserialize clang None objects = Ok (kb, lg) -> Forall (name_needed clang) (symbols kb).
Proof.
  unfold deserialize.
  destruct (rfoldM (load_object clang) objects (KnowledgeBase_init, 0%nat))
    as [[kb0 n]|e] eqn:Hload; cbn [rbind fst]; [|discriminate].
  destruct (rmapM _ _) as [truths|e]; cbn [rbind]; [|discriminate].
  intros [= <- _]. apply (load_loop_named _ _ _ _ _ _ Hload). constructor.
Qed.

(** X19.  [main] is idempotent on the snapshot: run on a snapshot that a run
    of [main] wrote, it succeeds and writes the same snapshot again. *)
Theorem main_idempotent clang (objects out : list obj_record) (lg : list log_record) :
  main clang None objects = Ok (out, lg) ->
  exists lg', main clang None out = Ok (out, lg').
Proof.
  unfold main at 1.
  destruct (deserialize clang None objects) as [[kb lg0]|e] eqn:Hload; cbn [rbind fst snd];
    [|discriminate].
  destruct (serialize kb) as [[kb1 out0]|e] eqn:Hsave; cbn [rbind fst snd]; [|discriminate].
  intros [= -> ->].
  destruct (deserialize_consistent clang objects kb lg Hload) as (Hcons & _ & Hattr).
  destruct (deserialize_built clang objects kb lg Hload) as (_ & Hcls & _).
  pose proof (deserialize_named clang objects kb lg Hload) as Hnamed.
  destruct (loaded_partition kb Hcons Hattr) as [Hperm Hfin].
  destruct (save_load_save clang kb kb1 out Hsave) as (kb2 & lg2 & kb3 & Hload2 & Hsave2).
  - assert (Hkb1 : object_to_symbols kb1 = touch None (object_to_symbols kb)).
    { unfold serialize in Hsave. cbv zeta in Hsave. rewrite Hfin in Hsave.
      destruct (rmapM _ _) as [entries|e]; cbn [rbind] in Hsave; [|discriminate Hsave].
      injection Hsave as <- _. reflexivity. }
    intros o s Hs. rewrite Hkb1, bucket_touch in Hs.
    assert (Hin : s ∈ symbols kb).
    { rewrite <- Hperm. apply elem_of_bucketed.
      apply elem_of_bucket in Hs as (l & Hm & Hl). eauto. }
    rewrite Forall_forall in Hcls, Hnamed. split; [apply Hcls, Hin | apply Hnamed, Hin].
  - exists lg2. unfold main. rewrite Hload2. cbn [rbind fst snd]. rewrite Hsave2. reflexivity.
Qed.

Lemma main_idempotent_witness :
  exists out lg lg',
    main (Some demo_clang) None demo_snapshot_distinct = Ok (out, lg)
    /\ main (Some demo_clang) None out = Ok (out, lg').
Proof.
  destruct (main (Some demo_clang) None demo_snapshot_distinct) as [[out lg]|e] eqn:Hm;
    [|vm_compute in Hm; discriminate Hm].
  destruct (main_idempotent (Some demo_clang) demo_snapshot_distinct out lg Hm) as [lg' Hm'].
  exists out, lg, lg'. split; [reflexivity | exact Hm'].
Defined.

(** ** Thunk synthesis past the assertions *)

(** X20.  A declaration that passes the three assertions of [gen_thunk] can
    still fail: on the error of libclang when the declaration does not
    resolve, with [IndexError] when the function has no parameter, and with
    [TypeError] when the parameters are there and the address is not known,
    the parameters being read before the address. *)
Theorem gen_thunk_late_failures clang (s : Symbol) c reg :
  reg_search (decl s) = Some (c, reg) ->
  (find (take_str c (decl s)) "," < 0)%Z ->
  (0 < find (take_str c (decl s)) "(")%Z ->
  (forall e, cursor clang s = Raise e -> gen_thunk clang s = Raise e)
  /\ (forall cur, cursor clang s = Ok cur -> arguments cur = [] ->
        gen_thunk clang s = Raise IndexError)
  /\ (forall cur, cursor clang s = Ok cur -> arguments cur <> [] -> addr s = None ->
        gen_thunk clang s = Raise TypeError).
Proof.
  intros Hs Hc Hp. unfold gen_thunk. rewrite Hs.
  destruct (Z.ltb_spec (find (take_str c (decl s)) ",") 0); [|lia].
  destruct (Z.ltb_spec 0 (find (take_str c (decl s)) "(")); [|lia].
  cbn [negb]. split; [|split].
  - intros e ->. reflexivity.
  - intros cur -> Hargs. cbn [rbind]. rewrite Hargs. reflexivity.
  - intros cur -> Hargs Ha. cbn [rbind]. rewrite Ha.
    destruct (arguments cur); [contradiction | reflexivity].
Qed.

Lemma gen_thunk_late_failures_witness :
  gen_thunk (Some demo_clang) (mkSymbol 0 Function "int Foo(int a@<eax>, int b);" None)
  = Raise TypeError.
Proof.
  apply (proj2 (proj2 (gen_thunk_late_failures (Some demo_clang)
                         (mkSymbol 0 Function "int Foo(int a@<eax>, int b);" None)
                         13%nat "eax" eq_refl eq_refl eq_refl))
           (mkCursor "Foo" "int" [("int", "a"); ("int", "b")] "_Foo"));
    [reflexivity | discriminate | reflexivity].
Defined.

(** X21.  The thunk text begins with the declaration of the pointer
    [<fname>__xbe].  Its parameter list is a comment holding the first
    parameter with its annotation, followed by [void] when the function has
    that parameter alone, and otherwise by every parameter of the function
    with its type, the first one included, while the call in the body passes
    the parameters after the first. *)
Theorem gen_thunk_pointer_params clang (s : Symbol) c reg cur t0 p0 rest a :
  reg_search (decl s) = Some (c, reg) ->
  (find (take_str c (decl s)) "," < 0)%Z ->
  (0 < find (take_str c (decl s)) "(")%Z ->
  cursor clang s = Ok cur ->
  arguments cur = (t0, p0) :: rest ->
  addr s = Some a ->
  exists body,
    gen_thunk clang s =
    Ok (result_type cur +:+ " (" +:+ "*" +:+ spelling cur +:+ "__xbe)(/* "
        +:+ t0 +:+ " " +:+ p0 +:+ "@<" +:+ reg +:+ ">"
        +:+ match rest with
            | [] => " */ void"
            | _ => ", */ " +:+ join ", " (map (fun p => fst p +:+ " " +:+ snd p)
                                             ((t0, p0) :: rest))
            end
        +:+ ") = (void*" +:+ ")" +:+ hex a +:+ ";" +:+ nl +:+ body)
    /\ exists pre post,
         body = pre +:+ spelling cur +:+ "__xbe(" +:+ join ", " (map snd rest) +:+ post.
Proof.
  intros Hs Hc Hp Hcur Hargs Ha.
  rewrite (gen_thunk_body clang s c reg cur (t0, p0) a Hs Hc Hp Hcur)
    by first [exact Ha | rewrite Hargs; reflexivity].
  rewrite Hargs. unfold new_func_decl. cbn [tail snd fst length].
  eexists. split.
  - apply f_equal.
    assert (Hcase : (if (1 <? S (length rest))%nat
                     then ", */ " +:+ join ", " (map (fun a0 => fst a0 +:+ " " +:+ snd a0)
                                                    ((t0, p0) :: rest))
                     else " */ void")
                    = match rest with
                      | [] => " */ void"
                      | _ => ", */ " +:+ join ", " (map (fun p => fst p +:+ " " +:+ snd p)
                                                       ((t0, p0) :: rest))
                      end).
    { destruct rest; reflexivity. }
    rewrite Hcase. reassoc_with append_assoc.
    change (")" +:+ " = (void*" +:+ ")" +:+ hex a +:+ ";" +:+ nl +:+ ?x)
      with (") = (void*" +:+ ")" +:+ hex a +:+ ";" +:+ nl +:+ x).
    reflexivity.
  - exists ("__attribute__((weak))" +:+ nl
            +:+ "__attribute__((section(" +:+ dquote +:+ "thunks" +:+ dquote +:+ ")))" +:+ nl
            +:+ drop_last (filter_reg_assignments (decl s)) +:+ " {" +:+ nl
            +:+ "  asm mov " +:+ reg +:+ ", " +:+ p0 +:+ ";" +:+ nl
            +:+ "  " +:+ (if String.eqb (result_type cur) "void" then EmptyString
                          else "return ")),
           (");" +:+ nl +:+ "}" +:+ nl).
    reassoc_with append_assoc. reflexivity.
Qed.

Lemma gen_thunk_pointer_params_witness :
  exists body,
    gen_thunk (Some demo_clang) demo_foo =
    Ok ("int (" +:+ "*" +:+ "Foo__xbe)(/* int a@<eax>, */ int a, int b) = (void*"
        +:+ ")0x1000;" +:+ nl +:+ body).
Proof.
  destruct (gen_thunk_pointer_params (Some demo_clang) demo_foo 13%nat "eax"
              (mkCursor "Foo" "int" [("int", "a"); ("int", "b")] "_Foo")
              "int" "a" [("int", "b")] 4096%Z
              eq_refl eq_refl eq_refl eq_refl eq_refl eq_refl) as (body & Hthunk & _).
  exists body. rewrite Hthunk. vm_compute. reflexivity.
Defined.

(** ** Symbols added and never attributed *)

(** X22.  A [Data] or [Function] symbol added with [add_symbols] and not
    attributed since is written by the next [serialize], in the entry whose
    name is null. *)
Theorem add_symbols_saved_unattributed (kb kb1 : KnowledgeBase) (batch : list Symbol)
  (out : list obj_record) :
  NoDup (map ident (symbols kb ++ batch)) ->
  (forall s, s ∈ batch -> ~ attributed kb s) ->
  serialize (add_symbols batch kb) = Ok (kb1, out) ->
  forall s, s ∈ batch -> cls s <> Symbol_base ->
    exists e, e ∈ out /\ o_name e = None
              /\ record_of s ∈ default [] (o_data e) ++ default [] (o_functions e).
Proof.
  intros Hnd Hfresh Hser s Hs Hc.
  set (kb0 := add_symbols batch kb) in *.
  destruct (finalize_fold_spec (symbols kb0) kb0 Hnd) as (_ & _ & _ & _ & H5 & _).
  fold (finalize_attribution kb0) in H5.
  unfold serialize in Hser. cbv zeta in Hser.
  set (kbf := finalize_attribution kb0) in *.
  assert (Hin : s ∈ bucket (object_to_symbols kbf) None).
  { rewrite H5. apply elem_of_app. right. apply list_elem_of_filter. split.
    - apply (Hfresh s Hs).
    - change (s ∈ symbols kb ++ batch). apply elem_of_app. right. exact Hs. }
  destruct (rmapM (serialize_object kbf) _) as [entries|e] eqn:Hent; cbn [rbind] in Hser;
    [|discriminate Hser].
  injection Hser as _ <-. apply rmapM_Ok in Hent.
  apply Forall2_app_inv_l in Hent as (e1 & e2 & _ & Hlast & ->).
  inversion Hlast as [|? r ? e3 Hr Hnil]; subst. inversion Hnil; subst.
  apply serialize_object_Ok in Hr. destruct r as [e|].
  - destruct Hr as (_ & Hname & _ & ds & fs & Hds & Hfs & _ & _ & Hd & Hf & _).
    exists e. split; [|split; [exact Hname|]].
    + apply list_elem_of_omap. exists (Some e). split; [|reflexivity].
      apply elem_of_app. right. left.
    + rewrite Hd, Hf, !default_nonempty. apply elem_of_app.
      destruct (cls s) eqn:Hcls; [congruence | left | right].
      * apply list_elem_of_In, in_map, list_elem_of_In. rewrite Hds.
        apply list_elem_of_filter. split; assumption.
      * apply list_elem_of_In, in_map, list_elem_of_In. rewrite Hfs.
        apply list_elem_of_filter. split; assumption.
  - rewrite Hr in Hin. inversion Hin.
Qed.

Lemma add_symbols_saved_unattributed_witness :
  exists kb1 out e,
    serialize demo_kb = Ok (kb1, out)
    /\ e ∈ out /\ o_name e = None
    /\ record_of demo_counter ∈ default [] (o_data e) ++ default [] (o_functions e).
Proof.
  destruct (serialize demo_kb) as [[kb1 out]|e] eqn:Hsave;
    [|vm_compute in Hsave; discriminate Hsave].
  destruct (add_symbols_saved_unattributed KnowledgeBase_init kb1
              [demo_foo; demo_bar; demo_baz; demo_counter] out) with (s := demo_counter)
    as (e & He & Hname & Hrec).
  - vm_compute. repeat constructor; intros H;
      repeat (apply elem_of_cons in H as [H|H]; [discriminate H|]); inversion H.
  - intros s _ [o Ho]. simpl in Ho. rewrite lookup_empty in Ho. discriminate Ho.
  - exact Hsave.
  - right. right. right. left.
  - discriminate.
  - exists kb1, out, e. repeat split; assumption.
Defined.

(** ** How a load can fail *)

Lemma int16_Raise (t : string) e : int16 t = Raise e -> e = ValueError.
Proof.
  unfold int16. cbv zeta.
  destruct (match rstrip (lstrip t) with
            | String "-" u => option_map Z.opp (int16_unsigned u)
            | String "+" u => int16_unsigned u
            | _ => int16_unsigned (rstrip (lstrip t))
            end); [discriminate | intros [= <-]; reflexivity].
Qed.

Lemma new_symbols_Raise (k : class) (records : list sym_record) e : forall n,
  new_symbols k n records = Raise e ->
  e = ValueError
  /\ exists r t, r ∈ records /\ r_addr r = JStr t /\ int16 t = Raise ValueError.
Proof.
  induction records as [|r records IH]; intros n; cbn [new_symbols]; [discriminate|].
  destruct (Symbol_init k n r) as [s|e'] eqn:Hinit; cbn [rbind].
  - destruct (new_symbols k (S n) records) as [ss|e'] eqn:Hrest; cbn [rbind]; [discriminate|].
    intros [= ->]. destruct (IH _ Hrest) as (-> & r' & t & Hr' & Ha & Ht).
    split; [reflexivity|]. exists r', t. split; [right; exact Hr' | split; assumption].
  - intros [= ->]. unfold Symbol_init in Hinit.
    destruct (r_addr r) as [|t|z] eqn:Ha; cbn [rbind] in Hinit; try discriminate Hinit.
    destruct (int16 t) as [z|e'] eqn:Ht; cbn [rbind] in Hinit; [discriminate Hinit|].
    injection Hinit as ->. pose proof (int16_Raise t e Ht) as ->.
    split; [reflexivity|]. exists r, t. split; [left | split; assumption].
Qed.

Lemma attribute_fold_Raise clang o (l : list Symbol) e : forall kb0 : KnowledgeBase,
  rfoldM (attribute_symbol clang o) l kb0 = Raise e ->
  exists s a, s ∈ l /\ addr s = Some a /\ a <> 0%Z /\ name clang s = Raise e.
Proof.
  induction l as [|s l IH]; intros kb0; cbn [rfoldM]; [discriminate|].
  destruct (attribute_symbol clang o kb0 s) as [kb1|e'] eqn:Hstep; cbn [rbind].
  - intros Hrest. destruct (IH _ Hrest) as (s' & a & Hs' & H).
    exists s', a. split; [right; exact Hs' | exact H].
  - intros [= ->]. unfold attribute_symbol in Hstep.
    destruct (addr s) as [a|] eqn:Ha; [|discriminate Hstep].
    destruct (Z.eqb_spec a 0) as [->|Hne]; [discriminate Hstep|].
    destruct (name clang s) as [nm|e'] eqn:Hn; cbn [rbind] in Hstep; [discriminate Hstep|].
    injection Hstep as ->. exists s, a. split; [left|]. repeat split; assumption.
Qed.

Lemma Forall2_elem_l {A B} (R : A -> B -> Prop) (l : list A) (k : list B) (x : A) :
  Forall2 R l k -> x ∈ l -> exists y, y ∈ k /\ R x y.
Proof.
  induction 1 as [|a b l k Hab _ IH]; intros Hx; [inversion Hx|].
  apply elem_of_cons in Hx as [->|Hx].
  - exists b. split; [left | exact Hab].
  - destruct (IH Hx) as (y & Hy & Hxy). exists y. split; [right; exact Hy | exact Hxy].
Qed.

Lemma load_object_Raise clang (kb : KnowledgeBase) (n : nat) (o : obj_record) e :
  load_object clang (kb, n) o = Raise e ->
  (e = ValueError
   /\ exists kr t, kr ∈ tagged_records o /\ r_addr (snd kr) = JStr t
                   /\ int16 t = Raise ValueError)
  \/ (exists kr s a, kr ∈ tagged_records o /\ built_from s kr
                     /\ addr s = Some a /\ a <> 0%Z /\ name clang s = Raise e).
Proof.
  unfold load_object, tagged_records.
  destruct (new_symbols Function n _) as [F|e'] eqn:HF; cbn [rbind].
  - destruct (new_symbols Data _ _) as [D|e'] eqn:HD; cbn [rbind].
    + destruct (F ++ D) as [|s0 rest] eqn:Hnew; [discriminate|].
      rewrite <- Hnew. clear Hnew s0 rest.
      destruct (rfoldM _ (F ++ D) _) as [kb2|e'] eqn:Hfold; cbn [rbind]; [discriminate|].
      intros [= ->]. right.
      apply attribute_fold_Raise in Hfold as (s & a & Hs & Ha & Hne & Hn).
      apply new_symbols_built in HF as [HbF _], HD as [HbD _].
      pose proof (Forall2_app HbF HbD) as Hb2.
      destruct (Forall2_elem_l _ _ _ s Hb2 Hs) as (kr & Hkr & Hb).
      exists kr, s, a. repeat split; assumption.
    + intros [= ->]. left.
      apply new_symbols_Raise in HD as (-> & r & t & Hr & Ha & Ht).
      split; [reflexivity|]. exists (Data, r), t. split; [|split; assumption].
      apply elem_of_app. right. apply list_elem_of_In, in_map, list_elem_of_In, Hr.
  - intros [= ->]. left.
    apply new_symbols_Raise in HF as (-> & r & t & Hr & Ha & Ht).
    split; [reflexivity|]. exists (Function, r), t. split; [|split; assumption].
    apply elem_of_app. left. apply list_elem_of_In, in_map, list_elem_of_In, Hr.
Qed.

Lemma load_loop_Raise clang (objects : list obj_record) e : forall st,
  rfoldM (load_object clang) objects st = Raise e ->
  (e = ValueError
   /\ exists kr t, kr ∈ concat (map tagged_records objects) /\ r_addr (snd kr) = JStr t
                   /\ int16 t = Raise ValueError)
  \/ (exists kr s a, kr ∈ concat (map tagged_records objects) /\ built_from s kr
                     /\ addr s = Some a /\ a <> 0%Z /\ name clang s = Raise e).
Proof.
  induction objects as [|o objects IH]; intros st; cbn [rfoldM]; [discriminate|].
  cbn [map concat].
  destruct (load_object clang st o) as [st1|e'] eqn:Hone; cbn [rbind].
  - intros Hrest. destruct (IH _ Hrest) as [(-> & kr & t & Hkr & H)|(kr & s & a & Hkr & H)].
    + left. split; [reflexivity|]. exists kr, t. split; [|exact H].
      apply elem_of_app. right. exact Hkr.
    + right. exists kr, s, a. split; [|exact H]. apply elem_of_app. right. exact Hkr.
  - intros [= ->]. destruct st as [kb n].
    destruct (load_object_Raise _ _ _ _ _ Hone) as [(-> & kr & t & Hkr & H)|(kr & s & a & Hkr & H)].
    + left. split; [reflexivity|]. exists kr, t. split; [|exact H].
      apply elem_of_app. left. exact Hkr.
    + right. exists kr, s, a. split; [|exact H]. apply elem_of_app. left. exact Hkr.
Qed.

(** X23.  Without the truth hook, the load of a snapshot whose entries and
    records have the keys that [deserialize] reads can fail in two ways only:
    with [ValueError], on a record whose address is a string that is not a
    hexadecimal literal, or with the error of libclang, on a record with a
    known address other than zero whose declaration does not resolve to a
    name.  Without libclang only the first is left. *)
Theorem deserialize_failure clang (objects : list obj_record) e :
  deserialize clang None objects = Raise e ->
  ((e = ValueError
    /\ exists kr t, kr ∈ concat (map tagged_records objects) /\ r_addr (snd kr) = JStr t
                    /\ int16 t = Raise ValueError)
   \/ (exists kr s a, kr ∈ concat (map tagged_records objects) /\ built_from s kr
                      /\ addr s = Some a /\ a <> 0%Z /\ name clang s = Raise e))
  /\ (clang = None -> e = ValueError).
Proof.
  intros Hfail.
  assert (Hloop : rfoldM (load_object clang) objects (KnowledgeBase_init, 0%nat) = Raise e).
  { destruct (rfoldM (load_object clang) objects (KnowledgeBase_init, 0%nat))
      as [[kb' n']|e'] eqn:Hload.
    - destruct (deserialize_of_load clang objects kb' n' Hload) as (kb2 & lg & Hok & _).
      rewrite Hok in Hfail. discriminate Hfail.
    - unfold deserialize in Hfail. rewrite Hload in Hfail. cbn [rbind] in Hfail.
      congruence. }
  pose proof (load_loop_Raise clang objects e _ Hloop) as Hcases.
  split; [exact Hcases|].
  intros ->. destruct Hcases as [(-> & _)|(kr & s & a & _ & _ & _ & _ & Hn)];
    [reflexivity | discriminate Hn].
Qed.

Lemma deserialize_failure_witness :
  deserialize None None [mkObj None None None (Some [mkRecord "void f();" (JStr "zz")])]
  = Raise ValueError.
Proof.
  destruct (deserialize None None
              [mkObj None None None (Some [mkRecord "void f();" (JStr "zz")])])
    as [[kb lg]|e] eqn:Hload; [vm_compute in Hload; discriminate Hload|].
  rewrite (proj2 (deserialize_failure None _ e Hload) eq_refl). reflexivity.
Defined.
